(** * Hostly iCal sync backend: a shallow embedding of [src/index.js]

    The development follows the source file top to bottom:
    - [JsString]  : the string primitives of the runtime the code calls
                    ([toLowerCase], [includes], [startsWith], [trim],
                    [split]) on sequences of UTF-16 code units;
    - [Regex]     : a backtracking matcher for the fragment of regular
                    expressions the two literals of [parseIcal] use;
    - [JsDate]    : time values, [toISOString] and [Math.round];
    - [parseIcal], [syncAll] and the routes over [propertyCache].
*)

From Stdlib Require Import String Ascii ZArith List Bool Lia.
Import ListNotations.

Local Open Scope Z_scope.

(* ------------------------------------------------------------------ *)
(** ** Strings of the runtime *)

Module JsString.

(** A JavaScript string is a sequence of UTF-16 code units. *)
Definition jsstring := list Z.

(** Literals of the source are written as Rocq strings and converted. *)
Fixpoint lit (s : string) : jsstring :=
  match s with
  | EmptyString => []
  | String a s' => Z.of_N (N_of_ascii a) :: lit s'
  end.

Definition eqb (a b : jsstring) : bool :=
  if list_eq_dec Z.eq_dec a b then true else false.

(** In a boolean context a string is truthy when it is not empty. *)
Definition truthy (s : jsstring) : bool :=
  match s with [] => false | _ :: _ => true end.

Definition isUpperAscii (c : Z) : bool := (65 <=? c) && (c <=? 90).
Definition isLowerAscii (c : Z) : bool := (97 <=? c) && (c <=? 122).

(** [toLowerCase], on the ASCII range; the case tables of the runtime for
    code units from 128 on are not part of the model, those units are
    kept. *)
Definition lowerUnit (c : Z) : Z := if isUpperAscii c then c + 32 else c.
Definition upperUnit (c : Z) : Z := if isLowerAscii c then c - 32 else c.

Definition toLowerCase (s : jsstring) : jsstring := map lowerUnit s.

(** [s.startsWith(p)] *)
Fixpoint startsWith (p s : jsstring) : bool :=
  match p, s with
  | [], _ => true
  | _ :: _, [] => false
  | a :: p', b :: s' => (a =? b) && startsWith p' s'
  end.

(** [s.includes(p)] *)
Fixpoint includes (p s : jsstring) : bool :=
  startsWith p s ||
  match s with
  | [] => false
  | _ :: s' => includes p s'
  end.

(** WhiteSpace and LineTerminator of ECMAScript: what [\s] matches and
    what [trim] strips. *)
Definition isLineTerminator (c : Z) : bool :=
  (c =? 10) || (c =? 13) || (c =? 8232) || (c =? 8233).

Definition isSpace (c : Z) : bool :=
  (c =? 9) || (c =? 11) || (c =? 12) || (c =? 32) || (c =? 160) ||
  (c =? 5760) || ((8192 <=? c) && (c <=? 8202)) || (c =? 8239) ||
  (c =? 8287) || (c =? 12288) || (c =? 65279) || isLineTerminator c.

Fixpoint trimStart (s : jsstring) : jsstring :=
  match s with
  | [] => []
  | c :: s' => if isSpace c then trimStart s' else s
  end.

Definition trimEnd (s : jsstring) : jsstring := rev (trimStart (rev s)).

(** [s.trim()] *)
Definition trim (s : jsstring) : jsstring := trimEnd (trimStart s).

(** [s.split(sep)[0]] for a separator of one code unit. *)
Fixpoint splitHead (sep : Z) (s : jsstring) : jsstring :=
  match s with
  | [] => []
  | c :: s' => if c =? sep then [] else c :: splitHead sep s'
  end.

End JsString.

Import JsString.

(* ------------------------------------------------------------------ *)
(** ** Regular expressions *)

Module Regex.

(** The fragment used by the literals of the source: character classes,
    greedy repetition of a class, sequence, alternative, and the capture
    group number 1. *)
Inductive regex : Type :=
| RChar (p : Z -> bool)
| RStar (p : Z -> bool)
| REmpty
| RSeq (r1 r2 : regex)
| RAlt (r1 r2 : regex)
| RGroup (r : regex).

Definition RPlus (p : Z -> bool) : regex := RSeq (RChar p) (RStar p).

(** Continuations receive the rest of the input and the capture. *)
Definition cont := jsstring -> option jsstring -> option (option jsstring).

(** Greedy [p*]: take as many units as the class allows, and give them
    back one at a time when the continuation fails. *)
Fixpoint star (p : Z -> bool) (s : jsstring) (cap : option jsstring)
  (k : cont) : option (option jsstring) :=
  match s with
  | c :: s' =>
      if p c then
        match star p s' cap k with
        | Some r => Some r
        | None => k s cap
        end
      else k s cap
  | [] => k [] cap
  end.

(** The backtracking matcher, anchored at the head of [s]. *)
Fixpoint run (r : regex) (s : jsstring) (cap : option jsstring)
  (k : cont) : option (option jsstring) :=
  match r with
  | RChar p =>
      match s with
      | c :: s' => if p c then k s' cap else None
      | [] => None
      end
  | RStar p => star p s cap k
  | REmpty => k s cap
  | RSeq r1 r2 => run r1 s cap (fun s' cap' => run r2 s' cap' k)
  | RAlt r1 r2 =>
      match run r1 s cap k with
      | Some x => Some x
      | None => run r2 s cap k
      end
  | RGroup r1 =>
      run r1 s cap
        (fun s' _ => k s' (Some (firstn (length s - length s') s)))
  end.

Definition accept : cont := fun _ cap => Some cap.

(** [s.match(r)] for a regular expression without the [g] flag: the
    first index at which the expression matches; the result is the
    capture of group 1 ([None] for the runtime's [null]). *)
Fixpoint exec (r : regex) (s : jsstring) : option (option jsstring) :=
  match run r s None accept with
  | Some x => Some x
  | None =>
      match s with
      | [] => None
      | _ :: s' => exec r s'
      end
  end.

(** A pattern character under the [i] flag. *)
Definition ci (x : Z) : Z -> bool := fun c => upperUnit c =? upperUnit x.

Fixpoint word (s : jsstring) : regex :=
  match s with
  | [] => REmpty
  | x :: s' => RSeq (RChar (ci x)) (word s')
  end.

Definition space : Z -> bool := isSpace.
Definition dot : Z -> bool := fun c => negb (isLineTerminator c).

(** The relation the matcher decides: [matches r a c c'] when [r]
    consumes exactly [a], turning the capture [c] into [c']. *)
Inductive matches : regex -> jsstring -> option jsstring ->
                    option jsstring -> Prop :=
| MChar p c cap : p c = true -> matches (RChar p) [c] cap cap
| MStar p a cap : forallb p a = true -> matches (RStar p) a cap cap
| MEmpty cap : matches REmpty [] cap cap
| MSeq r1 r2 a b c0 c1 c2 :
    matches r1 a c0 c1 -> matches r2 b c1 c2 ->
    matches (RSeq r1 r2) (a ++ b) c0 c2
| MAltL r1 r2 a c0 c1 : matches r1 a c0 c1 -> matches (RAlt r1 r2) a c0 c1
| MAltR r1 r2 a c0 c1 : matches r2 a c0 c1 -> matches (RAlt r1 r2) a c0 c1
| MGroup r a c0 c1 : matches r a c0 c1 -> matches (RGroup r) a c0 (Some a).

End Regex.

Import Regex.

(* ------------------------------------------------------------------ *)
(** ** Dates and numbers of the runtime *)

Module JsDate.

(** A [Date] object holds a time value: milliseconds since the epoch, or
    NaN for an invalid date. *)
Inductive Date : Type :=
| Instant (t : Z)
| InvalidDate.

(** The numbers the code computes with dates: an integer or NaN. *)
Inductive number : Type :=
| Num (z : Z)
| NaN.

Definition msPerDay : Z := 1000 * 60 * 60 * 24.

(** [b - a] on two dates. *)
Definition minus (b a : Date) : number :=
  match b, a with
  | Instant tb, Instant ta => Num (tb - ta)
  | _, _ => NaN
  end.

(** [Math.round(d / m)] for a positive integer [m]: the runtime rounds
    to the nearest integer, a half going up, that is floor (d/m + 1/2).
    The quotient is taken exactly here. The runtime computes [d] and the
    quotient in binary64: for the [m] of the code (a day) and [d] of
    less than 2^26 days, [d] is exact and the rounded quotient lies on
    the same side of every half integer as the exact one, so the result
    is the same; beyond that the runtime may give a neighbouring
    integer. *)
Definition roundDiv (d : number) (m : Z) : number :=
  match d with
  | Num z => Num ((2 * z + m) / (2 * m))
  | NaN => NaN
  end.

(** Decimal digits of [n], padded with zeros to [width]. *)
Fixpoint digits (width : nat) (n : Z) : jsstring :=
  match width with
  | O => []
  | S w => digits w (n / 10) ++ [48 + n mod 10]
  end.

(** The proleptic Gregorian date of a day number (days since the epoch),
    as year, month (1 to 12) and day of month. *)
Definition civil (day : Z) : Z * Z * Z :=
  let z := day + 719468 in
  let era := z / 146097 in
  let doe := z - era * 146097 in
  let yoe := (doe - doe / 1460 + doe / 36524 - doe / 146096) / 365 in
  let doy := doe - (365 * yoe + yoe / 4 - yoe / 100) in
  let mp := (5 * doy + 2) / 153 in
  let d := doy - (153 * mp + 2) / 5 + 1 in
  let m := if mp <? 10 then mp + 3 else mp - 9 in
  let y := yoe + era * 400 + (if m <=? 2 then 1 else 0) in
  (y, m, d).

Definition yearString (y : Z) : jsstring :=
  if (0 <=? y) && (y <=? 9999) then digits 4 y
  else if y <? 0 then 45 :: digits 6 (- y)
  else 43 :: digits 6 y.

(** The text [YYYY-MM-DDTHH:mm:ss.sssZ] of a time value. *)
Definition isoString (t : Z) : jsstring :=
  let '(y, m, d) := civil (t / msPerDay) in
  let ms := t mod msPerDay in
  yearString y ++ [45] ++ digits 2 m ++ [45] ++ digits 2 d ++ [84] ++
  digits 2 (ms / 3600000) ++ [58] ++ digits 2 (ms / 60000 mod 60) ++ [58] ++
  digits 2 (ms / 1000 mod 60) ++ [46] ++ digits 3 (ms mod 1000) ++ [90].

End JsDate.

Import JsDate.

(* ------------------------------------------------------------------ *)
(** ** Completions: a value, or a thrown error with its message *)

Inductive completion (A : Type) : Type :=
| Normal (a : A)
| Throw (message : jsstring).

Arguments Normal {A} a.
Arguments Throw {A} message.

Definition bind {A B : Type} (c : completion A) (f : A -> completion B)
  : completion B :=
  match c with
  | Normal a => f a
  | Throw m => Throw m
  end.

Notation "x <- c ;; k" := (bind c (fun x => k))
  (at level 61, c at next level, right associativity).

(** [d.toISOString()] throws a RangeError on an invalid date. *)
Definition toISOString (d : Date) : completion jsstring :=
  match d with
  | Instant t => Normal (isoString t)
  | InvalidDate => Throw (lit "Invalid time value")
  end.

(* ------------------------------------------------------------------ *)
(** ** Objects used as maps *)

Module JsObject.

(** An object with string keys, as the list of its properties in the
    order [for ... in] and [Object.keys] enumerate them: array indices in
    ascending order first, then the other keys in order of creation. *)
Definition t (V : Type) := list (jsstring * V).

Fixpoint digitsValue (acc : Z) (s : jsstring) : option Z :=
  match s with
  | [] => Some acc
  | c :: s' =>
      if (48 <=? c) && (c <=? 57) then digitsValue (acc * 10 + (c - 48)) s'
      else None
  end.

(** The array index a key denotes, when it is the canonical decimal text
    of an integer from 0 to 2^32 - 2. *)
Definition arrayIndex (k : jsstring) : option Z :=
  match k with
  | [] => None
  | c :: rest =>
      if (c =? 48) && truthy rest then None
      else match digitsValue 0 k with
           | Some v => if v <=? 4294967294 then Some v else None
           | None => None
           end
  end.

Section Ops.
Context {V : Type}.

(** [o[k]] *)
Fixpoint get (k : jsstring) (o : t V) : option V :=
  match o with
  | [] => None
  | (k', v) :: o' => if eqb k' k then Some v else get k o'
  end.

Definition keys (o : t V) : list jsstring := map fst o.

(** Change the value of an existing property in place. *)
Fixpoint update (k : jsstring) (f : V -> V) (o : t V) : t V :=
  match o with
  | [] => []
  | (k', v) :: o' =>
      if eqb k' k then (k', f v) :: o' else (k', v) :: update k f o'
  end.

Fixpoint insertIndex (i : Z) (k : jsstring) (v : V) (o : t V) : t V :=
  match o with
  | [] => [(k, v)]
  | (k', v') :: o' =>
      match arrayIndex k' with
      | Some j => if j <? i then (k', v') :: insertIndex i k v o'
                  else (k, v) :: o
      | None => (k, v) :: o
      end
  end.

(** [o[k] = v]: an existing property keeps its place, a new one is
    created. *)
Definition set (k : jsstring) (v : V) (o : t V) : t V :=
  match get k o with
  | Some _ => update k (fun _ => v) o
  | None =>
      match arrayIndex k with
      | Some i => insertIndex i k v o
      | None => o ++ [(k, v)]
      end
  end.

End Ops.

End JsObject.

(* ------------------------------------------------------------------ *)
(** ** The data of the program *)

(** One entry of the decoded calendar, with the fields [parseIcal]
    reads; an absent field is [None]. The summary and the description
    are strings here, as the decoder gives them for lines without
    parameters; [Decoded.t] below has the other case as well. *)
Module Event.
Record t : Type := {
  type : jsstring;
  summary : option jsstring;
  description : option jsstring;
  start : option Date;
  end_ : option Date;
  uid : option jsstring
}.
End Event.

Module Reservation.
Record t : Type := {
  id : jsstring;
  propertyId : jsstring;
  guestName : jsstring;
  checkIn : jsstring;
  checkOut : jsstring;
  nights : number;
  total : number;
  source : jsstring;
  summary : jsstring
}.
End Reservation.

(** The value of [propertyCache[propertyId]]. *)
Module Entry.
Record t : Type := {
  icalUrl : jsstring;
  name : jsstring;
  reservations : list Reservation.t;
  lastSynced : option jsstring
}.

Definition withReservations (rs : list Reservation.t) (e : t) : t :=
  {| icalUrl := icalUrl e; name := name e; reservations := rs;
     lastSynced := lastSynced e |}.

Definition withLastSynced (ts : option jsstring) (e : t) : t :=
  {| icalUrl := icalUrl e; name := name e; reservations := reservations e;
     lastSynced := ts |}.
End Entry.

(** The object [ical.async.fromURL] resolves to: events by key. *)
Definition Feed := JsObject.t Event.t.

(** [propertyCache] *)
Definition Cache := JsObject.t Entry.t.

(** What the code observes of the outside while it handles one
    property: the outcome of the fetch of a URL, and the clock. *)
Record World : Type := {
  fromURL : jsstring -> completion Feed;
  now : Z
}.

(* ------------------------------------------------------------------ *)
(** ** parseIcal *)

(** [v || d] for an optional string. *)
Definition orElse (v : option jsstring) (d : jsstring) : jsstring :=
  match v with
  | Some s => if truthy s then s else d
  | None => d
  end.

(** [!v] for an optional string. *)
Definition falsy (v : option jsstring) : bool :=
  match v with
  | Some s => negb (truthy s)
  | None => true
  end.

Definition isBlocked (summary : jsstring) : bool :=
  includes (lit "not available") (toLowerCase summary) ||
  includes (lit "airbnb") (toLowerCase summary) &&
    negb (includes (lit "reserved") (toLowerCase summary)).

(** The class of the separator: a hyphen or an en-dash (U+2013). *)
Definition separator : Z -> bool := fun c => ci 45 c || ci 8211 c.

(** The literal of the first [match]: "reserved", white space, the
    separator, white space, and group 1 of one or more units of a line;
    the [i] flag makes the letters match in either case. *)
Definition reservedRe : regex :=
  RSeq (word (lit "reserved"))
    (RSeq (RStar space)
       (RSeq (RChar separator)
          (RSeq (RStar space) (RGroup (RPlus dot))))).

(** The literal of the second [match]: "guest" or "name", a colon,
    white space, and group 1 of one or more units of a line. *)
Definition descRe : regex :=
  RSeq (RAlt (word (lit "guest")) (word (lit "name")))
    (RSeq (RChar (ci 58))
       (RSeq (RStar space) (RGroup (RPlus dot)))).

(** [m[1].trim()] on a match [m]; reading [trim] of an undefined group
    would throw a TypeError. *)
Definition group1Trim (cap : option jsstring) : completion jsstring :=
  match cap with
  | Some g => Normal (trim g)
  | None => Throw (lit "Cannot read properties of undefined (reading 'trim')")
  end.

Definition fallbackGuest : jsstring := lit "Airbnb Guest".

Definition extractGuestName (summary : jsstring)
  (description : option jsstring) : completion jsstring :=
  match exec reservedRe summary with
  | Some reservedMatch => group1Trim reservedMatch
  | None =>
      match description with
      | Some d =>
          if truthy d then
            match exec descRe d with
            | Some descMatch => group1Trim descMatch
            | None => Normal fallbackGuest
            end
          else Normal fallbackGuest
      | None => Normal fallbackGuest
      end
  end.

(** The template [`${propertyId}-${checkIn.toISOString()}`]. *)
Definition synthesizedId (propertyId : jsstring) (checkIn : Date)
  : completion jsstring :=
  iso <- toISOString checkIn ;;
  Normal (propertyId ++ lit "-" ++ iso).

(** [event.uid || ...]: the uid when it is truthy, the template
    otherwise. *)
Definition reservationId (uid : option jsstring) (propertyId : jsstring)
  (checkIn : Date) : completion jsstring :=
  match uid with
  | Some u => if truthy u then Normal u else synthesizedId propertyId checkIn
  | None => synthesizedId propertyId checkIn
  end.

(** One turn of the loop over the events: [None] when the event is
    passed over by a [continue], the pushed reservation otherwise. The
    decoder gives [start] and [end] as Date objects, which [new Date]
    copies; a Date is truthy also when it is invalid. *)
Definition processEvent (propertyId : jsstring) (event : Event.t)
  : completion (option Reservation.t) :=
  if negb (eqb (Event.type event) (lit "VEVENT")) then Normal None else
  let summary := orElse (Event.summary event) [] in
  if isBlocked summary then Normal None else
  match Event.start event, Event.end_ event with
  | Some checkIn, Some checkOut =>
      guestName <- extractGuestName summary (Event.description event) ;;
      let nights := roundDiv (minus checkOut checkIn) msPerDay in
      id <- reservationId (Event.uid event) propertyId checkIn ;;
      isoIn <- toISOString checkIn ;;
      isoOut <- toISOString checkOut ;;
      Normal (Some {|
        Reservation.id := id;
        Reservation.propertyId := propertyId;
        Reservation.guestName := guestName;
        Reservation.checkIn := splitHead 84 isoIn;
        Reservation.checkOut := splitHead 84 isoOut;
        Reservation.nights := nights;
        Reservation.total := Num 0;
        Reservation.source := lit "airbnb";
        Reservation.summary := summary |})
  | _, _ => Normal None
  end.

(** The loop [for (const key in events)], with the array it fills. *)
Fixpoint eventLoop (propertyId : jsstring) (events : Feed)
  (reservations : list Reservation.t) : completion (list Reservation.t) :=
  match events with
  | [] => Normal reservations
  | (key, event) :: rest =>
      r <- processEvent propertyId event ;;
      eventLoop propertyId rest
        (match r with
         | Some x => reservations ++ [x]
         | None => reservations
         end)
  end.

(** What a call of [parseIcal] gives: the returned value ([None] for
    [null]) and the calls of [console.error] it makes, each one as the
    list of its arguments (how the console prints them is not part of
    the model). *)
Record Parsed : Type := {
  returned : option (list Reservation.t);
  errors : list (list jsstring)
}.

(** The arguments of the call of [console.error] in the [catch]: the
    template with the property id, and [err.message]. *)
Definition errorCall (propertyId message : jsstring) : list jsstring :=
  [lit "Error parsing iCal for property " ++ propertyId ++ lit ":"; message].

(** The whole body is inside [try]; the [catch] logs and returns null. *)
Definition parseIcal (w : World) (icalUrl propertyId : jsstring)
  (propertyName : option jsstring) : Parsed :=
  match (events <- fromURL w icalUrl ;; eventLoop propertyId events []) with
  | Normal reservations => {| returned := Some reservations; errors := [] |}
  | Throw message =>
      {| returned := None; errors := [errorCall propertyId message] |}
  end.

(* ------------------------------------------------------------------ *)
(** ** parseIcal on entries as the decoder gives them *)

(** A text property of a calendar entry as the decoder gives it: absent,
    a string, or, when the line of the feed carries parameters, an object
    [{params, val}]. [Event.t] above is the case without such objects. *)
Inductive decoded : Type :=
| Absent
| Plain (s : jsstring)
| WithParams (val : jsstring).

Module Decoded.
Record t : Type := {
  type : jsstring;
  summary : decoded;
  description : decoded;
  start : option Date;
  end_ : option Date;
  uid : option jsstring
}.
End Decoded.

Definition DecodedFeed := JsObject.t Decoded.t.

(** [event.summary || ""], and then the first call of a string method on
    it, [summary.toLowerCase()]: an object is truthy and has no such
    method, so the call throws a TypeError. *)
Definition summaryOf (v : decoded) : completion jsstring :=
  match v with
  | Absent => Normal []
  | Plain s => Normal (if truthy s then s else [])
  | WithParams _ => Throw (lit "summary.toLowerCase is not a function")
  end.

(** Lines 42 to 50; [event.description.match] on an object throws. *)
Definition extractGuestNameDecoded (summary : jsstring)
  (description : decoded) : completion jsstring :=
  match exec reservedRe summary with
  | Some reservedMatch => group1Trim reservedMatch
  | None =>
      match description with
      | Absent => Normal fallbackGuest
      | Plain d =>
          if truthy d then
            match exec descRe d with
            | Some descMatch => group1Trim descMatch
            | None => Normal fallbackGuest
            end
          else Normal fallbackGuest
      | WithParams _ =>
          Throw (lit "event.description.match is not a function")
      end
  end.

(** One turn of the loop, as [processEvent]. *)
Definition processDecoded (propertyId : jsstring) (event : Decoded.t)
  : completion (option Reservation.t) :=
  if negb (eqb (Decoded.type event) (lit "VEVENT")) then Normal None else
  summary <- summaryOf (Decoded.summary event) ;;
  if isBlocked summary then Normal None else
  match Decoded.start event, Decoded.end_ event with
  | Some checkIn, Some checkOut =>
      guestName <- extractGuestNameDecoded summary (Decoded.description event) ;;
      let nights := roundDiv (minus checkOut checkIn) msPerDay in
      id <- reservationId (Decoded.uid event) propertyId checkIn ;;
      isoIn <- toISOString checkIn ;;
      isoOut <- toISOString checkOut ;;
      Normal (Some {|
        Reservation.id := id;
        Reservation.propertyId := propertyId;
        Reservation.guestName := guestName;
        Reservation.checkIn := splitHead 84 isoIn;
        Reservation.checkOut := splitHead 84 isoOut;
        Reservation.nights := nights;
        Reservation.total := Num 0;
        Reservation.source := lit "airbnb";
        Reservation.summary := summary |})
  | _, _ => Normal None
  end.

Fixpoint decodedLoop (propertyId : jsstring) (events : DecodedFeed)
  (reservations : list Reservation.t) : completion (list Reservation.t) :=
  match events with
  | [] => Normal reservations
  | (key, event) :: rest =>
      r <- processDecoded propertyId event ;;
      decodedLoop propertyId rest
        (match r with
         | Some x => reservations ++ [x]
         | None => reservations
         end)
  end.

(** [parseIcal], with the fetch given as a function of the url. *)
Definition parseIcalDecoded (fromURL : jsstring -> completion DecodedFeed)
  (icalUrl propertyId : jsstring) (propertyName : option jsstring) : Parsed :=
  match (events <- fromURL icalUrl ;; decodedLoop propertyId events []) with
  | Normal reservations => {| returned := Some reservations; errors := [] |}
  | Throw message =>
      {| returned := None; errors := [errorCall propertyId message] |}
  end.

(** An entry without objects, among the decoded ones. *)
Definition decodedText (v : option jsstring) : decoded :=
  match v with
  | Some s => Plain s
  | None => Absent
  end.

Definition decodedOf (e : Event.t) : Decoded.t :=
  {| Decoded.type := Event.type e;
     Decoded.summary := decodedText (Event.summary e);
     Decoded.description := decodedText (Event.description e);
     Decoded.start := Event.start e;
     Decoded.end_ := Event.end_ e;
     Decoded.uid := Event.uid e |}.

(* ------------------------------------------------------------------ *)
(** ** syncAll *)

(** The two assignments of a successful sync. *)
Definition storeSync (w : World) (propertyId : jsstring)
  (reservations : list Reservation.t) (cache : Cache) : Cache :=
  JsObject.update propertyId
    (Entry.withLastSynced (Some (isoString (now w))))
    (JsObject.update propertyId (Entry.withReservations reservations) cache).

(** The body of the loop of [syncAll]. Reading a field of an entry that
    is not there throws a TypeError. *)
Definition syncStep (w : World) (propertyId : jsstring) (cache : Cache)
  : completion Cache :=
  match JsObject.get propertyId cache with
  | None => Throw (lit "Cannot read properties of undefined (reading 'icalUrl')")
  | Some entry =>
      match returned (parseIcal w (Entry.icalUrl entry) propertyId
                        (Some (Entry.name entry))) with
      | Some reservations => Normal (storeSync w propertyId reservations cache)
      | None => Normal cache
      end
  end.

Fixpoint syncLoop (world : jsstring -> World) (ids : list jsstring)
  (cache : Cache) : completion Cache :=
  match ids with
  | [] => Normal cache
  | propertyId :: rest =>
      cache' <- syncStep (world propertyId) propertyId cache ;;
      syncLoop world rest cache'
  end.

(** [syncAll()], one property after the other; [world propertyId] is
    the outside as it is while that property is handled. *)
Definition syncAll (world : jsstring -> World) (cache : Cache)
  : completion Cache :=
  syncLoop world (JsObject.keys cache) cache.

(* ------------------------------------------------------------------ *)
(** ** Routes *)

Record SyncStatus : Type := {
  statusPropertyId : jsstring;
  statusName : jsstring;
  statusLastSynced : option jsstring;
  reservationCount : Z
}.

Inductive Body : Type :=
| ErrorBody (error : jsstring)
| Registered (propertyId : jsstring) (name : option jsstring)
    (reservationCount : Z) (lastSynced : option jsstring)
| ReservationList (reservations : list Reservation.t)
    (syncStatus : list SyncStatus) (totalProperties : Z).

Record Response : Type := {
  status : Z;
  body : Body
}.

(** The body of [POST /properties] when its fields are strings or
    absent; [RawBody] below has the bodies with other values. *)
Record RegisterRequest : Type := {
  reqPropertyId : option jsstring;
  reqName : option jsstring;
  reqIcalUrl : option jsstring
}.

(** The assignment [propertyCache[propertyId] = {...}] of the route, for
    every property id but [__proto__] (see [storable]): for that one the
    assignment replaces the prototype of the object and makes no entry. *)
Definition registerEntry (propertyId : jsstring) (name : option jsstring)
  (icalUrl : jsstring) (cache : Cache) : Cache :=
  JsObject.set propertyId
    {| Entry.icalUrl := icalUrl;
       Entry.name := orElse name (lit "Property " ++ propertyId);
       Entry.reservations :=
         match JsObject.get propertyId cache with
         | Some e => Entry.reservations e
         | None => []
         end;
       Entry.lastSynced := None |}
    cache.

Definition lastSyncedOf (propertyId : jsstring) (cache : Cache)
  : option jsstring :=
  match JsObject.get propertyId cache with
  | Some e => Entry.lastSynced e
  | None => None
  end.

(** [app.post("/properties", ...)] *)
Definition postProperties (w : World) (req : RegisterRequest)
  (cache : Cache) : Cache * Response :=
  if falsy (reqPropertyId req) || falsy (reqIcalUrl req) then
    (cache, {| status := 400;
               body := ErrorBody (lit "propertyId and icalUrl are required") |})
  else
    let propertyId := orElse (reqPropertyId req) [] in
    let icalUrl := orElse (reqIcalUrl req) [] in
    if negb (startsWith (lit "https://") icalUrl) then
      (cache, {| status := 400;
                 body := ErrorBody (lit "icalUrl must be a valid https:// URL") |})
    else
      let cache1 := registerEntry propertyId (reqName req) icalUrl cache in
      match returned (parseIcal w icalUrl propertyId (reqName req)) with
      | Some reservations =>
          let cache2 := storeSync w propertyId reservations cache1 in
          (cache2,
           {| status := 200;
              body := Registered propertyId (reqName req)
                        (Z.of_nat (length reservations))
                        (lastSyncedOf propertyId cache2) |})
      | None =>
          (cache1,
           {| status := 500;
              body := ErrorBody (lit "Failed to fetch or parse iCal URL. Please check the URL and try again.") |})
      end.

(** The loop of [GET /reservations] over the cache. *)
Fixpoint reservationsLoop (propertyId : option jsstring) (cache : Cache)
  (allReservations : list Reservation.t) (syncStatus : list SyncStatus)
  : list Reservation.t * list SyncStatus :=
  match cache with
  | [] => (allReservations, syncStatus)
  | (pid, entry) :: rest =>
      let syncStatus' :=
        syncStatus ++
        [{| statusPropertyId := pid;
            statusName := Entry.name entry;
            statusLastSynced := Entry.lastSynced entry;
            reservationCount := Z.of_nat (length (Entry.reservations entry)) |}] in
      let allReservations' :=
        if falsy propertyId || eqb pid (orElse propertyId []) then
          allReservations ++ Entry.reservations entry
        else allReservations in
      reservationsLoop propertyId rest allReservations' syncStatus'
  end.

(** [app.get("/reservations", ...)]; [propertyId] is the query
    parameter. *)
Definition getReservations (propertyId : option jsstring) (cache : Cache)
  : Response :=
  let '(allReservations, syncStatus) :=
    reservationsLoop propertyId cache [] [] in
  {| status := 200;
     body := ReservationList allReservations syncStatus
               (Z.of_nat (length (JsObject.keys cache))) |}.

(* ------------------------------------------------------------------ *)
(** ** The guards of POST /properties on any body *)

(** A field of the parsed JSON body, as far as the guards look at it:
    not there, a string, or a value that is not a string (null, a
    boolean, a number, an array or an object) with its truthiness. *)
Inductive jsval : Type :=
| Undefined
| Text (s : jsstring)
| NotText (truthyValue : bool).

Definition truthyVal (v : jsval) : bool :=
  match v with
  | Undefined => false
  | Text s => truthy s
  | NotText t => t
  end.

(** [req.body]; it is [None] when no body was parsed. *)
Record RawBody : Type := {
  rawPropertyId : jsval;
  rawName : jsval;
  rawIcalUrl : jsval
}.

(** Where lines 103 to 111 leave the request: answered, or on its way
    to the registration with the url known to be a string. *)
Inductive GuardResult : Type :=
| Rejected (answer : Response)
| Passed (propertyId name : jsval) (icalUrl : jsstring).

(** Lines 103 to 111: the destructuring of the body and the two guards.
    Destructuring an absent body throws, and so does [icalUrl.startsWith]
    on a truthy value that is not a string. *)
Definition registrationGuards (body : option RawBody) : completion GuardResult :=
  match body with
  | None =>
      Throw (lit "Cannot destructure property 'propertyId' of 'req.body' as it is undefined.")
  | Some b =>
      if negb (truthyVal (rawPropertyId b)) || negb (truthyVal (rawIcalUrl b))
      then
        Normal (Rejected
                  {| status := 400;
                     body := ErrorBody (lit "propertyId and icalUrl are required") |})
      else
        match rawIcalUrl b with
        | Text icalUrl =>
            if negb (startsWith (lit "https://") icalUrl) then
              Normal (Rejected
                        {| status := 400;
                           body := ErrorBody (lit "icalUrl must be a valid https:// URL") |})
            else Normal (Passed (rawPropertyId b) (rawName b) icalUrl)
        | _ => Throw (lit "icalUrl.startsWith is not a function")
        end
  end.

(** The route as the guards followed by lines 113 to 136, which are the
    argument [registration]; what the handler gives is the cache and
    either the answer or the error it throws. *)
Definition postPropertiesWith
  (registration : jsval -> jsval -> jsstring -> Cache -> Cache * Response)
  (body : option RawBody) (cache : Cache) : Cache * completion Response :=
  match registrationGuards body with
  | Throw message => (cache, Throw message)
  | Normal (Rejected answer) => (cache, Normal answer)
  | Normal (Passed propertyId name icalUrl) =>
      let (cache', answer) := registration propertyId name icalUrl cache in
      (cache', Normal answer)
  end.

(** Lines 113 to 136 for a property id and a name that are strings (the
    name may be absent). *)
Definition registerAndSync (w : World) (propertyId : jsstring)
  (name : option jsstring) (icalUrl : jsstring) (cache : Cache)
  : Cache * Response :=
  let cache1 := registerEntry propertyId name icalUrl cache in
  match returned (parseIcal w icalUrl propertyId name) with
  | Some reservations =>
      let cache2 := storeSync w propertyId reservations cache1 in
      (cache2,
       {| status := 200;
          body := Registered propertyId name
                    (Z.of_nat (length reservations))
                    (lastSyncedOf propertyId cache2) |})
  | None =>
      (cache1,
       {| status := 500;
          body := ErrorBody (lit "Failed to fetch or parse iCal URL. Please check the URL and try again.") |})
  end.

(** The body of a request whose fields are strings or absent. *)
Definition rawText (v : option jsstring) : jsval :=
  match v with
  | Some s => Text s
  | None => Undefined
  end.

Definition bodyOf (req : RegisterRequest) : RawBody :=
  {| rawPropertyId := rawText (reqPropertyId req);
     rawName := rawText (reqName req);
     rawIcalUrl := rawText (reqIcalUrl req) |}.

(* ------------------------------------------------------------------ *)
(** ** The vocabulary of the specification *)

(** [needle] occurs in [s] when case is ignored. *)
Definition containsCI (needle s : jsstring) : Prop :=
  exists pre m post, s = pre ++ m ++ post /\ toLowerCase m = needle.

(** The classification rule in the words of the specification. *)
Definition Blackout (summary : jsstring) : Prop :=
  containsCI (lit "not available") summary \/
  (containsCI (lit "airbnb") summary /\ ~ containsCI (lit "reserved") summary).

(** Text that stays on one line and is not empty. *)
Definition lineText (g : jsstring) : Prop :=
  g <> [] /\ forallb dot g = true.

(** [s] holds "reserved", a hyphen or an en-dash as separator (white
    space allowed around it), and then the text [g]. *)
Definition reservedText (s g : jsstring) : Prop :=
  exists pre R w1 c w2 post,
    s = pre ++ R ++ w1 ++ [c] ++ w2 ++ g ++ post /\
    toLowerCase R = lit "reserved" /\
    forallb isSpace w1 = true /\ (c = 45 \/ c = 8211) /\
    forallb isSpace w2 = true /\ lineText g.

(** [d] holds the label "guest:" or "name:" and then the text [g]. *)
Definition labelledText (d g : jsstring) : Prop :=
  exists pre L w post,
    d = pre ++ L ++ [58] ++ w ++ g ++ post /\
    (toLowerCase L = lit "guest" \/ toLowerCase L = lit "name") /\
    forallb isSpace w = true /\ lineText g.

(** The events that reach the [push]: timed occurrences that are not
    blackouts and carry both instants. *)
Definition emits (e : Event.t) : bool :=
  eqb (Event.type e) (lit "VEVENT") &&
  negb (isBlocked (orElse (Event.summary e) [])) &&
  match Event.start e, Event.end_ e with
  | Some _, Some _ => true
  | _, _ => false
  end.

Definition emitted (events : Feed) : list Event.t :=
  filter emits (map snd events).

(** [r] is the reservation pushed for [e]. *)
Definition produces (propertyId : jsstring) (e : Event.t)
  (r : Reservation.t) : Prop :=
  processEvent propertyId e = Normal (Some r).

(** The id an event brings with it: its uid, or, for an event without
    one, the property id, a hyphen and the ISO text of its start. *)
Definition sourceId (propertyId : jsstring) (e : Event.t) : jsstring :=
  match Event.uid e with
  | Some (c :: u) => c :: u
  | _ =>
      propertyId ++ lit "-" ++
      match Event.start e with
      | Some (Instant a) => isoString a
      | _ => []
      end
  end.

(** Both dates of an event are there and valid. *)
Definition datedEvent (e : Event.t) : Prop :=
  exists a b, Event.start e = Some (Instant a) /\
              Event.end_ e = Some (Instant b).

(** A field of a request that is absent or empty. *)
Definition missing (v : option jsstring) : Prop := v = None \/ v = Some [].

(** A URL with the https scheme, as the route tests it. *)
Definition httpsUrl (icalUrl : jsstring) : Prop :=
  exists rest, icalUrl = lit "https://" ++ rest.

(** The entry of [syncStatus] for one property. *)
Definition statusOf (p : jsstring * Entry.t) : SyncStatus :=
  {| statusPropertyId := fst p;
     statusName := Entry.name (snd p);
     statusLastSynced := Entry.lastSynced (snd p);
     reservationCount := Z.of_nat (length (Entry.reservations (snd p))) |}.

(* ------------------------------------------------------------------ *)
(** ** Sample inputs *)

Module Sample.

Definition vevent (summary : jsstring) (start end_ : Z)
  (uid : option jsstring) : Event.t :=
  {| Event.type := lit "VEVENT";
     Event.summary := Some summary;
     Event.description := None;
     Event.start := Some (Instant start);
     Event.end_ := Some (Instant end_);
     Event.uid := uid |}.

Definition url : jsstring := lit "https://example.com/calendar.ics".

(** A world in which every fetch resolves to [events]. *)
Definition serving (events : Feed) (t : Z) : World :=
  {| fromURL := fun _ => Normal events; now := t |}.

(** A world in which every fetch is rejected with [message]. *)
Definition failing (message : jsstring) (t : Z) : World :=
  {| fromURL := fun _ => Throw message; now := t |}.

(** 2024-03-01T00:00:00Z and the two days after it. *)
Definition mar1 : Z := 1709251200000.
Definition mar2 : Z := mar1 + msPerDay.
Definition mar3 : Z := mar2 + msPerDay.

(** An event that starts and ends at the same instant. *)
Definition sameDayFeed : Feed :=
  [(lit "abc", vevent (lit "Reserved - Jane Doe") mar1 mar1 (Some (lit "abc")))].


Definition blocked : Event.t :=
  vevent (lit "Airbnb (Not available)") mar1 mar3 (Some (lit "b1")).

Definition booked : Event.t :=
  vevent (lit "Reserved - Airbnb (HM1234)") mar1 mar3 (Some (lit "r1")).

(** The reservation [parseIcal] pushes for [booked] under property "1". *)
Definition bookedReservation : Reservation.t :=
  {| Reservation.id := lit "r1";
     Reservation.propertyId := lit "1";
     Reservation.guestName := lit "Airbnb (HM1234)";
     Reservation.checkIn := lit "2024-03-01";
     Reservation.checkOut := lit "2024-03-03";
     Reservation.nights := Num 2;
     Reservation.total := Num 0;
     Reservation.source := lit "airbnb";
     Reservation.summary := lit "Reserved - Airbnb (HM1234)" |}.

Definition bookedFeed : Feed := [(lit "r1", booked)].

(** Two events without uid that start at the same instant. *)
Definition twinFeed : Feed :=
  [(lit "k1", vevent (lit "Reserved - Ann") mar1 mar2 None);
   (lit "k2", vevent (lit "Reserved - Bob") mar1 mar3 None)].

(** A cache with one property, synced before. *)
Definition beach : Entry.t :=
  {| Entry.icalUrl := url;
     Entry.name := lit "Beach house";
     Entry.reservations := [bookedReservation];
     Entry.lastSynced := Some (isoString mar1) |}.

Definition cache1 : Cache := [(lit "1", beach)].

(** A cache with two properties. *)
Definition cabin : Entry.t :=
  {| Entry.icalUrl := lit "https://example.com/cabin.ics";
     Entry.name := lit "Cabin";
     Entry.reservations := [];
     Entry.lastSynced := None |}.

Definition cache2 : Cache := [(lit "1", beach); (lit "cabin", cabin)].

(** The fetch of the first property fails, the other one succeeds. *)
Definition mixedWorld (propertyId : jsstring) : World :=
  if eqb propertyId (lit "1") then failing (lit "ETIMEDOUT") mar2
  else serving bookedFeed mar2.

Definition reregister : RegisterRequest :=
  {| reqPropertyId := Some (lit "1");
     reqName := Some (lit "Beach house");
     reqIcalUrl := Some (lit "https://example.com/moved.ics") |}.

Definition insecure : RegisterRequest :=
  {| reqPropertyId := Some (lit "2");
     reqName := None;
     reqIcalUrl := Some (lit "http://example.com/calendar.ics") |}.

End Sample.

(* ------------------------------------------------------------------ *)
(** ** The other routes *)

(** [delete o[k]]: the property goes, the others keep their order. *)
Fixpoint deleteKey {V : Type} (k : jsstring) (o : JsObject.t V)
  : JsObject.t V :=
  match o with
  | [] => []
  | (k', v) :: o' => if eqb k' k then o' else (k', v) :: deleteKey k o'
  end.

(** The names every object inherits from [Object.prototype]; reading one
    of them on [propertyCache] gives a function (or, for [__proto__], the
    prototype), which is truthy. *)
Definition prototypeNames : list jsstring :=
  [lit "constructor"; lit "hasOwnProperty"; lit "isPrototypeOf";
   lit "propertyIsEnumerable"; lit "toLocaleString"; lit "toString";
   lit "valueOf"; lit "__proto__"; lit "__defineGetter__";
   lit "__defineSetter__"; lit "__lookupGetter__"; lit "__lookupSetter__"].

Definition inheritedName (k : jsstring) : bool :=
  existsb (eqb k) prototypeNames.

(** The bodies of the answers of the routes below. *)
Inductive Reply : Type :=
| SyncReply (success : bool) (syncStatus : list SyncStatus)
| MessageReply (success : bool) (message : jsstring)
| ErrorReply (error : jsstring)
| PropertiesReply (properties : list SyncStatus).

Record Answer : Type := {
  code : Z;
  reply : Reply
}.

(** [Object.entries(propertyCache).map(([pid, entry]) => ({...}))] *)
Definition statusList (cache : Cache) : list SyncStatus :=
  map (fun p : jsstring * Entry.t =>
         let (pid, entry) := p in
         {| statusPropertyId := pid;
            statusName := Entry.name entry;
            statusLastSynced := Entry.lastSynced entry;
            reservationCount :=
              Z.of_nat (length (Entry.reservations entry)) |})
      cache.



(** [app.delete("/properties/:propertyId", ...)]: the test reads
    [propertyCache[propertyId]], which is truthy for an entry of the
    cache and for an inherited name. *)
Definition deleteProperties (propertyId : jsstring) (cache : Cache)
  : Cache * Answer :=
  if match JsObject.get propertyId cache with
     | Some _ => true
     | None => inheritedName propertyId
     end
  then
    (deleteKey propertyId cache,
     {| code := 200;
        reply := MessageReply true
                   (lit "Property " ++ propertyId ++ lit " removed") |})
  else
    (cache, {| code := 404; reply := ErrorReply (lit "Property not found") |}).

(** [app.get("/properties", ...)] *)
Definition getProperties (cache : Cache) : Answer :=
  {| code := 200; reply := PropertiesReply (statusList cache) |}.

(** The assignment [propertyCache[k] = v] creates or overwrites the
    property [k] for every key but [__proto__], for which it replaces the
    prototype of the object instead; the list of properties models the
    cache for the keys that are stored. *)
Definition storable (propertyId : jsstring) : Prop :=
  propertyId <> lit "__proto__".

(** A registration that passes both guards of [POST /properties]. *)
Definition validRequest (req : RegisterRequest) (propertyId icalUrl : jsstring)
  : Prop :=
  reqPropertyId req = Some propertyId /\ propertyId <> [] /\
  reqIcalUrl req = Some icalUrl /\ httpsUrl icalUrl.

(** A time of day: the milliseconds since midnight (UTC) of an instant,
    and the number of its day. *)
Definition timeOfDay (t : Z) : Z := t mod msPerDay.
Definition dayNumber (t : Z) : Z := t / msPerDay.

(** The sum of the counts of a status list. *)
Definition totalCount (l : list SyncStatus) : Z :=
  fold_right (fun st n => reservationCount st + n) 0 l.

(** More sample inputs. *)
Module Sample2.

Definition register2 : RegisterRequest :=
  {| reqPropertyId := Some (lit "2");
     reqName := None;
     reqIcalUrl := Some Sample.url |}.

(** The cache after [register2] succeeds on [Sample.cache1] at
    [Sample.mar2], with the feed [Sample.bookedFeed]. *)
Definition reservation2 : Reservation.t :=
  {| Reservation.id := lit "r1";
     Reservation.propertyId := lit "2";
     Reservation.guestName := lit "Airbnb (HM1234)";
     Reservation.checkIn := lit "2024-03-01";
     Reservation.checkOut := lit "2024-03-03";
     Reservation.nights := Num 2;
     Reservation.total := Num 0;
     Reservation.source := lit "airbnb";
     Reservation.summary := lit "Reserved - Airbnb (HM1234)" |}.

Definition world2 : World := Sample.serving Sample.bookedFeed Sample.mar2.

Definition down : World := Sample.failing (lit "ETIMEDOUT") Sample.mar2.

End Sample2.

(** The instants whose year has four digits in the ISO text: from
    0000-01-01T00:00:00.000Z to 9999-12-31T23:59:59.999Z. *)
Definition fourDigitYear (t : Z) : Prop :=
  -62167219200000 <= t <= 253402300799999.

(** The time values a Date can hold. *)
Definition dateRange (t : Z) : Prop :=
  -8640000000000000 <= t <= 8640000000000000.

(** A calendar date as ten code units, YYYY-MM-DD. *)
Definition dateText (y m d : Z) : jsstring :=
  digits 4 y ++ [45] ++ digits 2 m ++ [45] ++ digits 2 d.

(* ------------------------------------------------------------------ *)
(** ** The captured text, read off the two patterns *)

(** The units of [s] up to its first line terminator. *)
Fixpoint lineOf (s : jsstring) : jsstring :=
  match s with
  | [] => []
  | c :: s' => if dot c then c :: lineOf s' else []
  end.

(** The last unit of [s] that is not a line terminator. *)
Fixpoint lastOnLine (s : jsstring) : option Z :=
  match s with
  | [] => None
  | c :: s' =>
      match lastOnLine s' with
      | Some x => Some x
      | None => if dot c then Some c else None
      end
  end.

(** The trailing text of [u], what follows a separator or a label: the
    white space at the head of [u] is passed over and the text runs to
    the end of its line; when white space is all there is, the text is
    the last unit of it that is not a line terminator; there is none
    when [u] is empty or holds line terminators only. *)
Definition trailingText (u : jsstring) : option jsstring :=
  match trimStart u with
  | c :: u' => Some (lineOf (c :: u'))
  | [] =>
      match lastOnLine u with
      | Some c => Some [c]
      | None => None
      end
  end.

(** [s] after the word [w] at its head, letters in either case. *)
Fixpoint stripWord (w s : jsstring) : option jsstring :=
  match w, s with
  | [], _ => Some s
  | _ :: _, [] => None
  | x :: w', c :: s' => if ci x c then stripWord w' s' else None
  end.

(** The trailing text when [s] begins with "reserved", optional white
    space and a hyphen or an en-dash. *)
Definition reservedAt (s : jsstring) : option jsstring :=
  match stripWord (lit "reserved") s with
  | Some rest =>
      match trimStart rest with
      | c :: u => if separator c then trailingText u else None
      | [] => None
      end
  | None => None
  end.

(** The trailing text when [s] begins with "guest:" or "name:". *)
Definition labelAt (s : jsstring) : option jsstring :=
  match
    match stripWord (lit "guest") s with
    | Some rest => Some rest
    | None => stripWord (lit "name") s
    end
  with
  | Some (c :: u) => if c =? 58 then trailingText u else None
  | _ => None
  end.

(** The first place of [s], from the left, where [found] gives a text. *)
Fixpoint firstMatch (found : jsstring -> option jsstring) (s : jsstring)
  : option jsstring :=
  match found s with
  | Some t => Some t
  | None =>
      match s with
      | [] => None
      | _ :: s' => firstMatch found s'
      end
  end.

Definition reservedCapture (summary : jsstring) : option jsstring :=
  firstMatch reservedAt summary.

Definition labelCapture (description : jsstring) : option jsstring :=
  firstMatch labelAt description.

(** The guest name, in the order of the specification: the trailing
    text of the summary, else that of the description, else the
    fallback. *)
Definition guestNameOf (summary : jsstring) (description : decoded)
  : jsstring :=
  match reservedCapture summary with
  | Some t => trim t
  | None =>
      match description with
      | Plain d =>
          match labelCapture d with
          | Some t => trim t
          | None => fallbackGuest
          end
      | _ => fallbackGuest
      end
  end.

(* ------------------------------------------------------------------ *)
(** ** Decoded entries, sorted by what the loop does with them *)

Definition isObject (v : decoded) : bool :=
  match v with
  | WithParams _ => true
  | _ => false
  end.

(** The text of a summary that is a string; the empty string stands for
    an absent one. *)
Definition plainText (v : decoded) : jsstring :=
  match v with
  | Plain s => s
  | _ => []
  end.

Definition invalidDate (d : option Date) : bool :=
  match d with
  | Some InvalidDate => true
  | _ => false
  end.

(** The entry gets as far as the guest name: a VEVENT with a summary
    that is no object and no blackout, and with both dates. *)
Definition reachesGuest (e : Decoded.t) : bool :=
  eqb (Decoded.type e) (lit "VEVENT") &&
  negb (isObject (Decoded.summary e)) &&
  negb (isBlocked (plainText (Decoded.summary e))) &&
  match Decoded.start e, Decoded.end_ e with
  | Some _, Some _ => true
  | _, _ => false
  end.

(** The loop throws on the entry: a VEVENT whose summary is an object,
    or one that gets as far as the guest name and then has to read a
    description that is an object, or has an invalid date. *)
Definition faulty (e : Decoded.t) : bool :=
  eqb (Decoded.type e) (lit "VEVENT") && isObject (Decoded.summary e) ||
  reachesGuest e &&
    (match reservedCapture (plainText (Decoded.summary e)) with
     | Some _ => false
     | None => isObject (Decoded.description e)
     end ||
     invalidDate (Decoded.start e) || invalidDate (Decoded.end_ e)).

(** The entry is pushed as a reservation. *)
Definition pushed (e : Decoded.t) : bool := reachesGuest e && negb (faulty e).

Definition pushedOf (events : DecodedFeed) : list Decoded.t :=
  filter pushed (map snd events).

Definition producesDecoded (propertyId : jsstring) (e : Decoded.t)
  (r : Reservation.t) : Prop :=
  processDecoded propertyId e = Normal (Some r).

(** The span of a stay for which the quotient the code computes in
    floating point is the exact one: less than 2^26 days. *)
Definition exactSpan (a b : Z) : Prop :=
  Z.abs (b - a) < 67108864 * msPerDay.

(** The reservation [r] is the one of the entry [e], field by field:
    the id is the uid of the entry when it has one that is not empty,
    and else the property id, a hyphen and the ISO text of the start;
    the dates are the date parts of the two instants; the night count is
    stated for a stay of less than 2^26 days. *)
Definition madeFrom (propertyId : jsstring) (e : Decoded.t)
  (r : Reservation.t) : Prop :=
  exists a b,
    Decoded.start e = Some (Instant a) /\
    Decoded.end_ e = Some (Instant b) /\
    ((exists u, Decoded.uid e = Some u /\ u <> [] /\ Reservation.id r = u) \/
     (missing (Decoded.uid e) /\
      Reservation.id r = propertyId ++ lit "-" ++ isoString a)) /\
    Reservation.propertyId r = propertyId /\
    Reservation.guestName r =
      guestNameOf (plainText (Decoded.summary e)) (Decoded.description e) /\
    Reservation.checkIn r = splitHead 84 (isoString a) /\
    Reservation.checkOut r = splitHead 84 (isoString b) /\
    Reservation.total r = Num 0 /\
    Reservation.source r = lit "airbnb" /\
    Reservation.summary r = plainText (Decoded.summary e) /\
    (exactSpan a b ->
     Reservation.nights r = Num ((2 * (b - a) + msPerDay) / (2 * msPerDay))).

(** A feed without objects, among the decoded ones. *)
Definition decodedFeedOf (events : Feed) : DecodedFeed :=
  map (fun p => (fst p, decodedOf (snd p))) events.


(** [registration] is lines 113 to 136 where the property id and the
    name are strings (the name may be absent). *)
Definition registersAs (w : World)
  (registration : jsval -> jsval -> jsstring -> Cache -> Cache * Response)
  : Prop :=
  forall pid nm url cache,
    registration (Text pid) (rawText nm) url cache =
      registerAndSync w pid nm url cache.

(** More sample inputs. *)
Module Sample3.

Definition janeDecoded : Decoded.t :=
  {| Decoded.type := lit "VEVENT";
     Decoded.summary := Plain (lit "Reserved - Jane Doe");
     Decoded.description := WithParams (lit "Guest: Somebody Else");
     Decoded.start := Some (Instant Sample.mar1);
     Decoded.end_ := Some (Instant Sample.mar3);
     Decoded.uid := Some (lit "u1") |}.

Definition annDecoded : Decoded.t :=
  {| Decoded.type := lit "VEVENT";
     Decoded.summary := Absent;
     Decoded.description := Plain (lit "Phone: 1" ++ [10] ++ lit "Guest:  Ann Lee ");
     Decoded.start := Some (Instant Sample.mar2);
     Decoded.end_ := Some (Instant Sample.mar3);
     Decoded.uid := None |}.

Definition jane : Reservation.t :=
  {| Reservation.id := lit "u1";
     Reservation.propertyId := lit "1";
     Reservation.guestName := lit "Jane Doe";
     Reservation.checkIn := lit "2024-03-01";
     Reservation.checkOut := lit "2024-03-03";
     Reservation.nights := Num 2;
     Reservation.total := Num 0;
     Reservation.source := lit "airbnb";
     Reservation.summary := lit "Reserved - Jane Doe" |}.

Definition ann : Reservation.t :=
  {| Reservation.id := lit "1-2024-03-02T00:00:00.000Z";
     Reservation.propertyId := lit "1";
     Reservation.guestName := lit "Ann Lee";
     Reservation.checkIn := lit "2024-03-02";
     Reservation.checkOut := lit "2024-03-03";
     Reservation.nights := Num 1;
     Reservation.total := Num 0;
     Reservation.source := lit "airbnb";
     Reservation.summary := [] |}.

(** A time zone entry, a blackout and the two bookings. *)
Definition feed : DecodedFeed :=
  [(lit "tz", {| Decoded.type := lit "VTIMEZONE";
                 Decoded.summary := WithParams (lit "x");
                 Decoded.description := Absent;
                 Decoded.start := None; Decoded.end_ := None;
                 Decoded.uid := None |});
   (lit "u1", janeDecoded);
   (lit "b1", decodedOf Sample.blocked);
   (lit "k2", annDecoded)].

(** A VEVENT whose summary line carries a parameter. *)
Definition withLanguage : Decoded.t :=
  {| Decoded.type := lit "VEVENT";
     Decoded.summary := WithParams (lit "Reserved - Jane Doe");
     Decoded.description := Absent;
     Decoded.start := Some (Instant Sample.mar1);
     Decoded.end_ := Some (Instant Sample.mar3);
     Decoded.uid := Some (lit "u9") |}.

Definition serving (events : DecodedFeed) : jsstring -> completion DecodedFeed :=
  fun _ => Normal events.

Definition failing (message : jsstring) : jsstring -> completion DecodedFeed :=
  fun _ => Throw message.

(** A body whose icalUrl is the number 123. *)
Definition numericUrl : RawBody :=
  {| rawPropertyId := Text (lit "2");
     rawName := Undefined;
     rawIcalUrl := NotText true |}.


(** An instance of [registersAs]: lines 113 to 136 on a property id and
    a name that are strings or absent. *)
Definition registration (w : World)
  : jsval -> jsval -> jsstring -> Cache -> Cache * Response :=
  fun propertyId name icalUrl cache =>
    registerAndSync w
      (match propertyId with Text s => s | _ => [] end)
      (match name with Text s => Some s | _ => None end)
      icalUrl cache.

End Sample3.

(* ================================================================== *)
(** * Properties *)

(* ------------------------------------------------------------------ *)
(** ** Strings *)

Section StringFacts.

Lemma startsWith_spec (p s : jsstring) :
  startsWith p s = true <-> exists rest, s = p ++ rest.
Proof.
  revert s; induction p as [|a p IH]; intros s; simpl.
  - split; [intros _; now exists s | reflexivity].
  - destruct s as [|b s].
    + split; [discriminate | intros [rest H]; discriminate].
    + rewrite andb_true_iff, Z.eqb_eq, IH. split.
      * intros [-> [rest ->]]. now exists rest.
      * intros [rest H]. injection H as -> ->. split; [reflexivity | now exists rest].
Qed.

Lemma includes_spec (p s : jsstring) :
  includes p s = true <-> exists pre post, s = pre ++ p ++ post.
Proof.
  induction s as [|c s IH]; simpl.
  - rewrite orb_false_r, startsWith_spec. split.
    + intros [rest H]. now exists [], rest.
    + intros [pre [post H]]. destruct pre; [now exists post | discriminate].
  - rewrite orb_true_iff, startsWith_spec, IH. split.
    + intros [[rest H] | [pre [post H]]].
      * now exists [], rest.
      * exists (c :: pre), post. simpl. now rewrite H.
    + intros [pre [post H]]. destruct pre as [|c' pre]; simpl in H.
      * left. now exists post.
      * right. injection H as _ H. now exists pre, post.
Qed.

Lemma trimStart_nil (s : jsstring) :
  trimStart s = [] <-> forallb isSpace s = true.
Proof.
  induction s as [|c s IH]; simpl.
  - tauto.
  - destruct (isSpace c); simpl; [exact IH | split; discriminate].
Qed.

Lemma trimStart_spaces (s : jsstring) :
  forallb isSpace (trimStart s) = true -> forallb isSpace s = true.
Proof.
  induction s as [|c s IH]; simpl; [trivial|].
  destruct (isSpace c) eqn:E; simpl; [exact IH | now rewrite E].
Qed.

Lemma forallb_rev {A} (f : A -> bool) (l : list A) :
  forallb f (rev l) = forallb f l.
Proof.
  induction l as [|x l IH]; simpl; [reflexivity|].
  rewrite forallb_app, IH. simpl. rewrite andb_true_r. apply andb_comm.
Qed.

(** [trim] gives the empty string exactly on white space. *)
Lemma trim_nil (s : jsstring) :
  trim s = [] <-> forallb isSpace s = true.
Proof.
  unfold trim, trimEnd. split.
  - intros H. apply trimStart_spaces.
    assert (H1 : trimStart (rev (trimStart s)) = []).
    { apply (f_equal (@rev Z)) in H. now rewrite rev_involutive in H. }
    apply trimStart_nil in H1. now rewrite forallb_rev in H1.
  - intros H. apply trimStart_nil in H. now rewrite H.
Qed.

Lemma ci_lower (x c : Z) :
  isLowerAscii x = true -> (ci x c = true <-> lowerUnit c = x).
Proof.
  unfold ci, upperUnit, lowerUnit, isLowerAscii, isUpperAscii. intros Hx.
  rewrite Hx. apply andb_true_iff in Hx as [H1 H2].
  apply Z.leb_le in H1, H2. rewrite Z.eqb_eq.
  destruct (97 <=? c) eqn:A, (c <=? 122) eqn:B,
           (65 <=? c) eqn:C, (c <=? 90) eqn:D; simpl;
    rewrite ?Z.leb_le, ?Z.leb_gt in *; lia.
Qed.

Lemma ci_exact (x c : Z) :
  isLowerAscii x = false -> isUpperAscii x = false ->
  (ci x c = true <-> c = x).
Proof.
  unfold ci, upperUnit, isLowerAscii, isUpperAscii. intros Hx Hy.
  rewrite Hx. rewrite Z.eqb_eq.
  apply andb_false_iff in Hx, Hy.
  destruct (97 <=? c) eqn:A, (c <=? 122) eqn:B; simpl;
    rewrite ?Z.leb_le, ?Z.leb_gt in *; lia.
Qed.

End StringFacts.

(* ------------------------------------------------------------------ *)
(** ** The matcher decides [matches] *)

Section RegexFacts.

Lemma star_sound p s cap k res :
  star p s cap k = Some res ->
  exists a s', s = a ++ s' /\ forallb p a = true /\ k s' cap = Some res.
Proof.
  induction s as [|c s IH]; simpl; intros H.
  - now exists [], [].
  - destruct (p c) eqn:Hp.
    + destruct (star p s cap k) eqn:Hs.
      * injection H as <-. destruct (IH eq_refl) as (a & s' & -> & Ha & Hk).
        exists (c :: a), s'. simpl. now rewrite Hp, Ha.
      * now exists [], (c :: s).
    + now exists [], (c :: s).
Qed.

Lemma star_complete p a s' cap k :
  forallb p a = true -> k s' cap <> None -> star p (a ++ s') cap k <> None.
Proof.
  induction a as [|c a IH]; simpl; intros Ha Hk.
  - destruct s' as [|c s]; simpl; [exact Hk|].
    destruct (p c); [|exact Hk].
    destruct (star p s cap k); [discriminate | exact Hk].
  - apply andb_true_iff in Ha as [Hc Ha]. rewrite Hc.
    specialize (IH Ha Hk). destruct (star p (a ++ s') cap k);
      [discriminate | contradiction].
Qed.

Lemma firstn_consumed (a s' : jsstring) :
  firstn (length (a ++ s') - length s') (a ++ s') = a.
Proof.
  rewrite length_app, Nat.add_sub.
  rewrite firstn_app, Nat.sub_diag, firstn_all. simpl. apply app_nil_r.
Qed.

Lemma run_sound r : forall s cap k res,
  run r s cap k = Some res ->
  exists a s' cap', s = a ++ s' /\ matches r a cap cap' /\ k s' cap' = Some res.
Proof.
  induction r as [p|p| |r1 IH1 r2 IH2|r1 IH1 r2 IH2|r IH];
    simpl; intros s cap k res H.
  - destruct s as [|c s]; [discriminate|].
    destruct (p c) eqn:Hp; [|discriminate].
    exists [c], s, cap. repeat split; [now constructor | assumption].
  - destruct (star_sound _ _ _ _ _ H) as (a & s' & -> & Ha & Hk).
    exists a, s', cap. repeat split; [now constructor | assumption].
  - exists [], s, cap. repeat split; [constructor | assumption].
  - destruct (IH1 _ _ _ _ H) as (a & s1 & c1 & -> & Ma & H1).
    destruct (IH2 _ _ _ _ H1) as (b & s2 & c2 & -> & Mb & H2).
    exists (a ++ b), s2, c2. rewrite app_assoc.
    repeat split; [econstructor; eassumption | assumption].
  - destruct (run r1 s cap k) eqn:E1.
    + injection H as <-. destruct (IH1 _ _ _ _ E1) as (a & s' & c' & -> & M & Hk).
      exists a, s', c'. repeat split; [now apply MAltL | assumption].
    + destruct (IH2 _ _ _ _ H) as (a & s' & c' & -> & M & Hk).
      exists a, s', c'. repeat split; [now apply MAltR | assumption].
  - destruct (IH _ _ _ _ H) as (a & s' & c' & -> & M & Hk).
    rewrite firstn_consumed in Hk.
    exists a, s', (Some a). repeat split; [econstructor; eassumption | assumption].
Qed.

Lemma run_complete r a c0 c1 :
  matches r a c0 c1 ->
  forall cap s' k, (forall c, k s' c <> None) -> run r (a ++ s') cap k <> None.
Proof.
  induction 1 as [p c c0 Hp|p a c0 Ha|c0|r1 r2 a b c0 c1 c2 _ IH1 _ IH2
                 |r1 r2 a c0 c1 _ IH|r1 r2 a c0 c1 _ IH|r a c0 c1 _ IH];
    intros cap s' k Hk; simpl.
  - rewrite Hp. apply Hk.
  - apply star_complete; [assumption | apply Hk].
  - apply Hk.
  - rewrite <- app_assoc. apply IH1. intros c. now apply IH2.
  - specialize (IH cap s' k Hk). destruct (run r1 (a ++ s') cap k);
      [discriminate | contradiction].
  - destruct (run r1 (a ++ s') cap k); [discriminate | now apply IH].
  - apply IH. intros c. apply Hk.
Qed.

Lemma exec_sound r s cap :
  exec r s = Some cap ->
  exists pre a post, s = pre ++ a ++ post /\ matches r a None cap.
Proof.
  induction s as [|c s IH]; simpl; intros H.
  - destruct (run r [] None accept) eqn:E; [|discriminate].
    destruct (run_sound _ _ _ _ _ E) as (a & s' & c' & Hs & M & Hk).
    unfold accept in Hk. exists [], a, s'. split; [exact Hs | congruence].
  - destruct (run r (c :: s) None accept) eqn:E.
    + destruct (run_sound _ _ _ _ _ E) as (a & s' & c' & Hs & M & Hk).
      unfold accept in Hk. exists [], a, s'. split; [exact Hs | congruence].
    + destruct (IH H) as (pre & a & post & -> & M).
      now exists (c :: pre), a, post.
Qed.

Lemma exec_complete r pre a post cap :
  matches r a None cap -> exec r (pre ++ a ++ post) <> None.
Proof.
  intros M. induction pre as [|c pre IH]; simpl.
  - assert (H : run r (a ++ post) None accept <> None)
      by (eapply run_complete; [eassumption | discriminate]).
    destruct (a ++ post); simpl;
      destruct (run r _ None accept); try discriminate; contradiction.
  - destruct (run r (c :: pre ++ a ++ post) None accept);
      [discriminate | exact IH].
Qed.

Lemma matches_word w : forall a c0 c1,
  matches (word w) a c0 c1 <-> c1 = c0 /\ map upperUnit a = map upperUnit w.
Proof.
  induction w as [|x w IH]; intros a c0 c1; simpl.
  - split.
    + intros M. inversion M; subst. now split.
    + intros [-> H]. apply map_eq_nil in H. subst. constructor.
  - split.
    + intros M. inversion M as [| | |r1 r2 a1 b1 d0 d1 d2 M1 M2| | |]; subst.
      inversion M1; subst. apply IH in M2 as [-> H2].
      split; [reflexivity|]. simpl. f_equal; [|exact H2].
      unfold ci in *. now apply Z.eqb_eq.
    + intros [-> H]. destruct a as [|c a]; [discriminate|].
      simpl in H. injection H as Hc Ha.
      change (c :: a) with ([c] ++ a). econstructor.
      * constructor. unfold ci. now apply Z.eqb_eq.
      * apply IH. now split.
Qed.

Lemma upper_lower_word w : forallb isLowerAscii w = true ->
  forall a, map upperUnit a = map upperUnit w <-> toLowerCase a = w.
Proof.
  unfold toLowerCase.
  induction w as [|x w IH]; simpl; intros Hw a.
  - split; intros H; apply map_eq_nil in H; now subst.
  - apply andb_true_iff in Hw as [Hx Hw].
    destruct a as [|c a]; simpl; [split; discriminate|].
    specialize (IH Hw a). pose proof (ci_lower x c Hx) as Hc.
    unfold ci in Hc. rewrite Z.eqb_eq in Hc. split; intros H;
      injection H as H1 H2; f_equal; tauto.
Qed.

End RegexFacts.

(* ------------------------------------------------------------------ *)
(** ** The two patterns of [parseIcal] *)

Section PatternFacts.

Ltac inv_matches :=
  repeat match goal with
  | H : matches (RSeq _ _) _ _ _ |- _ => inversion H; clear H; subst
  | H : matches (RChar _) _ _ _ |- _ => inversion H; clear H; subst
  | H : matches (RStar _) _ _ _ |- _ => inversion H; clear H; subst
  | H : matches (RGroup _) _ _ _ |- _ => inversion H; clear H; subst
  | H : matches (RPlus _) _ _ _ |- _ => unfold RPlus in H
  end.

Lemma separator_spec c : separator c = true <-> c = 45 \/ c = 8211.
Proof.
  unfold separator. rewrite orb_true_iff.
  rewrite (ci_exact 45), (ci_exact 8211) by reflexivity. reflexivity.
Qed.

Lemma colon_spec c : ci 58 c = true <-> c = 58.
Proof. now apply ci_exact. Qed.

Lemma matches_plus_dot g c0 c1 :
  matches (RPlus dot) g c0 c1 <-> c1 = c0 /\ lineText g.
Proof.
  unfold lineText. split.
  - intros M. inv_matches. simpl.
    repeat split; [discriminate | now apply andb_true_iff].
  - intros (-> & Hg & Hd). destruct g as [|c g]; [contradiction|].
    simpl in Hd. apply andb_true_iff in Hd as [Hc Hd].
    change (c :: g) with ([c] ++ g). unfold RPlus.
    econstructor; now constructor.
Qed.

Lemma matches_tail sepc a c0 c1 :
  matches (RSeq (RChar sepc) (RSeq (RStar space) (RGroup (RPlus dot)))) a c0 c1
  <-> exists c w g, a = [c] ++ w ++ g /\ sepc c = true /\
        forallb isSpace w = true /\ lineText g /\ c1 = Some g.
Proof.
  split.
  - intros M.
    inversion M as [| | |? ? a1 b1 ? ? ? M1 M2| | |]; clear M; subst.
    inversion M1; clear M1; subst.
    inversion M2 as [| | |? ? a2 b2 ? ? ? M3 M4| | |]; clear M2; subst.
    inversion M3; clear M3; subst.
    inversion M4 as [| | | | | |? ? ? ? M5]; clear M4; subst.
    apply matches_plus_dot in M5 as [_ Hg].
    now exists c, a2, b2.
  - intros (c & w & g & -> & Hc & Hw & Hg & ->).
    econstructor; [now constructor|].
    econstructor; [now constructor|].
    econstructor. apply matches_plus_dot. split; [reflexivity | exact Hg].
Qed.

Lemma matches_reservedRe a c0 c1 :
  matches reservedRe a c0 c1 <->
  exists R w1 c w2 g,
    a = R ++ w1 ++ [c] ++ w2 ++ g /\ toLowerCase R = lit "reserved" /\
    forallb isSpace w1 = true /\ (c = 45 \/ c = 8211) /\
    forallb isSpace w2 = true /\ lineText g /\ c1 = Some g.
Proof.
  unfold reservedRe. split.
  - intros M.
    inversion M as [| | |? ? R b1 ? ? ? M1 M2| | |]; clear M; subst.
    apply (matches_word (lit "reserved")) in M1 as [-> HR].
    apply upper_lower_word in HR; [|reflexivity].
    inversion M2 as [| | |? ? w1 b2 ? ? ? M3 M4| | |]; clear M2; subst.
    inversion M3; clear M3; subst.
    apply matches_tail in M4 as (c & w2 & g & -> & Hc & Hw & Hg & ->).
    apply separator_spec in Hc.
    now exists R, w1, c, w2, g.
  - intros (R & w1 & c & w2 & g & -> & HR & H1 & Hc & H2 & Hg & ->).
    econstructor.
    + apply matches_word. split; [reflexivity|].
      apply upper_lower_word; [reflexivity | exact HR].
    + econstructor; [now constructor|].
      apply matches_tail. exists c, w2, g.
      repeat split; try assumption; [now apply separator_spec | apply Hg | apply Hg].
Qed.

Lemma matches_descRe a c0 c1 :
  matches descRe a c0 c1 <->
  exists L w g,
    a = L ++ [58] ++ w ++ g /\
    (toLowerCase L = lit "guest" \/ toLowerCase L = lit "name") /\
    forallb isSpace w = true /\ lineText g /\ c1 = Some g.
Proof.
  unfold descRe. split.
  - intros M.
    inversion M as [| | |? ? L b1 ? ? ? M1 M2| | |]; clear M; subst.
    apply matches_tail in M2 as (c & w & g & -> & Hc & Hw & Hg & ->).
    apply colon_spec in Hc. subst c.
    exists L, w, g. repeat split; try assumption; try apply Hg.
    inversion M1 as [| | | |? ? ? ? ? M3|? ? ? ? ? M3|]; clear M1; subst.
    + apply (matches_word (lit "guest")) in M3 as [_ HL].
      apply upper_lower_word in HL; [tauto | reflexivity].
    + apply (matches_word (lit "name")) in M3 as [_ HL].
      apply upper_lower_word in HL; [tauto | reflexivity].
  - intros (L & w & g & -> & HL & Hw & Hg & ->).
    econstructor.
    + destruct HL as [HL | HL]; [apply MAltL | apply MAltR];
        apply matches_word; (split; [reflexivity|]);
        apply upper_lower_word; try reflexivity; exact HL.
    + apply matches_tail. exists 58, w, g.
      repeat split; try assumption; apply Hg.
Qed.

(** A match of the first pattern always has its group, and the group is
    text that follows "reserved" and a separator. *)
Lemma exec_reservedRe_sound s cap :
  exec reservedRe s = Some cap -> exists g, cap = Some g /\ reservedText s g.
Proof.
  intros H. apply exec_sound in H as (pre & a & post & -> & M).
  apply matches_reservedRe in M
    as (R & w1 & c & w2 & g & -> & HR & H1 & Hc & H2 & Hg & ->).
  exists g. split; [reflexivity|].
  exists pre, R, w1, c, w2, post. repeat rewrite <- app_assoc.
  repeat split; try assumption; apply Hg.
Qed.

Lemma exec_reservedRe_complete s g :
  reservedText s g -> exec reservedRe s <> None.
Proof.
  intros (pre & R & w1 & c & w2 & post & -> & HR & H1 & Hc & H2 & Hg).
  replace (pre ++ R ++ w1 ++ [c] ++ w2 ++ g ++ post)
    with (pre ++ (R ++ w1 ++ [c] ++ w2 ++ g) ++ post)
    by (now repeat rewrite <- app_assoc).
  eapply exec_complete with (cap := Some g). apply matches_reservedRe.
  now exists R, w1, c, w2, g.
Qed.

Lemma exec_descRe_sound d cap :
  exec descRe d = Some cap -> exists g, cap = Some g /\ labelledText d g.
Proof.
  intros H. apply exec_sound in H as (pre & a & post & -> & M).
  apply matches_descRe in M as (L & w & g & -> & HL & Hw & Hg & ->).
  exists g. split; [reflexivity|].
  exists pre, L, w, post. repeat rewrite <- app_assoc.
  repeat split; try assumption; apply Hg.
Qed.

Lemma exec_descRe_complete d g :
  labelledText d g -> exec descRe d <> None.
Proof.
  intros (pre & L & w & post & -> & HL & Hw & Hg).
  replace (pre ++ L ++ [58] ++ w ++ g ++ post)
    with (pre ++ (L ++ [58] ++ w ++ g) ++ post)
    by (now repeat rewrite <- app_assoc).
  eapply exec_complete with (cap := Some g). apply matches_descRe.
  now exists L, w, g.
Qed.

End PatternFacts.

(* ------------------------------------------------------------------ *)
(** ** parseIcal, event by event *)

Section ParseFacts.

Lemma eqb_eq (a b : jsstring) : eqb a b = true <-> a = b.
Proof.
  unfold eqb. destruct (list_eq_dec Z.eq_dec a b); split;
    congruence || discriminate.
Qed.

Lemma eqb_refl (a : jsstring) : eqb a a = true.
Proof. now apply eqb_eq. Qed.

Lemma eqb_neq (a b : jsstring) : eqb a b = false <-> a <> b.
Proof.
  unfold eqb. destruct (list_eq_dec Z.eq_dec a b); split;
    congruence || discriminate.
Qed.

(** The extraction of the guest name never throws. *)
Lemma extractGuestName_normal summary description :
  exists g, extractGuestName summary description = Normal g.
Proof.
  unfold extractGuestName.
  destruct (exec reservedRe summary) as [cap|] eqn:E.
  - apply exec_reservedRe_sound in E as (g & -> & _). now exists (trim g).
  - destruct description as [d|]; [|now exists fallbackGuest].
    destruct (truthy d); [|now exists fallbackGuest].
    destruct (exec descRe d) as [cap|] eqn:E2; [|now exists fallbackGuest].
    apply exec_descRe_sound in E2 as (g & -> & _). now exists (trim g).
Qed.

Lemma processEvent_skip pid e :
  emits e = false -> processEvent pid e = Normal None.
Proof.
  unfold emits, processEvent. intros H.
  destruct (eqb (Event.type e) (lit "VEVENT")); simpl in *; [|reflexivity].
  destruct (isBlocked (orElse (Event.summary e) [])); simpl in *; [reflexivity|].
  destruct (Event.start e), (Event.end_ e); try reflexivity; discriminate.
Qed.

Lemma processEvent_inv pid e r :
  processEvent pid e = Normal (Some r) ->
  emits e = true /\
  exists a b g i,
    Event.start e = Some (Instant a) /\ Event.end_ e = Some (Instant b) /\
    extractGuestName (orElse (Event.summary e) []) (Event.description e)
      = Normal g /\
    reservationId (Event.uid e) pid (Instant a) = Normal i /\
    r = {| Reservation.id := i;
           Reservation.propertyId := pid;
           Reservation.guestName := g;
           Reservation.checkIn := splitHead 84 (isoString a);
           Reservation.checkOut := splitHead 84 (isoString b);
           Reservation.nights := Num ((2 * (b - a) + msPerDay) / (2 * msPerDay));
           Reservation.total := Num 0;
           Reservation.source := lit "airbnb";
           Reservation.summary := orElse (Event.summary e) [] |}.
Proof.
  unfold emits, processEvent. intros H.
  destruct (eqb (Event.type e) (lit "VEVENT")); simpl in *; [|discriminate].
  destruct (isBlocked (orElse (Event.summary e) [])); simpl in *; [discriminate|].
  destruct (Event.start e) as [ci|]; [|discriminate].
  destruct (Event.end_ e) as [co|]; [|discriminate].
  split; [reflexivity|].
  destruct (extractGuestName _ _) as [g|] eqn:G; simpl in H; [|discriminate].
  destruct (reservationId _ _ _) as [i|] eqn:I; simpl in H; [|discriminate].
  destruct ci as [a|]; simpl in H; [|discriminate].
  destruct co as [b|]; simpl in H; [|discriminate].
  injection H as <-. now exists a, b, g, i.
Qed.

Lemma reservationId_normal uid pid a :
  exists i, reservationId uid pid (Instant a) = Normal i.
Proof.
  unfold reservationId, synthesizedId. simpl.
  destruct uid as [u|]; [destruct (truthy u)|]; eauto.
Qed.

(** An event that reaches the [push] with two valid dates is pushed. *)
Lemma processEvent_emit pid e a b :
  emits e = true ->
  Event.start e = Some (Instant a) -> Event.end_ e = Some (Instant b) ->
  exists r, produces pid e r.
Proof.
  unfold emits, produces, processEvent. intros H Ha Hb.
  apply andb_true_iff in H as [H _]. apply andb_true_iff in H as [H1 H2].
  rewrite H1. apply negb_true_iff in H2. rewrite H2. simpl.
  rewrite Ha, Hb.
  destruct (extractGuestName_normal (orElse (Event.summary e) [])
              (Event.description e)) as [g ->].
  destruct (reservationId_normal (Event.uid e) pid a) as [i ->].
  simpl. eauto.
Qed.

(** An invalid date in such an event makes the turn throw. *)
Lemma processEvent_invalid pid e :
  emits e = true ->
  Event.start e = Some InvalidDate \/ Event.end_ e = Some InvalidDate ->
  processEvent pid e = Throw (lit "Invalid time value").
Proof.
  unfold emits, processEvent. intros H Hd.
  apply andb_true_iff in H as [H H3]. apply andb_true_iff in H as [H1 H2].
  rewrite H1. apply negb_true_iff in H2. rewrite H2. simpl.
  destruct (extractGuestName_normal (orElse (Event.summary e) [])
              (Event.description e)) as [g Hg].
  destruct (Event.start e) as [ci|]; [|discriminate].
  destruct (Event.end_ e) as [co|]; [|discriminate].
  rewrite Hg. simpl. unfold reservationId, synthesizedId.
  destruct Hd as [Hd | Hd]; injection Hd as ->.
  - simpl. destruct (Event.uid e) as [u|]; [destruct (truthy u)|]; reflexivity.
  - destruct ci as [a|]; simpl;
      (destruct (Event.uid e) as [u|]; [destruct (truthy u)|]); reflexivity.
Qed.

(** The loop pushes, in the order of the feed, one reservation for each
    event that reaches the [push]. *)
Lemma eventLoop_inv pid events : forall acc rs,
  eventLoop pid events acc = Normal rs ->
  exists rs', rs = acc ++ rs' /\ Forall2 (produces pid) (emitted events) rs'.
Proof.
  unfold emitted.
  induction events as [|[key e] rest IH]; simpl; intros acc rs H.
  - injection H as <-. exists []. rewrite app_nil_r. now split.
  - destruct (processEvent pid e) as [[r|]|] eqn:P; simpl in H; [| |discriminate].
    + destruct (IH _ _ H) as (rs' & -> & F).
      destruct (processEvent_inv _ _ _ P) as [-> _].
      exists (r :: rs'). rewrite <- app_assoc. split; [reflexivity|].
      now constructor.
    + destruct (IH _ _ H) as (rs' & -> & F).
      exists rs'. split; [reflexivity|].
      destruct (emits e) eqn:Em; [|exact F].
      exfalso. unfold emits in Em.
      apply andb_true_iff in Em as [Em E3]. apply andb_true_iff in Em as [E1 E2].
      unfold processEvent in P. rewrite E1 in P. apply negb_true_iff in E2.
      rewrite E2 in P. simpl in P.
      destruct (Event.start e) as [ci|]; [|discriminate].
      destruct (Event.end_ e) as [co|]; [|discriminate].
      destruct (extractGuestName _ _); simpl in P; [|discriminate].
      destruct (reservationId _ _ _); simpl in P; [|discriminate].
      destruct (toISOString ci); simpl in P; [|discriminate].
      destruct (toISOString co); simpl in P; discriminate.
Qed.

Lemma eventLoop_none pid events : forall acc,
  emitted events = [] -> eventLoop pid events acc = Normal acc.
Proof.
  unfold emitted.
  induction events as [|[key e] rest IH]; simpl; intros acc H; [reflexivity|].
  destruct (emits e) eqn:Em; [discriminate|].
  rewrite (processEvent_skip _ _ Em). simpl. now apply IH.
Qed.

Lemma parseIcal_returned w url pid nm rs :
  returned (parseIcal w url pid nm) = Some rs <->
  exists events, fromURL w url = Normal events /\
                 eventLoop pid events [] = Normal rs.
Proof.
  unfold parseIcal. destruct (fromURL w url) as [events|m]; simpl.
  - destruct (eventLoop pid events []) as [rs0|m] eqn:L; simpl; split.
    + intros H. injection H as <-. now exists events.
    + intros (ev & H1 & H2). injection H1 as <-. congruence.
    + discriminate.
    + intros (ev & H1 & H2). injection H1 as <-. congruence.
  - split; [discriminate | intros (ev & H & _); discriminate].
Qed.

Lemma parseIcal_produces w url pid nm events rs :
  fromURL w url = Normal events ->
  returned (parseIcal w url pid nm) = Some rs ->
  Forall2 (produces pid) (emitted events) rs.
Proof.
  intros Hf H. apply parseIcal_returned in H as (ev & H1 & H2).
  rewrite Hf in H1. injection H1 as <-.
  apply eventLoop_inv in H2 as (rs' & -> & F). exact F.
Qed.

End ParseFacts.

(* ------------------------------------------------------------------ *)
(** ** Classification and extraction *)

Section Classifier.

Lemma includes_lower needle s :
  includes needle (toLowerCase s) = true <-> containsCI needle s.
Proof.
  unfold containsCI, toLowerCase. rewrite includes_spec. split.
  - intros (pre & post & H).
    apply map_eq_app in H as (pre' & rest & -> & <- & H).
    apply map_eq_app in H as (m & post' & -> & <- & <-).
    now exists pre', m, post'.
  - intros (pre & m & post & -> & <-).
    exists (map lowerUnit pre), (map lowerUnit post).
    now rewrite !map_app.
Qed.

Lemma isBlocked_spec s : isBlocked s = true <-> Blackout s.
Proof.
  unfold isBlocked, Blackout.
  rewrite orb_true_iff, andb_true_iff, negb_true_iff, !includes_lower.
  rewrite <- (includes_lower (lit "reserved")).
  destruct (includes (lit "reserved") (toLowerCase s)); intuition congruence.
Qed.

End Classifier.

(** C2. An eligible event that carries both instants is skipped exactly
    when its summary, case ignored, contains "not available", or contains
    "airbnb" without containing "reserved"; "Airbnb (Not available)" is
    skipped, and "Reserved - Airbnb (HM1234)" gives a reservation whose
    guest name is "Airbnb (HM1234)". *)
Theorem blackout_classification pid e a b :
  Event.type e = lit "VEVENT" ->
  Event.start e = Some (Instant a) -> Event.end_ e = Some (Instant b) ->
  let summary := orElse (Event.summary e) [] in
  (isBlocked summary = true <-> Blackout summary) /\
  (processEvent pid e = Normal None <-> Blackout summary) /\
  (Event.summary e = Some (lit "Airbnb (Not available)") ->
   processEvent pid e = Normal None) /\
  (Event.summary e = Some (lit "Reserved - Airbnb (HM1234)") ->
   exists r, produces pid e r /\
             Reservation.guestName r = lit "Airbnb (HM1234)").
Proof.
  intros Ht Ha Hb summary.
  assert (Hsum : summary = orElse (Event.summary e) []) by reflexivity.
  clearbody summary.
  assert (Hem : emits e = negb (isBlocked summary)).
  { unfold emits. rewrite <- Hsum, Ht, eqb_refl, Ha, Hb. simpl.
    apply andb_true_r. }
  assert (Hskip : processEvent pid e = Normal None <-> isBlocked summary = true).
  { split.
    - intros H. destruct (isBlocked summary) eqn:B; [reflexivity|].
      assert (Em : emits e = true) by (rewrite Hem, ?B; reflexivity).
      destruct (processEvent_emit pid e a b Em Ha Hb) as [r Hr].
      unfold produces in Hr. congruence.
    - intros B. apply processEvent_skip. now rewrite Hem, B. }
  split; [apply isBlocked_spec|].
  split; [rewrite Hskip; apply isBlocked_spec|].
  split.
  - intros Hs. apply Hskip. rewrite Hsum, Hs. reflexivity.
  - intros Hs.
    assert (B : isBlocked summary = false)
      by (rewrite Hsum, Hs; reflexivity).
    assert (Em : emits e = true) by (rewrite Hem, ?B; reflexivity).
    destruct (processEvent_emit pid e a b Em Ha Hb) as [r Hr].
    exists r. split; [exact Hr|].
    apply processEvent_inv in Hr as (_ & a' & b' & g & i & _ & _ & G & _ & ->).
    simpl. rewrite Hs in G. unfold extractGuestName in G.
    replace (exec reservedRe (orElse (Some (lit "Reserved - Airbnb (HM1234)")) []))
      with (Some (Some (lit "Airbnb (HM1234)"))) in G
      by (vm_compute; reflexivity).
    injection G as <-. reflexivity.
Qed.

Lemma blackout_classification_witness :
  (processEvent (lit "1") Sample.blocked = Normal None <->
   Blackout (lit "Airbnb (Not available)")) /\
  exists r, produces (lit "1") Sample.booked r /\
            Reservation.guestName r = lit "Airbnb (HM1234)".
Proof.
  split.
  - apply (blackout_classification (lit "1") Sample.blocked Sample.mar1 Sample.mar3);
      reflexivity.
  - apply (blackout_classification (lit "1") Sample.booked Sample.mar1 Sample.mar3);
      reflexivity.
Defined.

Section GuestName.

Lemma extractGuestName_spec summary description g :
  extractGuestName summary description = Normal g ->
  (exists t, reservedText summary t /\ g = trim t) \/
  ((forall t, ~ reservedText summary t) /\
   exists d t, description = Some d /\ labelledText d t /\ g = trim t) \/
  ((forall t, ~ reservedText summary t) /\
   (forall d t, description = Some d -> ~ labelledText d t) /\
   g = fallbackGuest).
Proof.
  unfold extractGuestName. intros H.
  destruct (exec reservedRe summary) as [cap|] eqn:E.
  - left. apply exec_reservedRe_sound in E as (t & -> & Ht).
    injection H as <-. now exists t.
  - right.
    assert (No : forall t, ~ reservedText summary t).
    { intros t Ht. now apply exec_reservedRe_complete in Ht. }
    destruct description as [d|].
    + destruct (truthy d) eqn:T.
      * destruct (exec descRe d) as [cap|] eqn:E2.
        -- left. split; [exact No|].
           apply exec_descRe_sound in E2 as (t & -> & Ht).
           injection H as <-. now exists d, t.
        -- right. injection H as <-.
           split; [exact No|]. split; [|reflexivity].
           intros d' t Hd Ht. injection Hd as <-.
           now apply exec_descRe_complete in Ht.
      * right. injection H as <-.
        split; [exact No|]. split; [|reflexivity].
        intros d' t Hd Ht. injection Hd as <-.
        destruct d; [|discriminate].
        now apply exec_descRe_complete in Ht.
    + right. injection H as <-.
      split; [exact No|]. split; [|reflexivity].
      intros d t Hd. discriminate.
Qed.

End GuestName.


(* ------------------------------------------------------------------ *)
(** ** Nights *)

Lemma halfUp_bounds (d : Z) :
  let n := (2 * d + msPerDay) / (2 * msPerDay) in
  (2 * n - 1) * msPerDay <= 2 * d < (2 * n + 1) * msPerDay /\
  (1 <= n <-> msPerDay <= 2 * d).
Proof.
  cbv zeta. unfold msPerDay. change (1000 * 60 * 60 * 24) with 86400000.
  change (2 * 86400000) with 172800000.
  pose proof (Z.div_mod (2 * d + 86400000) 172800000 ltac:(lia)) as E.
  pose proof (Z.mod_pos_bound (2 * d + 86400000) 172800000 ltac:(lia)) as B.
  set (n := (2 * d + 86400000) / 172800000) in *. clearbody n. lia.
Qed.

(** C1, amended. No event is dropped for its night count: when the parse
    succeeds, the reservations are, in feed order, one for each timed
    event that is not a blackout and has both instants, with the dates of
    its two instants. For a stay of less than 2^26 days, where the
    quotient the code computes in floating point is the exact one, the
    nights of the reservation is (checkOut - checkIn) in days rounded to
    the nearest integer (a half going up), whatever its sign, so it is at
    least 1 exactly when checkOut is half a day or more after checkIn. *)
Theorem nights_rounded_not_filtered w icalUrl pid nm events rs :
  fromURL w icalUrl = Normal events ->
  returned (parseIcal w icalUrl pid nm) = Some rs ->
  Forall2
    (fun e r =>
       exists a b,
         Event.start e = Some (Instant a) /\
         Event.end_ e = Some (Instant b) /\
         Reservation.checkIn r = splitHead 84 (isoString a) /\
         Reservation.checkOut r = splitHead 84 (isoString b) /\
         (exactSpan a b ->
          exists n,
            Reservation.nights r = Num n /\
            (2 * n - 1) * msPerDay <= 2 * (b - a) < (2 * n + 1) * msPerDay /\
            (1 <= n <-> msPerDay <= 2 * (b - a))))
    (emitted events) rs.
Proof.
  intros Hf H. apply (parseIcal_produces _ _ _ _ _ _ Hf) in H.
  eapply Forall2_impl; [|exact H]. clear. intros e r P.
  apply processEvent_inv in P as (_ & a & b & g & i & Ha & Hb & _ & _ & ->).
  exists a, b. repeat split; try assumption.
  intros _. exists ((2 * (b - a) + msPerDay) / (2 * msPerDay)).
  destruct (halfUp_bounds (b - a)) as [B1 B2].
  repeat split; try apply B1; apply B2.
Qed.

Lemma nights_rounded_not_filtered_witness :
  Forall2
    (fun e r =>
       exists a b,
         Event.start e = Some (Instant a) /\
         Event.end_ e = Some (Instant b) /\
         Reservation.checkIn r = splitHead 84 (isoString a) /\
         Reservation.checkOut r = splitHead 84 (isoString b) /\
         (exactSpan a b ->
          exists n,
            Reservation.nights r = Num n /\
            (2 * n - 1) * msPerDay <= 2 * (b - a) < (2 * n + 1) * msPerDay /\
            (1 <= n <-> msPerDay <= 2 * (b - a))))
    (emitted Sample.bookedFeed) [Sample.bookedReservation] /\
  exactSpan Sample.mar1 Sample.mar3.
Proof.
  split.
  - apply (nights_rounded_not_filtered (Sample.serving Sample.bookedFeed 0)
             Sample.url (lit "1") None Sample.bookedFeed).
    + reflexivity.
    + vm_compute. reflexivity.
  - vm_compute. reflexivity.
Defined.

(** C1, as stated, fails: an event that ends at the instant it starts is
    emitted, with zero nights and equal dates. *)
Lemma zero_nights_counterexample :
  exists r,
    returned (parseIcal (Sample.serving Sample.sameDayFeed 0) Sample.url
                (lit "1") None) = Some [r] /\
    Reservation.nights r = Num 0 /\
    Reservation.checkIn r = lit "2024-03-01" /\
    Reservation.checkOut r = lit "2024-03-01".
Proof.
  eexists. split; [vm_compute; reflexivity | repeat split].
Qed.

(* ------------------------------------------------------------------ *)
(** ** The cache *)

Section ObjectFacts.
Context {V : Type}.
Implicit Types (o : JsObject.t V) (k : jsstring).

Lemma get_update_same k f o :
  JsObject.get k (JsObject.update k f o) = option_map f (JsObject.get k o).
Proof.
  induction o as [|[k' v] o IH]; simpl; [reflexivity|].
  destruct (eqb k' k) eqn:E; simpl; rewrite E; [reflexivity | exact IH].
Qed.

Lemma get_update_other k q f o :
  q <> k -> JsObject.get q (JsObject.update k f o) = JsObject.get q o.
Proof.
  intros Hq. induction o as [|[k' v] o IH]; simpl; [reflexivity|].
  destruct (eqb k' k) eqn:E; simpl.
  - apply eqb_eq in E. subst k'.
    destruct (eqb k q) eqn:E2; [|reflexivity].
    apply eqb_eq in E2. congruence.
  - destruct (eqb k' q); [reflexivity | exact IH].
Qed.

Lemma keys_update k f o :
  JsObject.keys (JsObject.update k f o) = JsObject.keys o.
Proof.
  unfold JsObject.keys.
  induction o as [|[k' v] o IH]; simpl; [reflexivity|].
  destruct (eqb k' k); simpl; [reflexivity | now rewrite IH].
Qed.

Lemma get_in_keys k o :
  In k (JsObject.keys o) -> exists v, JsObject.get k o = Some v.
Proof.
  unfold JsObject.keys.
  induction o as [|[k' v] o IH]; simpl; [tauto|].
  intros [-> | H].
  - rewrite eqb_refl. now exists v.
  - destruct (eqb k' k); [now exists v | now apply IH].
Qed.

Lemma get_not_in_keys k o :
  ~ In k (JsObject.keys o) -> JsObject.get k o = None.
Proof.
  unfold JsObject.keys.
  induction o as [|[k' v] o IH]; simpl; [reflexivity|].
  intros H. destruct (eqb k' k) eqn:E.
  - apply eqb_eq in E. tauto.
  - apply IH. tauto.
Qed.

Lemma set_existing k v v0 o :
  JsObject.get k o = Some v0 ->
  JsObject.set k v o = JsObject.update k (fun _ => v) o.
Proof. unfold JsObject.set. now intros ->. Qed.

End ObjectFacts.

(* ------------------------------------------------------------------ *)
(** ** syncAll *)

Section SyncFacts.

Lemma storeSync_same w pid rs cache e :
  JsObject.get pid cache = Some e ->
  JsObject.get pid (storeSync w pid rs cache) =
    Some {| Entry.icalUrl := Entry.icalUrl e;
            Entry.name := Entry.name e;
            Entry.reservations := rs;
            Entry.lastSynced := Some (isoString (now w)) |}.
Proof.
  intros H. unfold storeSync. now rewrite !get_update_same, H.
Qed.

Lemma storeSync_other w pid q rs cache :
  q <> pid ->
  JsObject.get q (storeSync w pid rs cache) = JsObject.get q cache.
Proof.
  intros H. unfold storeSync. now rewrite !get_update_other.
Qed.

Lemma keys_storeSync w pid rs cache :
  JsObject.keys (storeSync w pid rs cache) = JsObject.keys cache.
Proof. unfold storeSync. now rewrite !keys_update. Qed.

(** One turn of the loop: it ends normally, keeps the keys, leaves the
    other entries alone, and changes its own entry on success only. *)
Lemma syncStep_spec w pid cache e :
  JsObject.get pid cache = Some e ->
  exists cache',
    syncStep w pid cache = Normal cache' /\
    JsObject.keys cache' = JsObject.keys cache /\
    (forall q, q <> pid -> JsObject.get q cache' = JsObject.get q cache) /\
    (returned (parseIcal w (Entry.icalUrl e) pid (Some (Entry.name e))) = None ->
     cache' = cache) /\
    (forall rs,
       returned (parseIcal w (Entry.icalUrl e) pid (Some (Entry.name e)))
         = Some rs ->
       JsObject.get pid cache' =
         Some {| Entry.icalUrl := Entry.icalUrl e;
                 Entry.name := Entry.name e;
                 Entry.reservations := rs;
                 Entry.lastSynced := Some (isoString (now w)) |}).
Proof.
  intros H. unfold syncStep. rewrite H.
  destruct (returned (parseIcal w (Entry.icalUrl e) pid (Some (Entry.name e))))
    as [rs|].
  - exists (storeSync w pid rs cache). split; [reflexivity|].
    split; [apply keys_storeSync|].
    split; [intros q Hq; now apply storeSync_other|].
    split; [discriminate|].
    intros rs' Hrs. injection Hrs as <-. now apply storeSync_same.
  - exists cache. repeat split; try reflexivity. discriminate.
Qed.

Lemma syncLoop_spec world ids : forall cache,
  NoDup ids ->
  (forall q, In q ids -> In q (JsObject.keys cache)) ->
  exists cache',
    syncLoop world ids cache = Normal cache' /\
    JsObject.keys cache' = JsObject.keys cache /\
    (forall q, ~ In q ids -> JsObject.get q cache' = JsObject.get q cache) /\
    (forall q e, In q ids -> JsObject.get q cache = Some e ->
       (returned (parseIcal (world q) (Entry.icalUrl e) q (Some (Entry.name e)))
          = None -> JsObject.get q cache' = Some e) /\
       (forall rs,
          returned (parseIcal (world q) (Entry.icalUrl e) q (Some (Entry.name e)))
            = Some rs ->
          JsObject.get q cache' =
            Some {| Entry.icalUrl := Entry.icalUrl e;
                    Entry.name := Entry.name e;
                    Entry.reservations := rs;
                    Entry.lastSynced := Some (isoString (now (world q))) |})).
Proof.
  induction ids as [|pid ids IH]; intros cache ND Hin; simpl.
  - exists cache. repeat split; try reflexivity; intros; contradiction.
  - inversion ND as [|? ? Hnot ND']; subst.
    destruct (get_in_keys pid cache (Hin pid (or_introl eq_refl))) as [e He].
    destruct (syncStep_spec (world pid) pid cache e He)
      as (c1 & -> & K1 & O1 & F1 & S1).
    simpl.
    destruct (IH c1 ND') as (c2 & -> & K2 & O2 & R2).
    { intros q Hq. rewrite K1. apply Hin. now right. }
    exists c2. split; [reflexivity|]. split; [congruence|]. split.
    + intros q Hq. rewrite O2 by tauto. apply O1. intros ->. apply Hq. now left.
    + intros q e' [<- | Hq] He'.
      * rewrite He in He'. injection He' as <-. rewrite (O2 pid Hnot). split.
        -- intros Hf. now rewrite (F1 Hf).
        -- exact S1.
      * assert (Hne : q <> pid) by (intros ->; contradiction).
        apply R2; [exact Hq|]. now rewrite O1.
Qed.

End SyncFacts.

(** C4. In [syncAll] every registered property is handled, and each on
    its own outcome alone: a property whose parse fails keeps its entry
    as it was (reservations and lastSynced included), and a property
    whose parse succeeds gets the new reservations and time stamp,
    whatever happened to the others. The sync inside the registration
    route likewise leaves the cache as it is when the parse fails. *)
Theorem sync_failure_isolated world cache :
  NoDup (JsObject.keys cache) ->
  (exists cache',
     syncAll world cache = Normal cache' /\
     JsObject.keys cache' = JsObject.keys cache /\
     forall pid e, JsObject.get pid cache = Some e ->
       (returned (parseIcal (world pid) (Entry.icalUrl e) pid
                    (Some (Entry.name e))) = None ->
        JsObject.get pid cache' = Some e) /\
       (forall rs,
          returned (parseIcal (world pid) (Entry.icalUrl e) pid
                      (Some (Entry.name e))) = Some rs ->
          JsObject.get pid cache' =
            Some {| Entry.icalUrl := Entry.icalUrl e;
                    Entry.name := Entry.name e;
                    Entry.reservations := rs;
                    Entry.lastSynced := Some (isoString (now (world pid))) |})) /\
  (forall w pid nm icalUrl,
     truthy pid = true -> truthy icalUrl = true -> httpsUrl icalUrl ->
     returned (parseIcal w icalUrl pid nm) = None ->
     fst (postProperties w
            {| reqPropertyId := Some pid; reqName := nm;
               reqIcalUrl := Some icalUrl |} cache)
       = registerEntry pid nm icalUrl cache).
Proof.
  intros ND. split.
  - unfold syncAll.
    destruct (syncLoop_spec world (JsObject.keys cache) cache ND)
      as (c' & H & K & _ & R); [tauto|].
    exists c'. split; [exact H|]. split; [exact K|].
    intros pid e He. apply R; [|exact He].
    destruct (in_dec (list_eq_dec Z.eq_dec) pid (JsObject.keys cache))
      as [Hin | Hout]; [exact Hin|].
    apply get_not_in_keys in Hout. congruence.
  - intros w pid nm icalUrl Hp Hu Hs Hf.
    destruct pid as [|c pid]; [discriminate|].
    destruct icalUrl as [|c' icalUrl]; [discriminate|].
    apply startsWith_spec in Hs.
    unfold postProperties, falsy, orElse, reqPropertyId, reqIcalUrl, reqName,
      truthy.
    cbv beta iota. rewrite Hs. cbv beta iota. unfold negb at 1 2 3.
    cbv beta iota. unfold orb. cbv beta iota. now rewrite Hf.
Qed.

Lemma sync_failure_isolated_witness :
  exists cache',
    syncAll Sample.mixedWorld Sample.cache2 = Normal cache' /\
    JsObject.get (lit "1") cache' = Some Sample.beach /\
    JsObject.get (lit "cabin") cache' =
      Some {| Entry.icalUrl := Entry.icalUrl Sample.cabin;
              Entry.name := Entry.name Sample.cabin;
              Entry.reservations :=
                [{| Reservation.id := lit "r1";
                    Reservation.propertyId := lit "cabin";
                    Reservation.guestName := lit "Airbnb (HM1234)";
                    Reservation.checkIn := lit "2024-03-01";
                    Reservation.checkOut := lit "2024-03-03";
                    Reservation.nights := Num 2;
                    Reservation.total := Num 0;
                    Reservation.source := lit "airbnb";
                    Reservation.summary := lit "Reserved - Airbnb (HM1234)" |}];
              Entry.lastSynced := Some (isoString Sample.mar2) |}.
Proof.
  assert (ND : NoDup (JsObject.keys Sample.cache2)).
  { simpl. repeat constructor; simpl; [|tauto].
    intros [H | []]. discriminate. }
  destruct (sync_failure_isolated Sample.mixedWorld Sample.cache2 ND)
    as [(c' & H & _ & R) _].
  exists c'. split; [exact H|]. split.
  - apply (R (lit "1") Sample.beach); reflexivity.
  - apply (R (lit "cabin") Sample.cabin); [reflexivity|].
    vm_compute. reflexivity.
Defined.

(* ------------------------------------------------------------------ *)
(** ** Registration *)

Section RegisterFacts.

Lemma falsy_missing v : falsy v = true <-> missing v.
Proof.
  unfold falsy, missing. destruct v as [[|c s]|]; simpl; split;
    try tauto; try discriminate;
    intros [H | H]; discriminate.
Qed.

End RegisterFacts.

(** C5, amended. Registering an id that is already in the cache
    overwrites the url and the name and resets lastSynced to null; the
    reservations of the entry are the ones it had, its place among the
    keys is kept, and no other entry changes. *)
Theorem register_existing pid nm icalUrl cache e :
  JsObject.get pid cache = Some e ->
  JsObject.get pid (registerEntry pid nm icalUrl cache) =
    Some {| Entry.icalUrl := icalUrl;
            Entry.name := orElse nm (lit "Property " ++ pid);
            Entry.reservations := Entry.reservations e;
            Entry.lastSynced := None |} /\
  JsObject.keys (registerEntry pid nm icalUrl cache) = JsObject.keys cache /\
  (forall q, q <> pid ->
     JsObject.get q (registerEntry pid nm icalUrl cache) = JsObject.get q cache).
Proof.
  intros H. unfold registerEntry. rewrite H.
  rewrite (set_existing _ _ _ _ H). split; [|split].
  - now rewrite get_update_same, H.
  - apply keys_update.
  - intros q Hq. now apply get_update_other.
Qed.

Lemma register_existing_witness :
  JsObject.get (lit "1")
    (registerEntry (lit "1") None (lit "https://example.com/moved.ics")
       Sample.cache1) =
    Some {| Entry.icalUrl := lit "https://example.com/moved.ics";
            Entry.name := orElse None (lit "Property " ++ lit "1");
            Entry.reservations := Entry.reservations Sample.beach;
            Entry.lastSynced := None |}.
Proof.
  apply (register_existing (lit "1") None (lit "https://example.com/moved.ics")
           Sample.cache1 Sample.beach).
  reflexivity.
Defined.

(** C5, as stated, fails: registering again an id that has a lastSynced
    value loses that value (here the sync that follows fails, so null is
    what stays), while the reservations are kept. *)
Lemma register_resets_lastSynced_counterexample :
  Entry.lastSynced Sample.beach = Some (lit "2024-03-01T00:00:00.000Z") /\
  JsObject.get (lit "1") Sample.cache1 = Some Sample.beach /\
  JsObject.get (lit "1")
    (fst (postProperties (Sample.failing (lit "ETIMEDOUT") Sample.mar2)
            Sample.reregister Sample.cache1)) =
    Some {| Entry.icalUrl := lit "https://example.com/moved.ics";
            Entry.name := lit "Beach house";
            Entry.reservations := Entry.reservations Sample.beach;
            Entry.lastSynced := None |}.
Proof. repeat split. Qed.


(* ------------------------------------------------------------------ *)
(** ** The outcome of parseIcal *)

Section OutcomeFacts.

Lemma eventLoop_throw pid events : forall acc e m,
  In e (emitted events) -> processEvent pid e = Throw m ->
  exists m', eventLoop pid events acc = Throw m'.
Proof.
  unfold emitted.
  induction events as [|[key ev] rest IH]; simpl; intros acc e m Hin Hp;
    [contradiction|].
  destruct (processEvent pid ev) as [r|m0] eqn:P; simpl; [|now exists m0].
  apply (IH _ e m); [|exact Hp].
  destruct (emits ev); [|exact Hin].
  destruct Hin as [<- | Hin]; [congruence | exact Hin].
Qed.

Lemma eventLoop_total pid events : forall acc,
  (forall e, In e (emitted events) -> datedEvent e) ->
  exists rs, eventLoop pid events acc = Normal rs.
Proof.
  unfold emitted.
  induction events as [|[key ev] rest IH]; simpl; intros acc H;
    [now exists acc|].
  destruct (emits ev) eqn:Em.
  - destruct (H ev (or_introl eq_refl)) as (a & b & Ha & Hb).
    destruct (processEvent_emit pid ev a b Em Ha Hb) as [r Hr].
    unfold produces in Hr. rewrite Hr. simpl.
    apply IH. intros e He. apply H. now right.
  - rewrite (processEvent_skip _ _ Em). simpl. now apply IH.
Qed.

End OutcomeFacts.

(** C7, as stated, fails: the value returned on a failure does not carry
    the cause; no function recovers the message of the rejected fetch
    from what [parseIcal] returns. *)
Lemma failure_carries_no_cause_counterexample :
  ~ exists cause : option (list Reservation.t) -> jsstring,
      forall message,
        cause (returned (parseIcal (Sample.failing message 0) Sample.url
                           (lit "1") None)) = message.
Proof.
  intros [cause H].
  pose proof (H (lit "ETIMEDOUT")) as H1.
  pose proof (H (lit "ENOTFOUND")) as H2.
  simpl in H1, H2. rewrite H1 in H2. discriminate.
Qed.

(* ------------------------------------------------------------------ *)
(** ** Reservation ids *)

Section IdFacts.

Lemma produces_id pid e r :
  produces pid e r ->
  exists a, Event.start e = Some (Instant a) /\
    ((exists u, Event.uid e = Some u /\ u <> [] /\ Reservation.id r = u) \/
     (missing (Event.uid e) /\
      Reservation.id r = pid ++ lit "-" ++ isoString a)).
Proof.
  intros P.
  apply processEvent_inv in P as (_ & a & b & g & i & Ha & _ & _ & I & ->).
  exists a. split; [exact Ha|]. simpl.
  unfold reservationId, synthesizedId in I. simpl in I. unfold missing.
  destruct (Event.uid e) as [[|c u]|]; simpl in I; injection I as <-.
  - right. split; [now right | reflexivity].
  - left. exists (c :: u). repeat split. discriminate.
  - right. split; [now left | reflexivity].
Qed.

Lemma Forall2_map_eq {A B C} (f : A -> C) (g : B -> C) l1 l2 :
  Forall2 (fun x y => f x = g y) l1 l2 -> map f l1 = map g l2.
Proof. induction 1; simpl; congruence. Qed.

End IdFacts.

Lemma produces_sourceId pid e r :
  produces pid e r -> Reservation.id r = sourceId pid e.
Proof.
  intros P. unfold sourceId.
  destruct (produces_id _ _ _ P)
    as (a & Ha & [(u & Hu & Hne & ->) | ([M | M] & ->)]); rewrite ?Ha, M || rewrite Hu.
  - destruct u; [contradiction | reflexivity].
  - reflexivity.
  - reflexivity.
Qed.

(** C8, amended. After a successful sync of a property the ids of its
    reservations are, in order, the ids the emitted events bring with
    them (the uid, or the property id and the check-in instant for an
    event without uid); so they are pairwise distinct exactly when those
    are, and in particular when every emitted event carries a uid that
    is not empty and these uids are pairwise distinct. The parser itself
    removes no duplicate. *)
Theorem ids_distinct_iff_source_ids_distinct w pid cache cache' e events rs :
  JsObject.get pid cache = Some e ->
  fromURL w (Entry.icalUrl e) = Normal events ->
  syncStep w pid cache = Normal cache' ->
  returned (parseIcal w (Entry.icalUrl e) pid (Some (Entry.name e))) = Some rs ->
  exists e', JsObject.get pid cache' = Some e' /\
             Entry.reservations e' = rs /\
             Entry.lastSynced e' = Some (isoString (now w)) /\
             map Reservation.id rs = map (sourceId pid) (emitted events) /\
             (NoDup (map Reservation.id rs) <->
              NoDup (map (sourceId pid) (emitted events))) /\
             ((forall ev, In ev (emitted events) ->
                 exists u, Event.uid ev = Some u /\ u <> []) ->
              NoDup (map Event.uid (emitted events)) ->
              NoDup (map Reservation.id rs)).
Proof.
  intros He Hf Hs Hr.
  destruct (syncStep_spec w pid cache e He) as (c & Hc & _ & _ & _ & S).
  rewrite Hs in Hc. injection Hc as <-.
  eexists. split; [apply (S rs Hr)|]. simpl.
  pose proof (parseIcal_produces _ _ _ _ _ _ Hf Hr) as F.
  assert (Hids : map Reservation.id rs = map (sourceId pid) (emitted events)).
  { symmetry. apply Forall2_map_eq. eapply Forall2_impl; [|exact F].
    intros ev r P. symmetry. now apply produces_sourceId. }
  split; [reflexivity|]. split; [reflexivity|]. split; [exact Hids|].
  split; [now rewrite Hids|].
  intros Hu ND. rewrite Hids.
  assert (E : map Event.uid (emitted events) =
              map Some (map (sourceId pid) (emitted events))).
  { rewrite map_map. apply map_ext_in. intros ev Hin.
    destruct (Hu ev Hin) as (u & Hev & Hne). unfold sourceId. rewrite Hev.
    destruct u; [contradiction | reflexivity]. }
  rewrite E in ND. now apply NoDup_map_inv in ND.
Qed.

Lemma ids_distinct_iff_source_ids_distinct_witness :
  exists e', JsObject.get (lit "1")
               (storeSync (Sample.serving Sample.bookedFeed Sample.mar2)
                  (lit "1") [Sample.bookedReservation] Sample.cache1) = Some e' /\
             Entry.reservations e' = [Sample.bookedReservation] /\
             Entry.lastSynced e' = Some (isoString Sample.mar2) /\
             map Reservation.id [Sample.bookedReservation] =
               map (sourceId (lit "1")) (emitted Sample.bookedFeed) /\
             (NoDup (map Reservation.id [Sample.bookedReservation]) <->
              NoDup (map (sourceId (lit "1")) (emitted Sample.bookedFeed))) /\
             ((forall ev, In ev (emitted Sample.bookedFeed) ->
                 exists u, Event.uid ev = Some u /\ u <> []) ->
              NoDup (map Event.uid (emitted Sample.bookedFeed)) ->
              NoDup (map Reservation.id [Sample.bookedReservation])).
Proof.
  apply (ids_distinct_iff_source_ids_distinct
           (Sample.serving Sample.bookedFeed Sample.mar2) (lit "1")
           Sample.cache1 _ Sample.beach Sample.bookedFeed).
  - reflexivity.
  - reflexivity.
  - vm_compute. reflexivity.
  - vm_compute. reflexivity.
Defined.

(** C8, as stated, fails: two events without uid that start at the same
    instant give, after a successful sync, two reservations with the same
    id. *)
Lemma duplicate_ids_counterexample :
  exists e' i,
    syncAll (fun _ => Sample.serving Sample.twinFeed Sample.mar2) Sample.cache1
      = Normal [(lit "1", e')] /\
    Entry.lastSynced e' = Some (isoString Sample.mar2) /\
    map Reservation.id (Entry.reservations e') = [i; i] /\
    ~ NoDup (map Reservation.id (Entry.reservations e')).
Proof.
  eexists. eexists. split; [vm_compute; reflexivity|].
  split; [reflexivity|]. split; [reflexivity|].
  intros ND. inversion ND as [|x l Hn _]; subst. apply Hn. now left.
Qed.


(* ------------------------------------------------------------------ *)
(** ** GET /reservations *)

Section QueryFacts.

Lemma reservationsLoop_spec propertyId cache : forall acc st,
  reservationsLoop propertyId cache acc st =
    (acc ++ flat_map
              (fun p => if falsy propertyId || eqb (fst p) (orElse propertyId [])
                        then Entry.reservations (snd p) else [])
              cache,
     st ++ map statusOf cache).
Proof.
  induction cache as [|[pid entry] rest IH]; intros acc st; simpl.
  - now rewrite !app_nil_r.
  - rewrite IH. unfold statusOf at 2. simpl.
    destruct (falsy propertyId || eqb pid (orElse propertyId []));
      now rewrite <- !app_assoc.
Qed.

Lemma filter_by_key f (cache : Cache) :
  NoDup (JsObject.keys cache) ->
  flat_map (fun p => if eqb (fst p) f then Entry.reservations (snd p) else [])
    cache =
  match JsObject.get f cache with
  | Some e => Entry.reservations e
  | None => []
  end.
Proof.
  unfold JsObject.keys.
  induction cache as [|[pid entry] rest IH]; simpl; intros ND; [reflexivity|].
  inversion ND as [|? ? Hnot ND']; subst.
  destruct (eqb pid f) eqn:E.
  - apply eqb_eq in E. subst pid.
    rewrite (IH ND'), (get_not_in_keys f rest Hnot). apply app_nil_r.
  - simpl. now apply IH.
Qed.

End QueryFacts.

(** C10. With a propertyId filter, the reservations of the answer are
    those of the property with that id (none when no property has it),
    while syncStatus has one entry for each registered property, in the
    order of the cache, and totalProperties counts them all. *)
Theorem reservations_filter f cache :
  f <> [] ->
  NoDup (JsObject.keys cache) ->
  getReservations (Some f) cache =
    {| status := 200;
       body := ReservationList
                 (match JsObject.get f cache with
                  | Some e => Entry.reservations e
                  | None => []
                  end)
                 (map statusOf cache)
                 (Z.of_nat (length cache)) |}.
Proof.
  intros Hf ND. unfold getReservations.
  rewrite reservationsLoop_spec. simpl.
  destruct f as [|c f]; [contradiction|]. simpl.
  rewrite (filter_by_key (c :: f) cache ND).
  unfold JsObject.keys. now rewrite length_map.
Qed.

Lemma reservations_filter_witness :
  getReservations (Some (lit "nowhere")) Sample.cache2 =
    {| status := 200;
       body := ReservationList [] (map statusOf Sample.cache2) 2 |} /\
  getReservations (Some (lit "1")) Sample.cache2 =
    {| status := 200;
       body := ReservationList [Sample.bookedReservation]
                 (map statusOf Sample.cache2) 2 |}.
Proof.
  assert (ND : NoDup (JsObject.keys Sample.cache2)).
  { simpl. repeat constructor; simpl; [|tauto].
    intros [H | []]. discriminate. }
  split.
  - apply (reservations_filter (lit "nowhere") Sample.cache2);
      [discriminate | exact ND].
  - apply (reservations_filter (lit "1") Sample.cache2);
      [discriminate | exact ND].
Defined.

(* ------------------------------------------------------------------ *)
(** ** Checks on sample inputs *)

Example isoString_epoch : isoString 0 = lit "1970-01-01T00:00:00.000Z".
Proof. reflexivity. Qed.

Example isoString_leap_day :
  isoString 1709210096789 = lit "2024-02-29T12:34:56.789Z".
Proof. vm_compute. reflexivity. Qed.

Example isoString_before_epoch :
  isoString (-1) = lit "1969-12-31T23:59:59.999Z".
Proof. vm_compute. reflexivity. Qed.

Example isoString_year_10000 :
  isoString 253402300800000 = lit "+010000-01-01T00:00:00.000Z".
Proof. vm_compute. reflexivity. Qed.

Example isoString_year_minus_1 :
  isoString (-62198755200000) = lit "-000001-01-01T00:00:00.000Z".
Proof. vm_compute. reflexivity. Qed.

Example roundDiv_half_up :
  roundDiv (Num 43200000) msPerDay = Num 1 /\
  roundDiv (Num 43199999) msPerDay = Num 0 /\
  roundDiv (Num (-43200000)) msPerDay = Num 0 /\
  roundDiv (Num (-43200001)) msPerDay = Num (-1).
Proof. repeat split. Qed.

Example exec_reserved_name :
  exec reservedRe (lit "Reserved - Jane Doe") = Some (Some (lit "Jane Doe")).
Proof. vm_compute. reflexivity. Qed.

Example exec_reserved_en_dash :
  exec reservedRe (lit "x RESERVED" ++ [8211] ++ lit "Bo") =
    Some (Some (lit "Bo")).
Proof. vm_compute. reflexivity. Qed.

Example exec_reserved_gives_back_space :
  exec reservedRe (lit "Reserved - ") = Some (Some (lit " ")).
Proof. vm_compute. reflexivity. Qed.

Example exec_reserved_no_text :
  exec reservedRe (lit "Reserved -") = None.
Proof. vm_compute. reflexivity. Qed.

Example exec_desc_next_line :
  exec descRe (lit "Phone: 1" ++ [10] ++ lit "Guest: " ++ [10] ++ lit " Bob  "
               ++ [10] ++ lit "x") = Some (Some (lit "Bob  ")).
Proof. vm_compute. reflexivity. Qed.

Example guest_from_description :
  extractGuestName (lit "Booking") (Some (lit "Name: Ann Lee ")) =
    Normal (lit "Ann Lee").
Proof. vm_compute. reflexivity. Qed.

Example guest_fallback :
  extractGuestName (lit "Booking") None = Normal (lit "Airbnb Guest").
Proof. vm_compute. reflexivity. Qed.

Example keys_in_enumeration_order :
  JsObject.keys
    (JsObject.set (lit "10") 4
       (JsObject.set (lit "1") 3
          (JsObject.set (lit "b") 2
             (JsObject.set (lit "2") 1
                (JsObject.set (lit "01") 0 []))))) =
    [lit "1"; lit "2"; lit "10"; lit "01"; lit "b"].
Proof. vm_compute. reflexivity. Qed.

Example negative_nights_emitted :
  exists r,
    produces (lit "1")
      (Sample.vevent (lit "Reserved - Jane Doe") Sample.mar3 Sample.mar1 None) r /\
    Reservation.nights r = Num (-2) /\
    Reservation.id r = lit "1-2024-03-03T00:00:00.000Z".
Proof. eexists. split; [vm_compute; reflexivity | split; reflexivity]. Qed.

Example invalid_date_fails_the_parse :
  parseIcal
    (Sample.serving
       [(lit "k", {| Event.type := lit "VEVENT";
                     Event.summary := Some (lit "Reserved - Jane Doe");
                     Event.description := None;
                     Event.start := Some InvalidDate;
                     Event.end_ := Some (Instant Sample.mar1);
                     Event.uid := Some (lit "k") |})] 0)
    Sample.url (lit "1") None =
    {| returned := None;
       errors := [errorCall (lit "1") (lit "Invalid time value")] |}.
Proof. vm_compute. reflexivity. Qed.

(* ================================================================== *)
(** * More of the code: the store and the other routes *)

(* ------------------------------------------------------------------ *)
(** ** Writing to and deleting from an object *)

Section StoreFacts.
Context {V : Type}.
Implicit Types (o : JsObject.t V) (k q : jsstring).

Lemma get_none_not_in k o :
  JsObject.get k o = None -> ~ In k (JsObject.keys o).
Proof.
  intros H Hin. apply get_in_keys in Hin as [v Hv]. congruence.
Qed.

Lemma get_app_skip k (l1 l2 : JsObject.t V) :
  ~ In k (JsObject.keys l1) ->
  JsObject.get k (l1 ++ l2) = JsObject.get k l2.
Proof.
  unfold JsObject.keys.
  induction l1 as [|[k' v] l1 IH]; simpl; intros H; [reflexivity|].
  destruct (eqb k' k) eqn:E.
  - apply eqb_eq in E. tauto.
  - apply IH. tauto.
Qed.

Lemma get_insert_other k q (v : V) (l1 l2 : JsObject.t V) :
  q <> k ->
  JsObject.get q (l1 ++ (k, v) :: l2) = JsObject.get q (l1 ++ l2).
Proof.
  intros Hq. induction l1 as [|[k' v'] l1 IH]; simpl.
  - destruct (eqb k q) eqn:E; [|reflexivity].
    apply eqb_eq in E. congruence.
  - destruct (eqb k' q); [reflexivity | exact IH].
Qed.

(** A new property is put somewhere in the list, which is otherwise
    kept. *)
Lemma insertIndex_split i k (v : V) o :
  exists l1 l2, o = l1 ++ l2 /\ JsObject.insertIndex i k v o = l1 ++ (k, v) :: l2.
Proof.
  induction o as [|[k' v'] o IH]; simpl.
  - now exists [], [].
  - destruct (JsObject.arrayIndex k') as [j|].
    + destruct (j <? i).
      * destruct IH as (l1 & l2 & -> & ->).
        now exists ((k', v') :: l1), l2.
      * now exists [], ((k', v') :: o).
    + now exists [], ((k', v') :: o).
Qed.

Lemma set_new_split k (v : V) o :
  JsObject.get k o = None ->
  exists l1 l2, o = l1 ++ l2 /\ JsObject.set k v o = l1 ++ (k, v) :: l2.
Proof.
  intros H. unfold JsObject.set. rewrite H.
  destruct (JsObject.arrayIndex k) as [i|].
  - apply insertIndex_split.
  - exists o, []. now rewrite app_nil_r.
Qed.

Lemma keys_app (l1 l2 : JsObject.t V) :
  JsObject.keys (l1 ++ l2) = JsObject.keys l1 ++ JsObject.keys l2.
Proof. unfold JsObject.keys. apply map_app. Qed.

Lemma get_set_same k (v : V) o :
  JsObject.get k (JsObject.set k v o) = Some v.
Proof.
  destruct (JsObject.get k o) as [v0|] eqn:H.
  - rewrite (set_existing _ _ _ _ H), get_update_same, H. reflexivity.
  - destruct (set_new_split k v o H) as (l1 & l2 & -> & ->).
    apply get_none_not_in in H. rewrite keys_app in H.
    rewrite get_app_skip by (rewrite in_app_iff in H; tauto).
    simpl. now rewrite eqb_refl.
Qed.

Lemma get_set_other k q (v : V) o :
  q <> k -> JsObject.get q (JsObject.set k v o) = JsObject.get q o.
Proof.
  intros Hq. destruct (JsObject.get k o) as [v0|] eqn:H.
  - rewrite (set_existing _ _ _ _ H). now apply get_update_other.
  - destruct (set_new_split k v o H) as (l1 & l2 & -> & ->).
    now apply get_insert_other.
Qed.

Lemma NoDup_keys_set k (v : V) o :
  NoDup (JsObject.keys o) -> NoDup (JsObject.keys (JsObject.set k v o)).
Proof.
  intros ND. destruct (JsObject.get k o) as [v0|] eqn:H.
  - now rewrite (set_existing _ _ _ _ H), keys_update.
  - destruct (set_new_split k v o H) as (l1 & l2 & -> & ->).
    apply get_none_not_in in H. rewrite keys_app in *. simpl.
    apply (NoDup_Add (Add_app k _ _)). now split.
Qed.

Lemma in_keys_set k q (v : V) o :
  In q (JsObject.keys (JsObject.set k v o)) <-> q = k \/ In q (JsObject.keys o).
Proof.
  destruct (JsObject.get k o) as [v0|] eqn:H.
  - rewrite (set_existing _ _ _ _ H), keys_update. split; [tauto|].
    intros [-> | Hin]; [|exact Hin].
    destruct (in_dec (list_eq_dec Z.eq_dec) k (JsObject.keys o)) as [Hi | Hn];
      [exact Hi|].
    apply get_not_in_keys in Hn. congruence.
  - destruct (set_new_split k v o H) as (l1 & l2 & -> & ->).
    rewrite !keys_app. simpl. rewrite !in_app_iff. simpl.
    split; intros; intuition congruence.
Qed.

Lemma deleteKey_absent k o :
  JsObject.get k o = None -> deleteKey k o = o.
Proof.
  induction o as [|[k' v] o IH]; simpl; [reflexivity|].
  destruct (eqb k' k); [discriminate|]. intros H. now rewrite IH.
Qed.

Lemma in_keys_deleteKey k q o :
  In q (JsObject.keys (deleteKey k o)) -> In q (JsObject.keys o).
Proof.
  unfold JsObject.keys.
  induction o as [|[k' v] o IH]; simpl; [tauto|].
  destruct (eqb k' k); simpl; tauto.
Qed.

Lemma NoDup_keys_deleteKey k o :
  NoDup (JsObject.keys o) -> NoDup (JsObject.keys (deleteKey k o)).
Proof.
  induction o as [|[k' v] o IH]; simpl; intros ND; [constructor|].
  inversion ND as [|? ? Hn ND']; subst.
  destruct (eqb k' k); simpl; [exact ND'|].
  constructor; [|now apply IH].
  intros Hin. apply Hn. eapply in_keys_deleteKey. exact Hin.
Qed.

Lemma get_deleteKey_same k o :
  NoDup (JsObject.keys o) -> JsObject.get k (deleteKey k o) = None.
Proof.
  induction o as [|[k' v] o IH]; simpl; intros ND; [reflexivity|].
  inversion ND as [|? ? Hn ND']; subst.
  destruct (eqb k' k) eqn:E; simpl.
  - apply eqb_eq in E. subst. now apply get_not_in_keys.
  - rewrite E. now apply IH.
Qed.

Lemma get_deleteKey_other k q o :
  q <> k -> JsObject.get q (deleteKey k o) = JsObject.get q o.
Proof.
  intros Hq. induction o as [|[k' v] o IH]; simpl; [reflexivity|].
  destruct (eqb k' k) eqn:E; simpl.
  - apply eqb_eq in E. subst.
    destruct (eqb k q) eqn:E2; [|reflexivity].
    apply eqb_eq in E2. congruence.
  - destruct (eqb k' q); [reflexivity | exact IH].
Qed.

Lemma length_deleteKey k o v :
  JsObject.get k o = Some v -> S (length (deleteKey k o)) = length o.
Proof.
  induction o as [|[k' v'] o IH]; simpl; [discriminate|].
  destruct (eqb k' k); simpl; [reflexivity|].
  intros H. now rewrite IH.
Qed.

(** Two objects with the same keys in the same order and the same value
    under each key are the same object. *)
Lemma object_ext (o1 o2 : JsObject.t V) :
  NoDup (JsObject.keys o1) ->
  JsObject.keys o1 = JsObject.keys o2 ->
  (forall k, JsObject.get k o1 = JsObject.get k o2) ->
  o1 = o2.
Proof.
  revert o2. induction o1 as [|[k v] o1 IH]; intros [|[k2 v2] o2] ND K G;
    try discriminate; [reflexivity|].
  simpl in K. injection K as <- K. inversion ND as [|? ? Hn ND']; subst.
  pose proof (G k) as Gk. simpl in Gk. rewrite eqb_refl in Gk.
  injection Gk as <-. f_equal. apply IH; try assumption.
  intros q. specialize (G q). simpl in G.
  destruct (eqb k q) eqn:E; [|exact G].
  apply eqb_eq in E. subst q.
  rewrite (get_not_in_keys k o1 Hn).
  rewrite K in Hn. now rewrite (get_not_in_keys k o2 Hn).
Qed.

End StoreFacts.

(* ------------------------------------------------------------------ *)
(** ** DELETE /properties/:propertyId *)

(** X1. Removing a registered id answers 200, takes exactly that entry
    out of the cache and leaves every other entry as it was. For an id
    that is not registered the answer is 404 and the cache is untouched,
    unless the id is a name every object inherits (such as
    "constructor" or "toString"): then the route answers 200 "removed"
    although nothing was registered and nothing changes. *)
Theorem delete_route pid cache :
  NoDup (JsObject.keys cache) ->
  (forall e, JsObject.get pid cache = Some e ->
     code (snd (deleteProperties pid cache)) = 200 /\
     JsObject.get pid (fst (deleteProperties pid cache)) = None /\
     (forall q, q <> pid ->
        JsObject.get q (fst (deleteProperties pid cache)) = JsObject.get q cache) /\
     S (length (fst (deleteProperties pid cache))) = length cache) /\
  (JsObject.get pid cache = None -> inheritedName pid = false ->
     deleteProperties pid cache =
       (cache, {| code := 404; reply := ErrorReply (lit "Property not found") |})) /\
  (JsObject.get pid cache = None -> inheritedName pid = true ->
     deleteProperties pid cache =
       (cache, {| code := 200;
                  reply := MessageReply true
                             (lit "Property " ++ pid ++ lit " removed") |})).
Proof.
  intros ND. unfold deleteProperties. repeat split.
  - now rewrite H.
  - rewrite H. simpl. now apply get_deleteKey_same.
  - intros q Hq. rewrite H. simpl. now apply get_deleteKey_other.
  - rewrite H. simpl. eapply length_deleteKey. exact H.
  - intros H Hi. now rewrite H, Hi.
  - intros H Hi. rewrite H, Hi. now rewrite (deleteKey_absent _ _ H).
Qed.

Lemma delete_route_witness :
  deleteProperties (lit "nowhere") Sample.cache2 =
    (Sample.cache2,
     {| code := 404; reply := ErrorReply (lit "Property not found") |}) /\
  deleteProperties (lit "toString") Sample.cache2 =
    (Sample.cache2,
     {| code := 200;
        reply := MessageReply true
                   (lit "Property " ++ lit "toString" ++ lit " removed") |}) /\
  JsObject.get (lit "1") (fst (deleteProperties (lit "1") Sample.cache2)) = None.
Proof.
  assert (ND : NoDup (JsObject.keys Sample.cache2)).
  { simpl. repeat constructor; simpl; [|tauto].
    intros [H | []]. discriminate. }
  split; [|split].
  - apply (delete_route (lit "nowhere") Sample.cache2 ND); reflexivity.
  - apply (delete_route (lit "toString") Sample.cache2 ND); reflexivity.
  - apply (proj1 (delete_route (lit "1") Sample.cache2 ND) Sample.beach).
    reflexivity.
Defined.

(* ------------------------------------------------------------------ *)
(** ** The keys of the cache stay distinct *)

Section InvariantFacts.

Lemma keys_registerEntry pid nm url (cache : Cache) :
  NoDup (JsObject.keys cache) ->
  NoDup (JsObject.keys (registerEntry pid nm url cache)).
Proof. unfold registerEntry. apply NoDup_keys_set. Qed.

Lemma postProperties_cases w req cache :
  fst (postProperties w req cache) = cache \/
  exists pid url,
    reqPropertyId req = Some pid /\ reqIcalUrl req = Some url /\
    (fst (postProperties w req cache) = registerEntry pid (reqName req) url cache \/
     exists rs,
       fst (postProperties w req cache) =
         storeSync w pid rs (registerEntry pid (reqName req) url cache)).
Proof.
  unfold postProperties.
  destruct (falsy (reqPropertyId req) || falsy (reqIcalUrl req)) eqn:F;
    [now left|].
  apply orb_false_iff in F as [F1 F2].
  destruct (reqPropertyId req) as [[|c pid]|]; try discriminate.
  destruct (reqIcalUrl req) as [[|c' url]|]; try discriminate.
  change (orElse (Some (c :: pid)) []) with (c :: pid).
  change (orElse (Some (c' :: url)) []) with (c' :: url).
  destruct (startsWith (lit "https://") (c' :: url)); [|now left].
  right. exists (c :: pid), (c' :: url). split; [reflexivity|].
  split; [reflexivity|].
  cbv beta iota zeta. unfold negb.
  destruct (returned (parseIcal w (c' :: url) (c :: pid) (reqName req))) as [rs|].
  - right. now exists rs.
  - now left.
Qed.

End InvariantFacts.



(* ------------------------------------------------------------------ *)
(** ** POST /properties, past the guards *)

Section RegisterRouteFacts.

Lemma validRequest_guards req pid url :
  validRequest req pid url ->
  falsy (reqPropertyId req) || falsy (reqIcalUrl req) = false /\
  orElse (reqPropertyId req) [] = pid /\
  orElse (reqIcalUrl req) [] = url /\
  startsWith (lit "https://") url = true.
Proof.
  intros (Hp & Hne & Hu & Hs). rewrite Hp, Hu.
  apply startsWith_spec in Hs as Hs'.
  destruct pid as [|c pid]; [contradiction|].
  destruct url as [|c' url]; [discriminate|].
  repeat split. exact Hs'.
Qed.

Lemma postProperties_valid w req cache pid url :
  validRequest req pid url ->
  postProperties w req cache =
    let cache1 := registerEntry pid (reqName req) url cache in
    match returned (parseIcal w url pid (reqName req)) with
    | Some reservations =>
        let cache2 := storeSync w pid reservations cache1 in
        (cache2,
         {| status := 200;
            body := Registered pid (reqName req)
                      (Z.of_nat (length reservations))
                      (lastSyncedOf pid cache2) |})
    | None =>
        (cache1,
         {| status := 500;
            body := ErrorBody (lit "Failed to fetch or parse iCal URL. Please check the URL and try again.") |})
    end.
Proof.
  intros Hv. destruct (validRequest_guards _ _ _ Hv) as (G & P & U & S).
  unfold postProperties. cbv zeta. rewrite G, P, U, S. reflexivity.
Qed.

Lemma get_registerEntry_same pid nm url (cache : Cache) :
  JsObject.get pid (registerEntry pid nm url cache) =
    Some {| Entry.icalUrl := url;
            Entry.name := orElse nm (lit "Property " ++ pid);
            Entry.reservations :=
              match JsObject.get pid cache with
              | Some e => Entry.reservations e
              | None => []
              end;
            Entry.lastSynced := None |}.
Proof. unfold registerEntry. apply get_set_same. Qed.

Lemma get_registerEntry_other pid q nm url (cache : Cache) :
  q <> pid ->
  JsObject.get q (registerEntry pid nm url cache) = JsObject.get q cache.
Proof. intros H. unfold registerEntry. now apply get_set_other. Qed.

End RegisterRouteFacts.



(** X4. A registration that passes the guards but whose feed cannot be
    fetched or parsed is answered with status 500, and yet the id stays
    registered: it is in the cache with the new url and name, lastSynced
    null, and the reservations it had before (none for a new id); no
    other entry has changed (for an id other than __proto__). *)
Theorem register_failure_keeps_entry w req cache pid url :
  validRequest req pid url -> storable pid ->
  returned (parseIcal w url pid (reqName req)) = None ->
  status (snd (postProperties w req cache)) = 500 /\
  JsObject.get pid (fst (postProperties w req cache)) =
    Some {| Entry.icalUrl := url;
            Entry.name := orElse (reqName req) (lit "Property " ++ pid);
            Entry.reservations :=
              match JsObject.get pid cache with
              | Some e => Entry.reservations e
              | None => []
              end;
            Entry.lastSynced := None |} /\
  (forall q, q <> pid ->
     JsObject.get q (fst (postProperties w req cache)) = JsObject.get q cache).
Proof.
  intros Hv _ Hr. rewrite (postProperties_valid _ _ _ _ _ Hv). cbv zeta.
  rewrite Hr. cbn [fst snd]. split; [reflexivity|]. split.
  - apply get_registerEntry_same.
  - intros q Hq. now apply get_registerEntry_other.
Qed.

Lemma register_failure_keeps_entry_witness :
  status (snd (postProperties Sample2.down Sample2.register2 Sample.cache1))
    = 500 /\
  JsObject.get (lit "2")
    (fst (postProperties Sample2.down Sample2.register2 Sample.cache1)) =
    Some {| Entry.icalUrl := Sample.url;
            Entry.name := orElse (reqName Sample2.register2)
                            (lit "Property " ++ lit "2");
            Entry.reservations :=
              match JsObject.get (lit "2") Sample.cache1 with
              | Some e => Entry.reservations e
              | None => []
              end;
            Entry.lastSynced := None |}.
Proof.
  split;
    apply (register_failure_keeps_entry Sample2.down Sample2.register2
             Sample.cache1 (lit "2") Sample.url);
    try reflexivity; try discriminate;
    (repeat split; [discriminate | now exists (lit "example.com/calendar.ics")]).
Defined.





(* ------------------------------------------------------------------ *)
(** ** The listing routes *)

Section ListingFacts.

Lemma statusList_statusOf (cache : Cache) : statusList cache = map statusOf cache.
Proof.
  unfold statusList. apply map_ext. now intros [pid entry].
Qed.

Lemma statusList_ids (cache : Cache) :
  map statusPropertyId (statusList cache) = JsObject.keys cache.
Proof.
  rewrite statusList_statusOf, map_map. unfold JsObject.keys.
  apply map_ext. now intros [pid entry].
Qed.

Lemma totalCount_statusOf (cache : Cache) :
  totalCount (map statusOf cache) =
    Z.of_nat (length (flat_map (fun p => Entry.reservations (snd p)) cache)).
Proof.
  induction cache as [|[pid entry] rest IH]; simpl; [reflexivity|].
  rewrite IH, length_app. lia.
Qed.

Lemma get_in (cache : Cache) pid e :
  JsObject.get pid cache = Some e -> In (pid, e) cache.
Proof.
  induction cache as [|[k v] rest IH]; simpl; [discriminate|].
  destruct (eqb k pid) eqn:E.
  - apply eqb_eq in E. intros H. injection H as <-. subst. now left.
  - intros H. right. now apply IH.
Qed.

End ListingFacts.

(** X6. Without a propertyId filter (absent or empty) [GET /reservations]
    returns the reservations of all the properties, property after
    property in the order of the cache, and their number is the sum of
    the reservationCount fields of the syncStatus list it returns with
    them. *)
Theorem reservations_unfiltered f cache :
  missing f ->
  exists rs,
    getReservations f cache =
      {| status := 200;
         body := ReservationList rs (map statusOf cache)
                   (Z.of_nat (length cache)) |} /\
    rs = flat_map (fun p => Entry.reservations (snd p)) cache /\
    Z.of_nat (length rs) = totalCount (map statusOf cache).
Proof.
  intros Hf. apply falsy_missing in Hf.
  exists (flat_map (fun p => Entry.reservations (snd p)) cache).
  split; [|split; [reflexivity | now rewrite totalCount_statusOf]].
  unfold getReservations. rewrite reservationsLoop_spec, Hf. simpl.
  unfold JsObject.keys. now rewrite length_map.
Qed.

Lemma reservations_unfiltered_witness :
  exists rs,
    getReservations (Some []) Sample.cache2 =
      {| status := 200;
         body := ReservationList rs (map statusOf Sample.cache2)
                   (Z.of_nat (length Sample.cache2)) |} /\
    rs = flat_map (fun p => Entry.reservations (snd p)) Sample.cache2 /\
    Z.of_nat (length rs) = totalCount (map statusOf Sample.cache2).
Proof.
  apply (reservations_unfiltered (Some []) Sample.cache2). now right.
Defined.

(** X7. [GET /properties] and [GET /reservations] (with any filter)
    report the same list: one status per registered property, in the
    order of the cache, carrying its id, name, lastSynced and the length
    of its reservations; the ids of the list are the keys of the cache
    and totalProperties is its length. *)
Theorem listings_agree f cache :
  exists rs st,
    body (getReservations f cache) =
      ReservationList rs st (Z.of_nat (length st)) /\
    getProperties cache = {| code := 200; reply := PropertiesReply st |} /\
    map statusPropertyId st = JsObject.keys cache /\
    (forall pid e, JsObject.get pid cache = Some e ->
       In {| statusPropertyId := pid;
             statusName := Entry.name e;
             statusLastSynced := Entry.lastSynced e;
             reservationCount := Z.of_nat (length (Entry.reservations e)) |} st).
Proof.
  unfold getReservations, getProperties.
  rewrite reservationsLoop_spec. cbn [app].
  eexists. exists (statusList cache). split; [|split; [|split]].
  - rewrite statusList_statusOf. cbn [body]. f_equal.
    unfold JsObject.keys. now rewrite !length_map.
  - reflexivity.
  - apply statusList_ids.
  - intros pid e H. apply get_in in H. rewrite statusList_statusOf.
    apply (in_map statusOf) in H. exact H.
Qed.

(* ------------------------------------------------------------------ *)
(** ** POST /sync and repeated syncs *)

Section ResyncFacts.

(** The outcome of a parse depends on the world only through the fetch
    of the url. *)
Lemma parseIcal_ext w1 w2 url pid nm1 nm2 :
  fromURL w1 url = fromURL w2 url ->
  parseIcal w1 url pid nm1 = parseIcal w2 url pid nm2.
Proof. intros H. unfold parseIcal. now rewrite H. Qed.

(** What [syncAll] does to an entry keeps its url and its name. *)
Lemma syncAll_entry world cache :
  NoDup (JsObject.keys cache) ->
  exists cache',
    syncAll world cache = Normal cache' /\
    JsObject.keys cache' = JsObject.keys cache /\
    forall pid e, JsObject.get pid cache = Some e ->
      exists e',
        JsObject.get pid cache' = Some e' /\
        Entry.icalUrl e' = Entry.icalUrl e /\ Entry.name e' = Entry.name e /\
        match returned (parseIcal (world pid) (Entry.icalUrl e) pid
                          (Some (Entry.name e))) with
        | Some rs => Entry.reservations e' = rs /\
                     Entry.lastSynced e' = Some (isoString (now (world pid)))
        | None => e' = e
        end.
Proof.
  intros ND. unfold syncAll.
  destruct (syncLoop_spec world (JsObject.keys cache) cache ND)
    as (c' & H & K & _ & R); [tauto|].
  exists c'. split; [exact H|]. split; [exact K|].
  intros pid e He.
  assert (Hin : In pid (JsObject.keys cache)).
  { destruct (in_dec (list_eq_dec Z.eq_dec) pid (JsObject.keys cache))
      as [Hin | Hout]; [exact Hin|].
    apply get_not_in_keys in Hout. congruence. }
  destruct (R pid e Hin He) as [RF RS].
  destruct (returned (parseIcal (world pid) (Entry.icalUrl e) pid
                        (Some (Entry.name e)))) as [rs|].
  - eexists. split; [apply RS; reflexivity|]. now repeat split.
  - exists e. split; [now apply RF|]. now repeat split.
Qed.

End ResyncFacts.



(** X9. Syncing again does not change what is cached as long as the
    feeds answer the same: after a second [syncAll] in a world whose
    fetches give what they gave in the first, every property has the
    reservations, url and name it had after the first; only lastSynced
    may move. When the clocks agree too, the cache is the same. *)
Theorem resync_keeps_reservations world1 world2 cache cache1 :
  NoDup (JsObject.keys cache) ->
  (forall pid url, fromURL (world2 pid) url = fromURL (world1 pid) url) ->
  syncAll world1 cache = Normal cache1 ->
  exists cache2,
    syncAll world2 cache1 = Normal cache2 /\
    JsObject.keys cache2 = JsObject.keys cache1 /\
    (forall pid e1, JsObject.get pid cache1 = Some e1 ->
       exists e2, JsObject.get pid cache2 = Some e2 /\
         Entry.reservations e2 = Entry.reservations e1 /\
         Entry.icalUrl e2 = Entry.icalUrl e1 /\
         Entry.name e2 = Entry.name e1) /\
    ((forall pid, now (world2 pid) = now (world1 pid)) -> cache2 = cache1).
Proof.
  intros ND Hw H1.
  destruct (syncAll_entry world1 cache ND) as (c1 & H1' & K1 & R1).
  rewrite H1 in H1'. injection H1' as <-.
  assert (ND1 : NoDup (JsObject.keys cache1)) by now rewrite K1.
  destruct (syncAll_entry world2 cache1 ND1) as (c2 & H2 & K2 & R2).
  exists c2. split; [exact H2|]. split; [exact K2|].
  assert (Hstep : forall pid e1, JsObject.get pid cache1 = Some e1 ->
            exists e2, JsObject.get pid c2 = Some e2 /\
              Entry.reservations e2 = Entry.reservations e1 /\
              Entry.icalUrl e2 = Entry.icalUrl e1 /\
              Entry.name e2 = Entry.name e1 /\
              (now (world2 pid) = now (world1 pid) -> e2 = e1)).
  { intros pid e1 He1.
    assert (Hin : In pid (JsObject.keys cache)).
    { rewrite <- K1.
      destruct (in_dec (list_eq_dec Z.eq_dec) pid (JsObject.keys cache1))
        as [Hin | Hout]; [exact Hin|].
      apply get_not_in_keys in Hout. congruence. }
    destruct (get_in_keys pid cache Hin) as [e He].
    destruct (R1 pid e He) as (e1' & He1' & U1 & N1 & O1).
    rewrite He1 in He1'. injection He1' as <-.
    destruct (R2 pid e1 He1) as (e2 & He2 & U2 & N2 & O2).
    exists e2. split; [exact He2|].
    rewrite U1, N1 in O2.
    rewrite (parseIcal_ext (world2 pid) (world1 pid) (Entry.icalUrl e) pid
               (Some (Entry.name e)) (Some (Entry.name e)) (Hw pid _)) in O2.
    destruct (returned (parseIcal (world1 pid) (Entry.icalUrl e) pid
                          (Some (Entry.name e)))) as [rs|].
    - destruct O1 as [Rs1 L1]. destruct O2 as [Rs2 L2].
      repeat split; try congruence.
      intros Hn. destruct e1, e2. simpl in *. rewrite Hn in L2. congruence.
    - subst e2. now repeat split. }
  split.
  - intros pid e1 He1. destruct (Hstep pid e1 He1) as (e2 & A & B & C & D & _).
    now exists e2.
  - intros Hn. symmetry. apply object_ext; [exact ND1 | now rewrite K2 |].
    intros pid. destruct (JsObject.get pid cache1) as [e1|] eqn:He1.
    + destruct (Hstep pid e1 He1) as (e2 & A & _ & _ & _ & E).
      rewrite A. f_equal. symmetry. apply E, Hn.
    + apply get_none_not_in in He1. rewrite <- K2 in He1.
      symmetry. now apply get_not_in_keys.
Qed.

Lemma resync_keeps_reservations_witness :
  exists cache1 cache2,
    syncAll Sample.mixedWorld Sample.cache2 = Normal cache1 /\
    syncAll Sample.mixedWorld cache1 = Normal cache2 /\
    cache2 = cache1.
Proof.
  assert (ND : NoDup (JsObject.keys Sample.cache2)).
  { simpl. repeat constructor; simpl; [|tauto].
    intros [H | []]. discriminate. }
  eexists.
  assert (H1 : syncAll Sample.mixedWorld Sample.cache2 = Normal
                 (storeSync (Sample.mixedWorld (lit "cabin")) (lit "cabin")
                    [{| Reservation.id := lit "r1";
                        Reservation.propertyId := lit "cabin";
                        Reservation.guestName := lit "Airbnb (HM1234)";
                        Reservation.checkIn := lit "2024-03-01";
                        Reservation.checkOut := lit "2024-03-03";
                        Reservation.nights := Num 2;
                        Reservation.total := Num 0;
                        Reservation.source := lit "airbnb";
                        Reservation.summary := lit "Reserved - Airbnb (HM1234)" |}]
                    Sample.cache2))
    by (vm_compute; reflexivity).
  destruct (resync_keeps_reservations Sample.mixedWorld Sample.mixedWorld
              Sample.cache2 _ ND (fun _ _ => eq_refl) H1)
    as (c2 & H2 & _ & _ & E).
  exists c2. split; [exact H1|]. split; [exact H2|]. now apply E.
Defined.

(* ------------------------------------------------------------------ *)
(** ** What a parsed reservation looks like *)

Section TrimFacts.

Lemma trimStart_split (s : jsstring) :
  exists pre, s = pre ++ trimStart s /\ forallb isSpace pre = true.
Proof.
  induction s as [|c s IH]; simpl.
  - now exists [].
  - destruct (isSpace c) eqn:E.
    + destruct IH as (pre & H & Hp). exists (c :: pre). simpl.
      rewrite E, Hp. split; [now rewrite <- H | reflexivity].
    + now exists [].
Qed.

Lemma trimStart_head (s : jsstring) c rest :
  trimStart s = c :: rest -> isSpace c = false.
Proof.
  induction s as [|x s IH]; simpl; [discriminate|].
  destruct (isSpace x) eqn:E; [exact IH|].
  intros H. injection H as <- _. exact E.
Qed.

Lemma trimEnd_split (s : jsstring) :
  exists suf, s = trimEnd s ++ suf /\ forallb isSpace suf = true.
Proof.
  unfold trimEnd. destruct (trimStart_split (rev s)) as (pre & H & Hp).
  exists (rev pre). split.
  - rewrite <- rev_app_distr, <- H. now rewrite rev_involutive.
  - now rewrite forallb_rev.
Qed.

Lemma trimEnd_last (s : jsstring) c rest :
  trimEnd s = rest ++ [c] -> isSpace c = false.
Proof.
  unfold trimEnd. intros H. apply (f_equal (@rev Z)) in H.
  rewrite rev_involutive, rev_app_distr in H. simpl in H.
  eapply trimStart_head. exact H.
Qed.

(** [trim] takes white space off both ends and nothing else. *)
Lemma trim_split (s : jsstring) :
  exists pre suf, s = pre ++ trim s ++ suf /\
    forallb isSpace pre = true /\ forallb isSpace suf = true.
Proof.
  unfold trim. destruct (trimStart_split s) as (pre & H & Hp).
  destruct (trimEnd_split (trimStart s)) as (suf & H' & Hs).
  exists pre, suf. split; [|now split]. now rewrite <- H', <- H.
Qed.

Lemma trim_head (s : jsstring) c rest :
  trim s = c :: rest -> isSpace c = false.
Proof.
  unfold trim. intros H.
  destruct (trimEnd_split (trimStart s)) as (suf & H' & _).
  rewrite H in H'. simpl in H'. eapply trimStart_head. exact H'.
Qed.

Lemma trim_last (s : jsstring) c rest :
  trim s = rest ++ [c] -> isSpace c = false.
Proof. unfold trim. apply trimEnd_last. Qed.

Lemma trim_dot (s : jsstring) :
  forallb dot s = true -> forallb dot (trim s) = true.
Proof.
  intros H. destruct (trim_split s) as (pre & suf & Hs & _).
  rewrite Hs, !forallb_app in H.
  apply andb_true_iff in H as [_ H]. now apply andb_true_iff in H as [H _].
Qed.

End TrimFacts.

(** X10. The guest name of an emitted reservation is clean: it holds no
    line terminator, and it neither begins nor ends with white space. *)
Theorem guestName_clean pid e r :
  produces pid e r ->
  forallb dot (Reservation.guestName r) = true /\
  (forall c rest, Reservation.guestName r = c :: rest -> isSpace c = false) /\
  (forall c rest, Reservation.guestName r = rest ++ [c] -> isSpace c = false).
Proof.
  intros P.
  apply processEvent_inv in P as (_ & a & b & g & i & _ & _ & G & _ & ->).
  cbn [Reservation.guestName].
  assert (H : (exists t, forallb dot t = true /\ g = trim t) \/ g = fallbackGuest).
  { apply extractGuestName_spec in G
      as [(t & Ht & ->) | [(_ & d & t & _ & Ht & ->) | (_ & _ & ->)]].
    - left. exists t. split; [|reflexivity].
      destruct Ht as (? & ? & ? & ? & ? & ? & _ & _ & _ & _ & _ & _ & Hd).
      exact Hd.
    - left. exists t. split; [|reflexivity].
      destruct Ht as (? & ? & ? & ? & _ & _ & _ & _ & Hd). exact Hd.
    - now right. }
  destruct H as [(t & Hd & ->) | ->].
  - split; [now apply trim_dot|]. split.
    + intros c rest. apply trim_head.
    + intros c rest. apply trim_last.
  - split; [reflexivity|]. split.
    + intros c rest H. injection H as <- _. reflexivity.
    + intros c rest H. apply (f_equal (@rev Z)) in H.
      rewrite rev_app_distr in H. simpl in H. injection H as <- _. reflexivity.
Qed.

Lemma guestName_clean_witness :
  forallb dot (Reservation.guestName Sample.bookedReservation) = true.
Proof.
  assert (P : produces (lit "1") Sample.booked Sample.bookedReservation)
    by (vm_compute; reflexivity).
  exact (proj1 (guestName_clean (lit "1") Sample.booked
                  Sample.bookedReservation P)).
Defined.

Section OutputFacts.

Lemma Forall2_in_right {A B} (R : A -> B -> Prop) l1 l2 y :
  Forall2 R l1 l2 -> In y l2 -> exists x, In x l1 /\ R x y.
Proof.
  induction 1 as [|x y' l1 l2 Hr _ IH]; simpl; [tauto|].
  intros [<- | Hin].
  - exists x. split; [now left | exact Hr].
  - destruct (IH Hin) as (x' & Hx & Hr'). exists x'. split; [now right | exact Hr'].
Qed.

Lemma Forall2_in_left {A B} (R : A -> B -> Prop) l1 l2 x :
  Forall2 R l1 l2 -> In x l1 -> exists y, In y l2 /\ R x y.
Proof.
  induction 1 as [|x' y l1 l2 Hr _ IH]; simpl; [tauto|].
  intros [<- | Hin].
  - exists y. split; [now left | exact Hr].
  - destruct (IH Hin) as (y' & Hy & Hr'). exists y'. split; [now right | exact Hr'].
Qed.

End OutputFacts.

(** X11. Every reservation [parseIcal] returns comes from an entry of
    the feed of type VEVENT whose summary is not a blackout: its summary
    field is that summary (the empty string when the event has none), it
    contains no "not available", and no "airbnb" without "reserved"; its
    propertyId is the one the parser was called with, its total is 0 and
    its source is "airbnb". *)
Theorem output_is_reservations_only w icalUrl pid nm events rs r :
  fromURL w icalUrl = Normal events ->
  returned (parseIcal w icalUrl pid nm) = Some rs ->
  In r rs ->
  (exists key e, In (key, e) events /\
     Event.type e = lit "VEVENT" /\
     Reservation.summary r = orElse (Event.summary e) []) /\
  ~ Blackout (Reservation.summary r) /\
  Reservation.propertyId r = pid /\
  Reservation.total r = Num 0 /\
  Reservation.source r = lit "airbnb".
Proof.
  intros Hf Hr Hin.
  pose proof (parseIcal_produces _ _ _ _ _ _ Hf Hr) as F.
  destruct (Forall2_in_right _ _ _ _ F Hin) as (e & He & P).
  unfold emitted in He. apply filter_In in He as [He Em].
  apply in_map_iff in He as ([key e'] & <- & Hk). simpl in *.
  apply processEvent_inv in P as (_ & a & b & g & i & _ & _ & _ & _ & ->).
  cbn [Reservation.summary Reservation.propertyId Reservation.total
       Reservation.source].
  unfold emits in Em. apply andb_true_iff in Em as [Em _].
  apply andb_true_iff in Em as [T B]. apply eqb_eq in T.
  apply negb_true_iff in B.
  split; [now exists key, e'|]. split; [|now repeat split].
  intros Hb. apply isBlocked_spec in Hb. congruence.
Qed.

Lemma output_is_reservations_only_witness :
  ~ Blackout (Reservation.summary Sample.bookedReservation) /\
  Reservation.propertyId Sample.bookedReservation = lit "1".
Proof.
  assert (H : returned (parseIcal (Sample.serving Sample.bookedFeed 0)
                Sample.url (lit "1") None) = Some [Sample.bookedReservation])
    by (vm_compute; reflexivity).
  destruct (output_is_reservations_only (Sample.serving Sample.bookedFeed 0)
              Sample.url (lit "1") None Sample.bookedFeed
              [Sample.bookedReservation] Sample.bookedReservation
              eq_refl H (or_introl eq_refl)) as (_ & B & P & _).
  now split.
Defined.

(** X12. The nights of a reservation against the calendar: with the day
    numbers (UTC) of check-in and check-out, nights is their difference
    when both instants fall at the same time of day (as for date-only
    events), and differs from it by at most one otherwise; it is never
    negative when check-out is not before check-in. *)
Theorem nights_and_days pid e r a b :
  produces pid e r ->
  Event.start e = Some (Instant a) -> Event.end_ e = Some (Instant b) ->
  exists n,
    Reservation.nights r = Num n /\
    dayNumber b - dayNumber a - 1 <= n <= dayNumber b - dayNumber a + 1 /\
    (timeOfDay a = timeOfDay b -> n = dayNumber b - dayNumber a) /\
    (a <= b -> 0 <= n).
Proof.
  intros P Ha Hb.
  apply processEvent_inv in P as (_ & a' & b' & g & i & Ha' & Hb' & _ & _ & ->).
  rewrite Ha in Ha'. rewrite Hb in Hb'. injection Ha' as <-. injection Hb' as <-.
  exists ((2 * (b - a) + msPerDay) / (2 * msPerDay)).
  split; [reflexivity|].
  unfold dayNumber, timeOfDay, msPerDay.
  change (1000 * 60 * 60 * 24) with 86400000.
  change (2 * 86400000) with 172800000.
  pose proof (Z.div_mod (2 * (b - a) + 86400000) 172800000 ltac:(lia)) as E.
  pose proof (Z.mod_pos_bound (2 * (b - a) + 86400000) 172800000 ltac:(lia)) as B.
  pose proof (Z.div_mod a 86400000 ltac:(lia)) as Ea.
  pose proof (Z.mod_pos_bound a 86400000 ltac:(lia)) as Ba.
  pose proof (Z.div_mod b 86400000 ltac:(lia)) as Eb.
  pose proof (Z.mod_pos_bound b 86400000 ltac:(lia)) as Bb.
  repeat split; try lia.
Qed.

Lemma nights_and_days_witness :
  exists n,
    Reservation.nights Sample.bookedReservation = Num n /\
    dayNumber Sample.mar3 - dayNumber Sample.mar1 - 1 <= n
      <= dayNumber Sample.mar3 - dayNumber Sample.mar1 + 1 /\
    (timeOfDay Sample.mar1 = timeOfDay Sample.mar3 ->
     n = dayNumber Sample.mar3 - dayNumber Sample.mar1) /\
    (Sample.mar1 <= Sample.mar3 -> 0 <= n).
Proof.
  apply (nights_and_days (lit "1") Sample.booked Sample.bookedReservation
           Sample.mar1 Sample.mar3).
  - vm_compute. reflexivity.
  - reflexivity.
  - reflexivity.
Defined.


(* ------------------------------------------------------------------ *)
(** ** The text of a date *)

Section DateFacts.

Lemma digits_length w : forall n, length (digits w n) = w.
Proof.
  induction w as [|w IH]; intros n; simpl; [reflexivity|].
  rewrite length_app, IH. simpl. lia.
Qed.

Lemma digits_are_digits w : forall n c,
  In c (digits w n) -> 48 <= c <= 57.
Proof.
  induction w as [|w IH]; intros n c; cbn [digits]; [intros []|].
  rewrite in_app_iff. intros [H | [<- | []]].
  - eapply IH. exact H.
  - pose proof (Z.mod_pos_bound n 10 ltac:(lia)). lia.
Qed.

Lemma splitHead_app sep (l r : jsstring) :
  (forall c, In c l -> c <> sep) -> splitHead sep (l ++ sep :: r) = l.
Proof.
  induction l as [|x l IH]; simpl; intros H.
  - now rewrite Z.eqb_refl.
  - destruct (x =? sep) eqn:E.
    + apply Z.eqb_eq in E. exfalso. apply (H x); [now left | exact E].
    + f_equal. apply IH. intros c Hc. apply H. now right.
Qed.

Lemma yearString_chars y c :
  In c (yearString y) -> c = 43 \/ c = 45 \/ 48 <= c <= 57.
Proof.
  unfold yearString.
  destruct ((0 <=? y) && (y <=? 9999)); [|destruct (y <? 0)]; cbn [In].
  - intros H. right; right. eapply digits_are_digits. exact H.
  - intros [<- | H]; [tauto|]. right; right. eapply digits_are_digits. exact H.
  - intros [<- | H]; [tauto|]. right; right. eapply digits_are_digits. exact H.
Qed.

(** The month and the day of month the calendar computation gives are
    in range. *)
Lemma civil_bounds day y m d :
  civil day = (y, m, d) -> 1 <= m <= 12 /\ 1 <= d <= 31.
Proof.
  unfold civil.
  set (z := day + 719468).
  set (era := z / 146097).
  set (doe := z - era * 146097).
  assert (Hdoe : 0 <= doe <= 146096).
  { subst doe era. pose proof (Z.div_mod z 146097 ltac:(lia)).
    pose proof (Z.mod_pos_bound z 146097 ltac:(lia)). lia. }
  clearbody doe.
  set (yoe := (doe - doe / 1460 + doe / 36524 - doe / 146096) / 365).
  set (doy := doe - (365 * yoe + yoe / 4 - yoe / 100)).
  assert (Hdoy : 0 <= doy <= 365).
  { subst doy yoe. Z.to_euclidean_division_equations; lia. }
  clearbody doy.
  set (mp := (5 * doy + 2) / 153).
  assert (Hmp : 0 <= mp <= 11)
    by (subst mp; Z.to_euclidean_division_equations; lia).
  assert (Hd : 1 <= doy - (153 * mp + 2) / 5 + 1 <= 31).
  { subst mp. Z.to_euclidean_division_equations; lia. }
  intros H.
  assert (Hm : (if mp <? 10 then mp + 3 else mp - 9) = m) by congruence.
  assert (Hdd : doy - (153 * mp + 2) / 5 + 1 = d) by congruence.
  clear H. rewrite <- Hm, <- Hdd.
  destruct (mp <? 10) eqn:E;
    [apply Z.ltb_lt in E | apply Z.ltb_ge in E]; split; lia.
Qed.

(** The year of an instant between the start of year 0 and the end of
    year 9999. *)
Lemma civil_year_range t y m d :
  fourDigitYear t -> civil (t / msPerDay) = (y, m, d) -> 0 <= y <= 9999.
Proof.
  unfold fourDigitYear, msPerDay.
  change (1000 * 60 * 60 * 24) with 86400000. intros Ht.
  assert (Hday : -719528 <= t / 86400000 <= 2932896).
  { Z.to_euclidean_division_equations; lia. }
  generalize dependent (t / 86400000). clear t Ht. intros day Hday.
  unfold civil.
  set (z := day + 719468).
  assert (Hz : -60 <= z <= 3652364) by (subst z; lia).
  clearbody z.
  set (era := z / 146097).
  set (doe := z - era * 146097).
  assert (Hera : -1 <= era <= 24)
    by (subst era; Z.to_euclidean_division_equations; lia).
  assert (Hdoe : 0 <= doe <= 146096 /\
                 (era = -1 -> 146037 <= doe) /\ (era = 24 -> doe <= 146036)).
  { subst doe era. Z.to_euclidean_division_equations; lia. }
  clearbody doe. clearbody era.
  set (yoe := (doe - doe / 1460 + doe / 36524 - doe / 146096) / 365).
  set (doy := doe - (365 * yoe + yoe / 4 - yoe / 100)).
  assert (Hyoe : 0 <= yoe <= 399 /\ 0 <= doy <= 365 /\
                 (146037 <= doe -> yoe = 399 /\ 306 <= doy) /\
                 (doe <= 146036 -> yoe = 399 -> doy <= 305)).
  { subst doy yoe. Z.to_euclidean_division_equations; lia. }
  clearbody doy. clearbody yoe.
  set (mp := (5 * doy + 2) / 153).
  assert (Hmp : 0 <= mp <= 11 /\ (306 <= doy -> 10 <= mp) /\
                (doy <= 305 -> mp <= 9))
    by (subst mp; Z.to_euclidean_division_equations; lia).
  clearbody mp.
  intros H.
  assert (Hy : yoe + era * 400 +
               (if (if mp <? 10 then mp + 3 else mp - 9) <=? 2 then 1 else 0) = y)
    by congruence.
  clear H. rewrite <- Hy.
  destruct (mp <? 10) eqn:E;
    [apply Z.ltb_lt in E | apply Z.ltb_ge in E].
  - destruct (mp + 3 <=? 2) eqn:E2;
      [apply Z.leb_le in E2 | apply Z.leb_gt in E2]; lia.
  - destruct (mp - 9 <=? 2) eqn:E2;
      [apply Z.leb_le in E2 | apply Z.leb_gt in E2]; lia.
Qed.

(** [toISOString().split("T")[0]] is the date part of the text. *)
Lemma date_part t :
  splitHead 84 (isoString t) =
    let '(y, m, d) := civil (t / msPerDay) in
    yearString y ++ [45] ++ digits 2 m ++ [45] ++ digits 2 d.
Proof.
  unfold isoString. destruct (civil (t / msPerDay)) as [[y m] d].
  rewrite !app_assoc. rewrite <- !app_assoc.
  replace (yearString y ++ [45] ++ digits 2 m ++ [45] ++ digits 2 d ++ [84] ++
           digits 2 (t mod msPerDay / 3600000) ++ [58] ++
           digits 2 (t mod msPerDay / 60000 mod 60) ++ [58] ++
           digits 2 (t mod msPerDay / 1000 mod 60) ++ [46] ++
           digits 3 (t mod msPerDay mod 1000) ++ [90])
    with ((yearString y ++ [45] ++ digits 2 m ++ [45] ++ digits 2 d) ++ 84 ::
          (digits 2 (t mod msPerDay / 3600000) ++ [58] ++
           digits 2 (t mod msPerDay / 60000 mod 60) ++ [58] ++
           digits 2 (t mod msPerDay / 1000 mod 60) ++ [46] ++
           digits 3 (t mod msPerDay mod 1000) ++ [90]))
    by (now rewrite <- !app_assoc).
  apply splitHead_app. intros c Hc.
  rewrite !in_app_iff in Hc.
  destruct Hc as [H | [[<- | []] | [H | [[<- | []] | H]]]]; try lia.
  - apply yearString_chars in H. lia.
  - apply digits_are_digits in H. lia.
  - apply digits_are_digits in H. lia.
Qed.

End DateFacts.

(** X14. The checkIn and checkOut of a reservation are dates without a
    time of day: for instants in the years 0 to 9999 each is exactly ten
    code units, a four-digit year, a two-digit month from 01 to 12 and a
    two-digit day from 01 to 31, separated by hyphens. *)
Theorem dates_are_date_only pid e r a b :
  produces pid e r ->
  Event.start e = Some (Instant a) -> Event.end_ e = Some (Instant b) ->
  fourDigitYear a -> fourDigitYear b ->
  (exists y m d, Reservation.checkIn r = dateText y m d /\
     0 <= y <= 9999 /\ 1 <= m <= 12 /\ 1 <= d <= 31) /\
  (exists y m d, Reservation.checkOut r = dateText y m d /\
     0 <= y <= 9999 /\ 1 <= m <= 12 /\ 1 <= d <= 31) /\
  length (Reservation.checkIn r) = 10%nat /\
  length (Reservation.checkOut r) = 10%nat.
Proof.
  intros P Ha Hb Ra Rb.
  apply processEvent_inv in P as (_ & a' & b' & g & i & Ha' & Hb' & _ & _ & ->).
  rewrite Ha in Ha'. rewrite Hb in Hb'. injection Ha' as <-. injection Hb' as <-.
  cbn [Reservation.checkIn Reservation.checkOut].
  assert (F : forall t, fourDigitYear t ->
            exists y m d, splitHead 84 (isoString t) = dateText y m d /\
              0 <= y <= 9999 /\ 1 <= m <= 12 /\ 1 <= d <= 31).
  { intros t Rt. rewrite date_part.
    destruct (civil (t / msPerDay)) as [[y m] d] eqn:C.
    pose proof (civil_year_range t y m d Rt C) as Hy.
    destruct (civil_bounds _ _ _ _ C) as [Hm Hd].
    exists y, m, d. split; [|tauto].
    unfold dateText, yearString.
    destruct (0 <=? y) eqn:E1; [|apply Z.leb_gt in E1; lia].
    destruct (y <=? 9999) eqn:E2; [|apply Z.leb_gt in E2; lia].
    reflexivity. }
  destruct (F a Ra) as (y1 & m1 & d1 & E1 & B1).
  destruct (F b Rb) as (y2 & m2 & d2 & E2 & B2).
  split; [now exists y1, m1, d1|]. split; [now exists y2, m2, d2|].
  rewrite E1, E2. unfold dateText.
  rewrite !length_app, !digits_length. simpl. now split.
Qed.

Lemma dates_are_date_only_witness :
  length (Reservation.checkIn Sample.bookedReservation) = 10%nat /\
  length (Reservation.checkOut Sample.bookedReservation) = 10%nat.
Proof.
  assert (P : produces (lit "1") Sample.booked Sample.bookedReservation)
    by (vm_compute; reflexivity).
  assert (R1 : fourDigitYear Sample.mar1) by (vm_compute; split; discriminate).
  assert (R3 : fourDigitYear Sample.mar3) by (vm_compute; split; discriminate).
  destruct (dates_are_date_only (lit "1") Sample.booked Sample.bookedReservation
              Sample.mar1 Sample.mar3 P eq_refl eq_refl R1 R3)
    as (_ & _ & L1 & L2).
  split; [exact L1 | exact L2].
Defined.

(* ------------------------------------------------------------------ *)
(** ** The ISO text determines the instant *)

Section IsoFacts.

Lemma app_inj_length {A} (l1 l2 t1 t2 : list A) :
  length l1 = length l2 -> l1 ++ t1 = l2 ++ t2 -> l1 = l2 /\ t1 = t2.
Proof.
  revert l2. induction l1 as [|x l1 IH]; intros [|y l2] L H;
    try discriminate; simpl in *.
  - now split.
  - injection L as L. injection H as -> H.
    destruct (IH _ L H) as [-> ->]. now split.
Qed.

Lemma cons_inv {A} (x y : A) (l l' : list A) :
  x :: l = y :: l' -> x = y /\ l = l'.
Proof. intros H. now inversion H. Qed.

Lemma digits_inj w : forall n n',
  0 <= n < 10 ^ Z.of_nat w -> 0 <= n' < 10 ^ Z.of_nat w ->
  digits w n = digits w n' -> n = n'.
Proof.
  induction w as [|w IH]; intros n n' Hn Hn' H.
  - change (10 ^ Z.of_nat 0) with 1 in *. lia.
  - cbn [digits] in H. apply app_inj_tail in H as [H Hd].
    rewrite Nat2Z.inj_succ, Z.pow_succ_r in Hn, Hn' by lia.
    assert (Hq : n / 10 = n' / 10).
    { apply IH; [| |exact H]; Z.to_euclidean_division_equations; nia. }
    Z.to_euclidean_division_equations; lia.
Qed.

Lemma yearString_inj y y' :
  -1000000 < y < 1000000 -> -1000000 < y' < 1000000 ->
  yearString y = yearString y' -> y = y'.
Proof.
  unfold yearString. intros Hy Hy' H.
  destruct ((0 <=? y) && (y <=? 9999)) eqn:A;
    destruct ((0 <=? y') && (y' <=? 9999)) eqn:A'.
  - apply andb_true_iff in A as [A1 A2]. apply andb_true_iff in A' as [A1' A2'].
    apply Z.leb_le in A1, A2, A1', A2'.
    apply (digits_inj 4); [change (10 ^ Z.of_nat 4) with 10000; lia ..| exact H].
  - apply (f_equal (@length Z)) in H.
    destruct (y' <? 0); cbn [length] in H; rewrite !digits_length in H;
      discriminate.
  - apply (f_equal (@length Z)) in H.
    destruct (y <? 0); cbn [length] in H; rewrite !digits_length in H;
      discriminate.
  - destruct (y <? 0) eqn:B; destruct (y' <? 0) eqn:B';
      try (apply cons_inv in H as [H _]; discriminate).
    + apply cons_inv in H as [_ H]. apply Z.ltb_lt in B, B'.
      assert (- y = - y'); [|lia].
      apply (digits_inj 6); [change (10 ^ Z.of_nat 6) with 1000000; lia ..| exact H].
    + apply cons_inv in H as [_ H]. apply Z.ltb_ge in B, B'.
      apply (digits_inj 6); [change (10 ^ Z.of_nat 6) with 1000000; lia ..| exact H].
Qed.

(** How the calendar computation cuts a day number. *)
Lemma civil_parts day :
  exists era yoe doy mp,
    0 <= yoe <= 399 /\ 0 <= doy <= 365 /\ 0 <= mp <= 11 /\
    153 * mp <= 5 * doy + 2 < 153 * mp + 153 /\
    day + 719468 = era * 146097 + doy + 365 * yoe + yoe / 4 - yoe / 100 /\
    era = (day + 719468) / 146097 /\
    civil day =
      (yoe + era * 400 +
         (if (if mp <? 10 then mp + 3 else mp - 9) <=? 2 then 1 else 0),
       if mp <? 10 then mp + 3 else mp - 9,
       doy - (153 * mp + 2) / 5 + 1).
Proof.
  unfold civil.
  set (z := day + 719468).
  set (era := z / 146097).
  set (doe := z - era * 146097).
  assert (Hdoe : 0 <= doe <= 146096).
  { subst doe era. pose proof (Z.div_mod z 146097 ltac:(lia)).
    pose proof (Z.mod_pos_bound z 146097 ltac:(lia)). lia. }
  assert (Hz : z = era * 146097 + doe) by (subst doe; lia).
  clearbody doe.
  set (yoe := (doe - doe / 1460 + doe / 36524 - doe / 146096) / 365).
  set (doy := doe - (365 * yoe + yoe / 4 - yoe / 100)).
  assert (Hy : 0 <= yoe <= 399 /\ 0 <= doy <= 365).
  { subst doy yoe. Z.to_euclidean_division_equations; lia. }
  assert (Hdoy : doe = doy + 365 * yoe + yoe / 4 - yoe / 100)
    by (subst doy; lia).
  clearbody doy. clearbody yoe.
  set (mp := (5 * doy + 2) / 153).
  assert (Hmp : 0 <= mp <= 11 /\ 153 * mp <= 5 * doy + 2 < 153 * mp + 153)
    by (subst mp; Z.to_euclidean_division_equations; lia).
  clearbody mp.
  exists era, yoe, doy, mp. repeat split; try tauto; try lia.
Qed.

Lemma civil_inj day1 day2 : civil day1 = civil day2 -> day1 = day2.
Proof.
  destruct (civil_parts day1)
    as (era1 & yoe1 & doy1 & mp1 & Y1 & D1 & M1 & Q1 & Z1 & _ & ->).
  destruct (civil_parts day2)
    as (era2 & yoe2 & doy2 & mp2 & Y2 & D2 & M2 & Q2 & Z2 & _ & ->).
  intros H.
  assert (Hm : (if mp1 <? 10 then mp1 + 3 else mp1 - 9) =
               (if mp2 <? 10 then mp2 + 3 else mp2 - 9)) by congruence.
  assert (Hmp : mp1 = mp2).
  { destruct (mp1 <? 10) eqn:E1; destruct (mp2 <? 10) eqn:E2;
      rewrite ?Z.ltb_lt, ?Z.ltb_ge in *; lia. }
  subst mp2.
  assert (Hd : doy1 - (153 * mp1 + 2) / 5 + 1 = doy2 - (153 * mp1 + 2) / 5 + 1)
    by congruence.
  assert (Hdoy : doy1 = doy2) by lia. subst doy2.
  assert (Hy : yoe1 + era1 * 400 = yoe2 + era2 * 400).
  { assert (Hy : yoe1 + era1 * 400 +
                 (if (if mp1 <? 10 then mp1 + 3 else mp1 - 9) <=? 2 then 1 else 0) =
                 yoe2 + era2 * 400 +
                 (if (if mp1 <? 10 then mp1 + 3 else mp1 - 9) <=? 2 then 1 else 0))
      by congruence.
    lia. }
  assert (He : era1 = era2 /\ yoe1 = yoe2) by lia.
  destruct He as [<- <-]. lia.
Qed.

(** The year of an instant a Date can hold has at most six digits. *)
Lemma civil_year_six_digits t y m d :
  dateRange t -> civil (t / msPerDay) = (y, m, d) -> -1000000 < y < 1000000.
Proof.
  unfold dateRange, msPerDay.
  change (1000 * 60 * 60 * 24) with 86400000. intros Ht.
  assert (Hday : -100000000 <= t / 86400000 <= 100000000).
  { Z.to_euclidean_division_equations; lia. }
  generalize dependent (t / 86400000). clear t Ht. intros day Hday.
  destruct (civil_parts day)
    as (era & yoe & doy & mp & Y & D & M & Q & Z0 & E & ->).
  assert (He : -1000 <= era <= 1000).
  { subst era. Z.to_euclidean_division_equations; lia. }
  intros H.
  assert (Hy : yoe + era * 400 +
               (if (if mp <? 10 then mp + 3 else mp - 9) <=? 2 then 1 else 0) = y)
    by congruence.
  rewrite <- Hy.
  destruct ((if mp <? 10 then mp + 3 else mp - 9) <=? 2); lia.
Qed.

(** The ISO text of an instant in the range of Date tells the instant. *)
Lemma isoString_inj t1 t2 :
  dateRange t1 -> dateRange t2 -> isoString t1 = isoString t2 -> t1 = t2.
Proof.
  intros R1 R2. unfold isoString.
  destruct (civil (t1 / msPerDay)) as [[y1 m1] d1] eqn:C1.
  destruct (civil (t2 / msPerDay)) as [[y2 m2] d2] eqn:C2.
  pose proof (civil_year_six_digits _ _ _ _ R1 C1) as Hy1.
  pose proof (civil_year_six_digits _ _ _ _ R2 C2) as Hy2.
  destruct (civil_bounds _ _ _ _ C1) as [Hm1 Hd1].
  destruct (civil_bounds _ _ _ _ C2) as [Hm2 Hd2].
  set (s1 := t1 mod msPerDay) in *. set (s2 := t2 mod msPerDay) in *.
  intros H.
  assert (L : length (yearString y1) = length (yearString y2)).
  { apply (f_equal (@length Z)) in H.
    rewrite !length_app, !digits_length in H. cbn [length] in H. lia. }
  apply (app_inj_length _ _ _ _ L) in H as [Hy H].
  apply cons_inv in H as [_ H].
  apply app_inj_length in H as [Hm H]; [|now rewrite !digits_length].
  apply cons_inv in H as [_ H].
  apply app_inj_length in H as [Hd H]; [|now rewrite !digits_length].
  apply cons_inv in H as [_ H].
  apply app_inj_length in H as [Hh H]; [|now rewrite !digits_length].
  apply cons_inv in H as [_ H].
  apply app_inj_length in H as [Hmi H]; [|now rewrite !digits_length].
  apply cons_inv in H as [_ H].
  apply app_inj_length in H as [Hs H]; [|now rewrite !digits_length].
  apply cons_inv in H as [_ H].
  apply app_inj_length in H as [Hms _]; [|now rewrite !digits_length].
  apply yearString_inj in Hy; [|assumption..].
  assert (B1 : 0 <= s1 < 86400000)
    by (subst s1; apply Z.mod_pos_bound; reflexivity).
  assert (B2 : 0 <= s2 < 86400000)
    by (subst s2; apply Z.mod_pos_bound; reflexivity).
  apply (digits_inj 2) in Hm;
    [|change (10 ^ Z.of_nat 2) with 100; lia ..].
  apply (digits_inj 2) in Hd;
    [|change (10 ^ Z.of_nat 2) with 100; lia ..].
  apply (digits_inj 2) in Hh;
    [|change (10 ^ Z.of_nat 2) with 100;
      Z.to_euclidean_division_equations; lia ..].
  apply (digits_inj 2) in Hmi;
    [|change (10 ^ Z.of_nat 2) with 100;
      Z.to_euclidean_division_equations; lia ..].
  apply (digits_inj 2) in Hs;
    [|change (10 ^ Z.of_nat 2) with 100;
      Z.to_euclidean_division_equations; lia ..].
  apply (digits_inj 3) in Hms;
    [|change (10 ^ Z.of_nat 3) with 1000;
      Z.to_euclidean_division_equations; lia ..].
  assert (Hday : t1 / msPerDay = t2 / msPerDay).
  { apply civil_inj. congruence. }
  assert (Hsec : s1 = s2).
  { clear - Hh Hmi Hs Hms B1 B2. Z.to_euclidean_division_equations; lia. }
  rewrite (Z.div_mod t1 msPerDay), (Z.div_mod t2 msPerDay) by discriminate.
  fold s1 s2. now rewrite Hday, Hsec.
Qed.

End IsoFacts.

(** X15. Within one property, two events without uid get the same
    synthesized id only when they start at the same instant: for starts
    in the range of Date, the ids of their reservations are equal
    exactly when the instants are. *)
Theorem synthesized_ids_tell_instants pid e1 e2 r1 r2 a1 a2 :
  produces pid e1 r1 -> produces pid e2 r2 ->
  missing (Event.uid e1) -> missing (Event.uid e2) ->
  Event.start e1 = Some (Instant a1) -> Event.start e2 = Some (Instant a2) ->
  dateRange a1 -> dateRange a2 ->
  (Reservation.id r1 = Reservation.id r2 <-> a1 = a2).
Proof.
  intros P1 P2 U1 U2 S1 S2 R1 R2.
  assert (I1 : Reservation.id r1 = pid ++ lit "-" ++ isoString a1).
  { destruct (produces_id _ _ _ P1) as (a & Ha & [(u & Hu & Hne & _) | (_ & ->)]).
    - destruct U1 as [U1 | U1]; congruence.
    - congruence. }
  assert (I2 : Reservation.id r2 = pid ++ lit "-" ++ isoString a2).
  { destruct (produces_id _ _ _ P2) as (a & Ha & [(u & Hu & Hne & _) | (_ & ->)]).
    - destruct U2 as [U2 | U2]; congruence.
    - congruence. }
  rewrite I1, I2. split.
  - intros H. rewrite !app_assoc in H. apply app_inv_head in H.
    now apply isoString_inj.
  - now intros ->.
Qed.

Lemma synthesized_ids_tell_instants_witness :
  exists r1 r2,
    produces (lit "1") (Sample.vevent (lit "Reserved - Ann") Sample.mar1 Sample.mar2 None) r1 /\
    produces (lit "1") (Sample.vevent (lit "Reserved - Bob") Sample.mar2 Sample.mar3 None) r2 /\
    Reservation.id r1 <> Reservation.id r2.
Proof.
  eexists. eexists.
  assert (P1 : produces (lit "1")
                 (Sample.vevent (lit "Reserved - Ann") Sample.mar1 Sample.mar2 None)
                 {| Reservation.id := lit "1-2024-03-01T00:00:00.000Z";
                    Reservation.propertyId := lit "1";
                    Reservation.guestName := lit "Ann";
                    Reservation.checkIn := lit "2024-03-01";
                    Reservation.checkOut := lit "2024-03-02";
                    Reservation.nights := Num 1;
                    Reservation.total := Num 0;
                    Reservation.source := lit "airbnb";
                    Reservation.summary := lit "Reserved - Ann" |})
    by (vm_compute; reflexivity).
  assert (P2 : produces (lit "1")
                 (Sample.vevent (lit "Reserved - Bob") Sample.mar2 Sample.mar3 None)
                 {| Reservation.id := lit "1-2024-03-02T00:00:00.000Z";
                    Reservation.propertyId := lit "1";
                    Reservation.guestName := lit "Bob";
                    Reservation.checkIn := lit "2024-03-02";
                    Reservation.checkOut := lit "2024-03-03";
                    Reservation.nights := Num 1;
                    Reservation.total := Num 0;
                    Reservation.source := lit "airbnb";
                    Reservation.summary := lit "Reserved - Bob" |})
    by (vm_compute; reflexivity).
  split; [exact P1|]. split; [exact P2|].
  intros H.
  assert (R1 : dateRange Sample.mar1) by (vm_compute; split; discriminate).
  assert (R2 : dateRange Sample.mar2) by (vm_compute; split; discriminate).
  apply (synthesized_ids_tell_instants (lit "1") _ _ _ _ Sample.mar1 Sample.mar2
           P1 P2 (or_introl eq_refl) (or_introl eq_refl) eq_refl eq_refl R1 R2)
    in H.
  discriminate H.
Defined.

Section DateTextFacts.

Lemma date_part_inj t1 t2 :
  dateRange t1 -> dateRange t2 ->
  (splitHead 84 (isoString t1) = splitHead 84 (isoString t2) <->
   dayNumber t1 = dayNumber t2).
Proof.
  intros R1 R2. rewrite !date_part. unfold dayNumber. split.
  - destruct (civil (t1 / msPerDay)) as [[y1 m1] d1] eqn:C1.
    destruct (civil (t2 / msPerDay)) as [[y2 m2] d2] eqn:C2.
    pose proof (civil_year_six_digits _ _ _ _ R1 C1) as Hy1.
    pose proof (civil_year_six_digits _ _ _ _ R2 C2) as Hy2.
    destruct (civil_bounds _ _ _ _ C1) as [Hm1 Hd1].
    destruct (civil_bounds _ _ _ _ C2) as [Hm2 Hd2].
    intros H.
    assert (L : length (yearString y1) = length (yearString y2)).
    { apply (f_equal (@length Z)) in H.
      rewrite !length_app, !digits_length in H. cbn [length] in H. lia. }
    apply (app_inj_length _ _ _ _ L) in H as [Hy H].
    apply cons_inv in H as [_ H].
    apply app_inj_length in H as [Hm H]; [|now rewrite !digits_length].
    apply cons_inv in H as [_ Hd].
    apply yearString_inj in Hy; [|assumption..].
    apply (digits_inj 2) in Hm; [|change (10 ^ Z.of_nat 2) with 100; lia ..].
    apply (digits_inj 2) in Hd; [|change (10 ^ Z.of_nat 2) with 100; lia ..].
    apply civil_inj. congruence.
  - now intros ->.
Qed.

End DateTextFacts.

(** X16. The date texts of a reservation tell the days: for instants in
    the range of Date, checkIn and checkOut are the same text exactly
    when check-in and check-out fall on the same day (UTC); then nights
    is -1, 0 or 1, and 0 or 1 when check-out is not before check-in. *)
Theorem equal_dates_same_day pid e r a b :
  produces pid e r ->
  Event.start e = Some (Instant a) -> Event.end_ e = Some (Instant b) ->
  dateRange a -> dateRange b ->
  (Reservation.checkIn r = Reservation.checkOut r <->
   dayNumber a = dayNumber b) /\
  (Reservation.checkIn r = Reservation.checkOut r ->
   exists n, Reservation.nights r = Num n /\ -1 <= n <= 1 /\
             (a <= b -> 0 <= n)).
Proof.
  intros P Ha Hb Ra Rb.
  apply processEvent_inv in P as (_ & a' & b' & g & i & Ha' & Hb' & _ & _ & ->).
  rewrite Ha in Ha'. rewrite Hb in Hb'. injection Ha' as <-. injection Hb' as <-.
  cbn [Reservation.checkIn Reservation.checkOut Reservation.nights].
  split; [now apply date_part_inj|].
  intros H. apply date_part_inj in H; [|assumption..].
  exists ((2 * (b - a) + msPerDay) / (2 * msPerDay)).
  split; [reflexivity|].
  unfold dayNumber, msPerDay in *.
  change (1000 * 60 * 60 * 24) with 86400000 in *.
  change (2 * 86400000) with 172800000.
  pose proof (Z.div_mod (2 * (b - a) + 86400000) 172800000 ltac:(lia)) as E.
  pose proof (Z.mod_pos_bound (2 * (b - a) + 86400000) 172800000 ltac:(lia)) as B.
  pose proof (Z.div_mod a 86400000 ltac:(lia)) as Ea.
  pose proof (Z.mod_pos_bound a 86400000 ltac:(lia)) as Ba.
  pose proof (Z.div_mod b 86400000 ltac:(lia)) as Eb.
  pose proof (Z.mod_pos_bound b 86400000 ltac:(lia)) as Bb.
  repeat split; lia.
Qed.

Lemma equal_dates_same_day_witness :
  Reservation.checkIn Sample.bookedReservation =
    Reservation.checkOut Sample.bookedReservation <->
  dayNumber Sample.mar1 = dayNumber Sample.mar3.
Proof.
  assert (P : produces (lit "1") Sample.booked Sample.bookedReservation)
    by (vm_compute; reflexivity).
  assert (R1 : dateRange Sample.mar1) by (vm_compute; split; discriminate).
  assert (R3 : dateRange Sample.mar3) by (vm_compute; split; discriminate).
  exact (proj1 (equal_dates_same_day (lit "1") Sample.booked
                  Sample.bookedReservation Sample.mar1 Sample.mar3
                  P eq_refl eq_refl R1 R3)).
Defined.

(* ------------------------------------------------------------------ *)
(** ** Routes, one after the other *)

Section ComposeFacts.

Lemma getReservations_filtered (f : jsstring) (cache : Cache) :
  f <> [] -> NoDup (JsObject.keys cache) ->
  getReservations (Some f) cache =
    {| status := 200;
       body := ReservationList
                 (match JsObject.get f cache with
                  | Some e => Entry.reservations e
                  | None => []
                  end)
                 (map statusOf cache)
                 (Z.of_nat (length cache)) |}.
Proof.
  intros Hf ND. unfold getReservations.
  rewrite reservationsLoop_spec. cbn [app].
  destruct f as [|c f]; [contradiction|].
  change (falsy (Some (c :: f))) with false.
  change (orElse (Some (c :: f)) []) with (c :: f). cbn [orb].
  rewrite (filter_by_key (c :: f) cache ND).
  unfold JsObject.keys. now rewrite length_map.
Qed.

End ComposeFacts.

(** X17. What is registered can be read back: after a registration
    that succeeds (of an id other than __proto__), [GET /reservations]
    filtered on that id returns exactly the reservations the parse gave,
    and the property is in its syncStatus list with their number and the
    time of the sync. *)
Theorem register_then_query w req (cache : Cache) (pid url : jsstring) rs :
  NoDup (JsObject.keys cache) ->
  validRequest req pid url -> storable pid ->
  returned (parseIcal w url pid (reqName req)) = Some rs ->
  exists st n,
    getReservations (Some pid) (fst (postProperties w req cache)) =
      {| status := 200; body := ReservationList rs st n |} /\
    In {| statusPropertyId := pid;
          statusName := orElse (reqName req) (lit "Property " ++ pid);
          statusLastSynced := Some (isoString (now w));
          reservationCount := Z.of_nat (length rs) |} st.
Proof.
  intros ND Hv Hst Hr.
  assert (Hne : pid <> []) by apply Hv.
  assert (ND' : NoDup (JsObject.keys (fst (postProperties w req cache)))).
  { destruct (postProperties_cases w req cache)
      as [-> | (p & u & _ & _ & [-> | (rs' & ->)])].
    - exact ND.
    - now apply keys_registerEntry.
    - rewrite keys_storeSync. now apply keys_registerEntry. }
  assert (G : JsObject.get pid (fst (postProperties w req cache)) =
              Some {| Entry.icalUrl := url;
                      Entry.name := orElse (reqName req) (lit "Property " ++ pid);
                      Entry.reservations := rs;
                      Entry.lastSynced := Some (isoString (now w)) |}).
  { rewrite (postProperties_valid _ _ _ _ _ Hv). cbv zeta. rewrite Hr.
    cbn [fst].
    apply (storeSync_same w pid rs _ _
             (get_registerEntry_same pid (reqName req) url cache)). }
  eexists. eexists. split.
  - rewrite (getReservations_filtered pid _ Hne ND'), G. reflexivity.
  - apply get_in in G. apply (in_map statusOf) in G. exact G.
Qed.

Lemma register_then_query_witness :
  exists st n,
    getReservations (Some (lit "2"))
      (fst (postProperties Sample2.world2 Sample2.register2 Sample.cache1)) =
      {| status := 200;
         body := ReservationList [Sample2.reservation2] st n |}.
Proof.
  assert (ND : NoDup (JsObject.keys Sample.cache1)).
  { simpl. repeat constructor. simpl. tauto. }
  assert (V : validRequest Sample2.register2 (lit "2") Sample.url).
  { repeat split; [discriminate | now exists (lit "example.com/calendar.ics")]. }
  assert (S0 : storable (lit "2")) by discriminate.
  assert (R : returned (parseIcal Sample2.world2 Sample.url (lit "2")
                          (reqName Sample2.register2)) =
              Some [Sample2.reservation2]) by (vm_compute; reflexivity).
  destruct (register_then_query Sample2.world2 Sample2.register2 Sample.cache1
              (lit "2") Sample.url [Sample2.reservation2] ND V S0 R)
    as (st & n & H & _).
  exists st, n. exact H.
Defined.

(** X18. What is removed is gone: after the removal of a registered id,
    [GET /reservations] filtered on that id returns no reservation,
    totalProperties is one less than before, and a second removal of the
    id answers 404 (unless the id is an inherited name). *)
Theorem delete_then_query (pid : jsstring) (cache : Cache) e :
  NoDup (JsObject.keys cache) -> pid <> [] ->
  JsObject.get pid cache = Some e ->
  exists st,
    getReservations (Some pid) (fst (deleteProperties pid cache)) =
      {| status := 200;
         body := ReservationList [] st (Z.of_nat (length cache) - 1) |} /\
    ~ In pid (map statusPropertyId st) /\
    (inheritedName pid = false ->
     code (snd (deleteProperties pid (fst (deleteProperties pid cache)))) = 404).
Proof.
  intros ND Hne He.
  assert (D : fst (deleteProperties pid cache) = deleteKey pid cache).
  { unfold deleteProperties. now rewrite He. }
  rewrite D.
  pose proof (NoDup_keys_deleteKey pid cache ND) as ND'.
  pose proof (get_deleteKey_same pid cache ND) as G.
  exists (map statusOf (deleteKey pid cache)).
  rewrite (getReservations_filtered pid _ Hne ND'), G. split; [|split].
  - repeat f_equal. pose proof (length_deleteKey pid cache e He). lia.
  - rewrite <- statusList_statusOf, statusList_ids.
    now apply get_none_not_in.
  - intros Hi. unfold deleteProperties at 1. now rewrite G, Hi.
Qed.

Lemma delete_then_query_witness :
  exists st,
    getReservations (Some (lit "1"))
      (fst (deleteProperties (lit "1") Sample.cache2)) =
      {| status := 200;
         body := ReservationList [] st (Z.of_nat (length Sample.cache2) - 1) |}.
Proof.
  assert (ND : NoDup (JsObject.keys Sample.cache2)).
  { simpl. repeat constructor; simpl; [|tauto].
    intros [H | []]. discriminate. }
  destruct (delete_then_query (lit "1") Sample.cache2 Sample.beach ND
              ltac:(discriminate) eq_refl) as (st & H & _).
  exists st. exact H.
Defined.

(* ------------------------------------------------------------------ *)
(** ** The name after "Reserved -" *)

Section CaptureFacts.

Lemma run_word w : forall a rest cap k,
  map upperUnit a = map upperUnit w ->
  run (word w) (a ++ rest) cap k = k rest cap.
Proof.
  induction w as [|x w IH]; intros [|c a] rest cap k H; try discriminate.
  - reflexivity.
  - cbn [map] in H. apply cons_inv in H as [Hc Ha].
    cbn [word run app]. unfold ci at 1. rewrite Hc, Z.eqb_refl.
    now apply IH.
Qed.

(** The greedy star returns what the longest run of the class gives,
    when that succeeds. *)
Lemma star_greedy p a s cap k x :
  forallb p a = true -> star p s cap k = Some x ->
  star p (a ++ s) cap k = Some x.
Proof.
  induction a as [|c a IH]; cbn [app forallb]; intros Ha Hs; [exact Hs|].
  apply andb_true_iff in Ha as [Hc Ha]. cbn [star]. rewrite Hc.
  now rewrite (IH Ha Hs).
Qed.

Lemma star_stop p s cap k :
  match s with [] => True | c :: _ => p c = false end ->
  star p s cap k = k s cap.
Proof.
  destruct s as [|c s]; cbn [star]; [reflexivity|]. now intros ->.
Qed.

Lemma separator_not_space c : separator c = true -> isSpace c = false.
Proof. intros H. apply separator_spec in H as [-> | ->]; reflexivity. Qed.

(** A match of the first pattern at the head of the summary. *)
Lemma run_reservedRe R w1 c w2 t post :
  toLowerCase R = lit "reserved" ->
  forallb isSpace w1 = true -> separator c = true ->
  forallb isSpace w2 = true ->
  match t with [] => False | x :: _ => isSpace x = false end ->
  forallb dot t = true ->
  match post with [] => True | x :: _ => dot x = false end ->
  run reservedRe (R ++ w1 ++ [c] ++ w2 ++ t ++ post) None accept =
    Some (Some t).
Proof.
  intros HR H1 Hc H2 Ht Hd Hp. unfold reservedRe. cbn [run].
  rewrite run_word
    by (apply upper_lower_word; [reflexivity | exact HR]).
  cbn [run]. apply star_greedy; [exact H1|].
  rewrite star_stop by (cbn [app]; now apply separator_not_space).
  cbn [app run]. rewrite Hc. cbn [run].
  apply star_greedy; [exact H2|].
  destruct t as [|x t]; [contradiction|].
  rewrite star_stop by exact Ht.
  cbn [forallb] in Hd. apply andb_true_iff in Hd as [Hx Hd].
  unfold RPlus. cbn [run app]. rewrite Hx. cbn [run].
  erewrite star_greedy; [reflexivity | exact Hd |].
  rewrite star_stop by exact Hp. unfold accept. do 2 f_equal.
  change (x :: t ++ post) with ((x :: t) ++ post).
  apply firstn_consumed.
Qed.

End CaptureFacts.

(** X19. A summary in the format of the platform names the guest: when
    the summary begins with "reserved" (in any case), then a hyphen or
    an en-dash with or without white space around it, then a text that
    does not begin with white space and runs to the end of the line,
    the guest name of the reservation is that text without its trailing
    white space, whatever the description says. *)
Theorem summary_names_guest pid e r R w1 c w2 t post :
  produces pid e r ->
  orElse (Event.summary e) [] = R ++ w1 ++ [c] ++ w2 ++ t ++ post ->
  toLowerCase R = lit "reserved" ->
  forallb isSpace w1 = true -> (c = 45 \/ c = 8211) ->
  forallb isSpace w2 = true ->
  match t with [] => False | x :: _ => isSpace x = false end ->
  forallb dot t = true ->
  match post with [] => True | x :: _ => dot x = false end ->
  Reservation.guestName r = trim t /\ Reservation.guestName r <> [].
Proof.
  intros P Hs HR H1 Hc H2 Ht Hd Hp.
  apply processEvent_inv in P as (_ & a & b & g & i & _ & _ & G & _ & ->).
  cbn [Reservation.guestName].
  apply separator_spec in Hc.
  pose proof (run_reservedRe R w1 c w2 t post HR H1 Hc H2 Ht Hd Hp) as Hrun.
  unfold extractGuestName in G. rewrite Hs in G.
  assert (E : exec reservedRe (R ++ w1 ++ [c] ++ w2 ++ t ++ post) =
              Some (Some t)).
  { destruct (R ++ w1 ++ [c] ++ w2 ++ t ++ post); cbn [exec]; now rewrite Hrun. }
  rewrite E in G. cbn [group1Trim] in G. injection G as <-.
  split; [reflexivity|].
  intros N. apply trim_nil in N. destruct t as [|x t]; [contradiction|].
  cbn [forallb] in N. rewrite Ht in N. discriminate.
Qed.

Lemma summary_names_guest_witness :
  Reservation.guestName Sample.bookedReservation = trim (lit "Airbnb (HM1234)").
Proof.
  assert (P : produces (lit "1") Sample.booked Sample.bookedReservation)
    by (vm_compute; reflexivity).
  refine (proj1 (summary_names_guest (lit "1") Sample.booked
                   Sample.bookedReservation (lit "Reserved") (lit " ") 45
                   (lit " ") (lit "Airbnb (HM1234)") [] P _ _ _ _ _ _ _ _));
    try reflexivity; try (now left); try exact I.
Defined.

(* ================================================================== *)
(** * The parser on decoded entries, and the captured text *)

(* ------------------------------------------------------------------ *)
(** ** The matcher against the direct reading of the patterns *)

Section ScanFacts.

Lemma run_word_strip w : forall s cap k,
  run (word w) s cap k =
    match stripWord w s with
    | Some rest => k rest cap
    | None => None
    end.
Proof.
  induction w as [|x w IH]; intros s cap k; cbn [word run stripWord].
  - now destruct s.
  - destruct s as [|c s]; [reflexivity|].
    destruct (ci x c); [apply IH | reflexivity].
Qed.

(** When the continuation fails wherever white space could still go
    on, the star hands over at the end of the white space. *)
Lemma star_trimStart s cap k :
  (forall x, match x with [] => True | c :: _ => isSpace c = true end ->
             k x cap = None) ->
  star space s cap k = k (trimStart s) cap.
Proof.
  intros Hk. induction s as [|c s IH]; cbn [star trimStart].
  - reflexivity.
  - unfold space at 1. destruct (isSpace c) eqn:E; [|reflexivity].
    rewrite IH. destruct (k (trimStart s) cap) eqn:K; [reflexivity|].
    apply Hk. exact E.
Qed.

Lemma lineOf_split s : exists r,
  s = lineOf s ++ r /\ match r with [] => True | c :: _ => dot c = false end.
Proof.
  induction s as [|c s IH]; cbn [lineOf].
  - now exists [].
  - destruct (dot c) eqn:E.
    + destruct IH as (r & H & Hr). exists r. split; [|exact Hr].
      cbn [app]. now rewrite <- H.
    + now exists (c :: s).
Qed.

Lemma lineOf_dot s : forallb dot (lineOf s) = true.
Proof.
  induction s as [|c s IH]; cbn [lineOf]; [reflexivity|].
  destruct (dot c) eqn:E; [|reflexivity]. cbn [forallb]. now rewrite E.
Qed.

(** The group of the patterns takes the line at the head of the input. *)
Lemma run_group_line s cap :
  run (RGroup (RPlus dot)) s cap accept =
    match s with
    | c :: _ => if dot c then Some (Some (lineOf s)) else None
    | [] => None
    end.
Proof.
  unfold RPlus. cbn [run]. destruct s as [|c s]; [reflexivity|].
  destruct (dot c) eqn:E; [|reflexivity].
  destruct (lineOf_split s) as (r & Hs & Hr).
  cbn [lineOf]. rewrite E.
  rewrite Hs at 1. erewrite star_greedy; [reflexivity | apply lineOf_dot |].
  rewrite star_stop by exact Hr. unfold accept. do 2 f_equal.
  rewrite Hs at 1 2.
  change (c :: lineOf s ++ r) with ((c :: lineOf s) ++ r).
  apply firstn_consumed.
Qed.

Lemma lastOnLine_none_line s : lastOnLine s = None -> lineOf s = [].
Proof.
  destruct s as [|c s]; cbn [lastOnLine lineOf]; [reflexivity|].
  destruct (lastOnLine s); [discriminate|].
  destruct (dot c); [discriminate | reflexivity].
Qed.

Lemma trimStart_nil_lastOnLine c s :
  trimStart s = [] -> isSpace c = true ->
  trailingText (c :: s) =
    match trailingText s with
    | Some t => Some t
    | None => if dot c then Some [c] else None
    end.
Proof.
  intros Hs Hc. unfold trailingText. cbn [trimStart lastOnLine].
  rewrite Hc, Hs. destruct (lastOnLine s); [reflexivity|].
  now destruct (dot c).
Qed.

(** White space and then the group: the trailing text. *)
Lemma run_trailing u cap :
  run (RSeq (RStar space) (RGroup (RPlus dot))) u cap accept =
    option_map Some (trailingText u).
Proof.
  change (star space u cap
            (fun s' cap' => run (RGroup (RPlus dot)) s' cap' accept) =
          option_map Some (trailingText u)).
  induction u as [|c u IH].
  - reflexivity.
  - cbn [star]. unfold space at 1. destruct (isSpace c) eqn:E.
    + rewrite IH.
      destruct (trimStart u) as [|x u'] eqn:T.
      * rewrite (trimStart_nil_lastOnLine c u T E).
        destruct (trailingText u) as [t|] eqn:Tu; [reflexivity|].
        cbn [option_map]. rewrite run_group_line.
        destruct (dot c) eqn:D; [|reflexivity].
        unfold trailingText in Tu. rewrite T in Tu.
        destruct (lastOnLine u) eqn:L; [discriminate|].
        cbn [lineOf]. rewrite D.
        now rewrite (lastOnLine_none_line u L).
      * unfold trailingText. cbn [trimStart]. rewrite E, T. reflexivity.
    + rewrite run_group_line. unfold trailingText. cbn [trimStart].
      rewrite E. cbn [option_map].
      assert (D : dot c = true).
      { unfold dot. unfold isSpace in E.
        destruct (isLineTerminator c); [|reflexivity].
        rewrite orb_true_r in E. discriminate. }
      now rewrite D.
Qed.

Lemma run_reservedAt s :
  run reservedRe s None accept = option_map Some (reservedAt s).
Proof.
  unfold reservedRe, reservedAt. cbn [run]. rewrite run_word_strip.
  destruct (stripWord (lit "reserved") s) as [rest|]; [|reflexivity].
  cbn [run]. rewrite star_trimStart.
  - destruct (trimStart rest) as [|c u]; [reflexivity|].
    destruct (separator c); [|reflexivity].
    apply (run_trailing u None).
  - intros [|c x] Hx; [reflexivity|].
    destruct (separator c) eqn:Sc; [|reflexivity].
    apply separator_not_space in Sc. congruence.
Qed.

Lemma stripWord_guest_name s rest :
  stripWord (lit "guest") s = Some rest -> stripWord (lit "name") s = None.
Proof.
  destruct s as [|c s]; [discriminate|].
  change (lit "guest") with (103 :: lit "uest").
  change (lit "name") with (110 :: lit "ame"). cbn [stripWord].
  destruct (ci 103 c) eqn:G; [|discriminate]. intros _.
  destruct (ci 110 c) eqn:N; [|reflexivity].
  apply (ci_lower 103 c eq_refl) in G. apply (ci_lower 110 c eq_refl) in N.
  congruence.
Qed.

Lemma run_labelAt s :
  run descRe s None accept = option_map Some (labelAt s).
Proof.
  unfold descRe, labelAt. cbn [run]. rewrite !run_word_strip.
  assert (K : forall rest,
            run (RChar (ci 58)) rest None
              (fun s' cap' =>
                 run (RSeq (RStar space) (RGroup (RPlus dot))) s' cap' accept) =
            option_map Some
              match rest with
              | c :: u => if c =? 58 then trailingText u else None
              | [] => None
              end).
  { intros [|c u]; cbn [run]; [reflexivity|].
    destruct (c =? 58) eqn:E.
    - apply Z.eqb_eq in E. subst c. change (ci 58 58) with true. cbv iota.
      apply (run_trailing u None).
    - destruct (ci 58 c) eqn:C; [|reflexivity].
      apply colon_spec in C. subst c. discriminate. }
  destruct (stripWord (lit "guest") s) as [rest|] eqn:G.
  - cbn [run] in K. rewrite (K rest).
    destruct (option_map Some
                match rest with
                | c :: u => if c =? 58 then trailingText u else None
                | [] => None
                end) eqn:R; [reflexivity|].
    rewrite (stripWord_guest_name s rest G).
    destruct rest as [|c u]; [reflexivity|].
    destruct (c =? 58); [|reflexivity].
    now destruct (trailingText u).
  - destruct (stripWord (lit "name") s) as [rest|]; [|reflexivity].
    cbn [run] in K. rewrite (K rest). now destruct rest.
Qed.

Lemma exec_firstMatch r found :
  (forall s, run r s None accept = option_map Some (found s)) ->
  forall s, exec r s = option_map Some (firstMatch found s).
Proof.
  intros H. induction s as [|c s IH]; cbn [exec firstMatch]; rewrite H.
  - now destruct (found []).
  - destruct (found (c :: s)); [reflexivity | exact IH].
Qed.

Lemma exec_reservedCapture s :
  exec reservedRe s = option_map Some (reservedCapture s).
Proof. apply exec_firstMatch, run_reservedAt. Qed.

Lemma exec_labelCapture d :
  exec descRe d = option_map Some (labelCapture d).
Proof. apply exec_firstMatch, run_labelAt. Qed.





(** The extraction gives the name of the specification, unless it has
    to read a description that is an object. *)
Lemma extractGuestNameDecoded_spec summary description :
  extractGuestNameDecoded summary description =
    match reservedCapture summary, description with
    | None, WithParams _ =>
        Throw (lit "event.description.match is not a function")
    | _, _ => Normal (guestNameOf summary description)
    end.
Proof.
  unfold extractGuestNameDecoded, guestNameOf.
  rewrite exec_reservedCapture.
  destruct (reservedCapture summary) as [t|]; cbn [option_map group1Trim].
  - now destruct description.
  - destruct description as [|d|v]; try reflexivity.
    rewrite exec_labelCapture.
    destruct (truthy d) eqn:T.
    + now destruct (labelCapture d).
    + destruct d; [reflexivity | discriminate].
Qed.

End ScanFacts.

(* ------------------------------------------------------------------ *)
(** ** One turn of the loop on a decoded entry *)

Section DecodedFacts.

Lemma summaryOf_plain v :
  isObject v = false -> summaryOf v = Normal (plainText v).
Proof. destruct v as [|[|c s]|x]; try reflexivity. discriminate. Qed.

Lemma summaryOf_text v : summaryOf (decodedText v) = Normal (orElse v []).
Proof. now destruct v as [[|c s]|]. Qed.

Lemma extractGuestNameDecoded_text summary d :
  extractGuestNameDecoded summary (decodedText d) =
    extractGuestName summary d.
Proof. now destruct d. Qed.

(** On an entry without objects the turn is that of [processEvent]. *)
Lemma processDecoded_text pid e :
  processDecoded pid (decodedOf e) = processEvent pid e.
Proof.
  unfold processDecoded, processEvent, decodedOf.
  cbn [Decoded.type Decoded.summary Decoded.description Decoded.start
       Decoded.end_ Decoded.uid].
  rewrite summaryOf_text. cbn [bind].
  destruct (negb (eqb (Event.type e) (lit "VEVENT"))); [reflexivity|].
  cbv zeta. destruct (isBlocked (orElse (Event.summary e) [])); [reflexivity|].
  destruct (Event.start e) as [ci|]; [|reflexivity].
  destruct (Event.end_ e) as [co|]; [|reflexivity].
  now rewrite extractGuestNameDecoded_text.
Qed.

Lemma decodedLoop_text pid events : forall acc,
  decodedLoop pid (decodedFeedOf events) acc = eventLoop pid events acc.
Proof.
  induction events as [|[key e] rest IH]; intros acc; [reflexivity|].
  cbn [decodedFeedOf map fst snd decodedLoop eventLoop].
  rewrite processDecoded_text.
  destruct (processEvent pid e) as [r|m]; [|reflexivity].
  cbn [bind]. apply IH.
Qed.

(** On a feed without objects the parse is [parseIcal]. *)
Lemma parseIcalDecoded_text w url pid nm :
  parseIcalDecoded
    (fun u => events <- fromURL w u ;; Normal (decodedFeedOf events))
    url pid nm =
  parseIcal w url pid nm.
Proof.
  unfold parseIcalDecoded, parseIcal.
  destruct (fromURL w url) as [events|m]; cbn [bind]; [|reflexivity].
  now rewrite decodedLoop_text.
Qed.

Lemma reachesGuest_inv e :
  reachesGuest e = true ->
  eqb (Decoded.type e) (lit "VEVENT") = true /\
  isObject (Decoded.summary e) = false /\
  isBlocked (plainText (Decoded.summary e)) = false /\
  exists checkIn checkOut,
    Decoded.start e = Some checkIn /\ Decoded.end_ e = Some checkOut.
Proof.
  unfold reachesGuest. intros H.
  apply andb_true_iff in H as [H D]. apply andb_true_iff in H as [H C].
  apply andb_true_iff in H as [A B].
  apply negb_true_iff in B. apply negb_true_iff in C.
  split; [exact A|]. split; [exact B|]. split; [exact C|].
  destruct (Decoded.start e) as [ci|]; [|discriminate].
  destruct (Decoded.end_ e) as [co|]; [|discriminate].
  now exists ci, co.
Qed.

(** The turn on an entry that gets as far as the guest name. *)
Lemma processDecoded_reaches pid e checkIn checkOut :
  reachesGuest e = true ->
  Decoded.start e = Some checkIn -> Decoded.end_ e = Some checkOut ->
  processDecoded pid e =
    (guestName <- extractGuestNameDecoded (plainText (Decoded.summary e))
                    (Decoded.description e) ;;
     id <- reservationId (Decoded.uid e) pid checkIn ;;
     isoIn <- toISOString checkIn ;;
     isoOut <- toISOString checkOut ;;
     Normal (Some {|
       Reservation.id := id;
       Reservation.propertyId := pid;
       Reservation.guestName := guestName;
       Reservation.checkIn := splitHead 84 isoIn;
       Reservation.checkOut := splitHead 84 isoOut;
       Reservation.nights := roundDiv (minus checkOut checkIn) msPerDay;
       Reservation.total := Num 0;
       Reservation.source := lit "airbnb";
       Reservation.summary := plainText (Decoded.summary e) |})).
Proof.
  intros R Ha Hb. destruct (reachesGuest_inv e R) as (A & B & C & _).
  unfold processDecoded. rewrite A, (summaryOf_plain _ B). cbn [negb bind].
  rewrite C, Ha, Hb. reflexivity.
Qed.

Lemma processDecoded_faulty pid e :
  faulty e = true -> exists m, processDecoded pid e = Throw m.
Proof.
  unfold faulty. intros H. apply orb_true_iff in H as [H | H].
  - apply andb_true_iff in H as [A B]. unfold processDecoded. rewrite A.
    destruct (Decoded.summary e); try discriminate. cbn [negb summaryOf bind].
    eexists. reflexivity.
  - apply andb_true_iff in H as [R H].
    destruct (reachesGuest_inv e R) as (_ & _ & _ & ci & co & Ha & Hb).
    rewrite (processDecoded_reaches pid e ci co R Ha Hb).
    rewrite extractGuestNameDecoded_spec. rewrite Ha, Hb in H.
    destruct (reservedCapture (plainText (Decoded.summary e))) as [t|],
             (Decoded.description e) as [|d|x];
      cbn [bind isObject orb] in H |- *;
      try (eexists; reflexivity);
      unfold reservationId, synthesizedId;
      (destruct ci as [a|], co as [b|]; try discriminate H);
      (destruct (Decoded.uid e) as [[|c u]|]);
      cbn [toISOString bind truthy]; eexists; reflexivity.
Qed.

Lemma processDecoded_skip pid e :
  faulty e = false -> reachesGuest e = false ->
  processDecoded pid e = Normal None.
Proof.
  unfold faulty, reachesGuest, processDecoded. intros F R.
  destruct (eqb (Decoded.type e) (lit "VEVENT")); [|reflexivity].
  destruct (Decoded.summary e) as [|s|x]; cbn [andb isObject orb] in F;
    [| |discriminate];
    cbn [andb negb isObject plainText] in R;
    cbn [negb summaryOf bind].
  - destruct (isBlocked []); [reflexivity|]. cbn [negb] in R.
    destruct (Decoded.start e), (Decoded.end_ e); try reflexivity.
    discriminate.
  - replace (if truthy s then s else []) with s by now destruct s.
    destruct (isBlocked s); [reflexivity|]. cbn [negb] in R.
    destruct (Decoded.start e), (Decoded.end_ e); try reflexivity.
    discriminate.
Qed.

(** The reservation pushed for an entry that is pushed. *)
Lemma processDecoded_pushed pid e :
  pushed e = true ->
  exists a b,
    Decoded.start e = Some (Instant a) /\
    Decoded.end_ e = Some (Instant b) /\
    processDecoded pid e =
      Normal (Some {|
        Reservation.id :=
          match Decoded.uid e with
          | Some (c :: u) => c :: u
          | _ => pid ++ lit "-" ++ isoString a
          end;
        Reservation.propertyId := pid;
        Reservation.guestName :=
          guestNameOf (plainText (Decoded.summary e)) (Decoded.description e);
        Reservation.checkIn := splitHead 84 (isoString a);
        Reservation.checkOut := splitHead 84 (isoString b);
        Reservation.nights := roundDiv (Num (b - a)) msPerDay;
        Reservation.total := Num 0;
        Reservation.source := lit "airbnb";
        Reservation.summary := plainText (Decoded.summary e) |}).
Proof.
  unfold pushed. intros H. apply andb_true_iff in H as [R F].
  apply negb_true_iff in F.
  destruct (reachesGuest_inv e R) as (_ & _ & _ & ci & co & Ha & Hb).
  rewrite (processDecoded_reaches pid e ci co R Ha Hb).
  unfold faulty in F. rewrite R, Ha, Hb in F. cbn [andb] in F.
  apply orb_false_iff in F as [_ F].
  apply orb_false_iff in F as [F Fb]. apply orb_false_iff in F as [Fd Fa].
  destruct ci as [a|]; [|discriminate]. destruct co as [b|]; [|discriminate].
  exists a, b. split; [exact Ha|]. split; [exact Hb|].
  rewrite extractGuestNameDecoded_spec.
  assert (G : match reservedCapture (plainText (Decoded.summary e)),
                    Decoded.description e with
              | None, WithParams _ =>
                  Throw (lit "event.description.match is not a function")
              | _, _ =>
                  Normal (guestNameOf (plainText (Decoded.summary e))
                            (Decoded.description e))
              end =
              Normal (guestNameOf (plainText (Decoded.summary e))
                        (Decoded.description e))).
  { destruct (reservedCapture (plainText (Decoded.summary e))),
             (Decoded.description e); try reflexivity. discriminate. }
  rewrite G. cbn [bind]. unfold reservationId, synthesizedId.
  destruct (Decoded.uid e) as [[|c u]|]; reflexivity.
Qed.

Lemma pushed_madeFrom pid e r :
  pushed e = true -> producesDecoded pid e r -> madeFrom pid e r.
Proof.
  intros H P. destruct (processDecoded_pushed pid e H) as (a & b & Ha & Hb & E).
  unfold producesDecoded in P. rewrite E in P.
  assert (Hr : r = {|
        Reservation.id :=
          match Decoded.uid e with
          | Some (c :: u) => c :: u
          | _ => pid ++ lit "-" ++ isoString a
          end;
        Reservation.propertyId := pid;
        Reservation.guestName :=
          guestNameOf (plainText (Decoded.summary e)) (Decoded.description e);
        Reservation.checkIn := splitHead 84 (isoString a);
        Reservation.checkOut := splitHead 84 (isoString b);
        Reservation.nights := roundDiv (Num (b - a)) msPerDay;
        Reservation.total := Num 0;
        Reservation.source := lit "airbnb";
        Reservation.summary := plainText (Decoded.summary e) |})
    by congruence.
  clear P E. exists a, b. split; [exact Ha|]. split; [exact Hb|].
  rewrite Hr.
  cbn [Reservation.id Reservation.propertyId Reservation.guestName
       Reservation.checkIn Reservation.checkOut Reservation.nights
       Reservation.total Reservation.source Reservation.summary].
  split.
  { unfold missing. destruct (Decoded.uid e) as [[|c u]|].
    - right. split; [now right | reflexivity].
    - left. exists (c :: u). split; [reflexivity|]. split; [discriminate|].
      reflexivity.
    - right. split; [now left | reflexivity]. }
  repeat (split; [reflexivity|]). intros _. reflexivity.
Qed.


Lemma decodedLoop_faulty pid events : forall acc,
  (exists key e, In (key, e) events /\ faulty e = true) ->
  exists m, decodedLoop pid events acc = Throw m.
Proof.
  induction events as [|[key ev] rest IH]; intros acc (k & e & Hin & F).
  - contradiction.
  - cbn [decodedLoop].
    destruct (processDecoded pid ev) as [r|m0] eqn:P; cbn [bind];
      [|now exists m0].
    apply IH. exists k, e. split; [|exact F].
    destruct Hin as [Heq | Hin]; [|exact Hin].
    exfalso. assert (ev = e) by congruence. subst ev.
    destruct (processDecoded_faulty pid e F) as [m Hm]. congruence.
Qed.

Lemma decodedLoop_clean pid events : forall acc,
  (forall key e, In (key, e) events -> faulty e = false) ->
  exists rs,
    decodedLoop pid events acc = Normal (acc ++ rs) /\
    Forall2 (fun e r => producesDecoded pid e r /\ madeFrom pid e r)
      (pushedOf events) rs.
Proof.
  unfold pushedOf.
  induction events as [|[key ev] rest IH]; intros acc H.
  - exists []. rewrite app_nil_r. split; [reflexivity | constructor].
  - assert (F : faulty ev = false) by (apply (H key); now left).
    assert (H' : forall k e, In (k, e) rest -> faulty e = false)
      by (intros k e Hin; apply (H k); now right).
    cbn [decodedLoop map snd filter].
    destruct (pushed ev) eqn:Pu.
    + destruct (processDecoded_pushed pid ev Pu) as (a & b & Ha & Hb & E).
      match type of E with _ = Normal (Some ?x) => set (r := x) in * end.
      clearbody r.
      destruct (IH (acc ++ [r]) H') as (rs & L & Fa). clear IH.
      rewrite E. cbn [bind]. exists (r :: rs). split.
      * rewrite L, <- app_assoc. reflexivity.
      * constructor; [|exact Fa]. split; [exact E|].
        apply pushed_madeFrom; [exact Pu | exact E].
    + assert (R : reachesGuest ev = false).
      { unfold pushed in Pu. rewrite F in Pu. cbn [negb] in Pu.
        now rewrite andb_true_r in Pu. }
      rewrite (processDecoded_skip pid ev F R). cbn [bind].
      apply IH. exact H'.
Qed.

Lemma faulty_decidable (events : DecodedFeed) :
  (exists key e, In (key, e) events /\ faulty e = true) \/
  (forall key e, In (key, e) events -> faulty e = false).
Proof.
  induction events as [|[key ev] rest [(k & e & Hin & F) | IH]].
  - right. intros k e [].
  - left. exists k, e. split; [now right | exact F].
  - destruct (faulty ev) eqn:F.
    + left. exists key, ev. split; [now left | exact F].
    + right. intros k e [Heq | Hin]; [congruence | now apply (IH k)].
Qed.

Lemma not_event_clean e :
  Decoded.type e <> lit "VEVENT" -> faulty e = false /\ pushed e = false.
Proof.
  intros H. unfold pushed, faulty, reachesGuest.
  destruct (eqb (Decoded.type e) (lit "VEVENT")) eqn:E.
  - apply eqb_eq in E. contradiction.
  - split; reflexivity.
Qed.

Lemma pushedOf_none events :
  (forall key e, In (key, e) events -> pushed e = false) ->
  pushedOf events = [].
Proof.
  unfold pushedOf. induction events as [|[key ev] rest IH]; intros H;
    [reflexivity|].
  cbn [map snd filter]. rewrite (H key ev) by now left.
  apply IH. intros k e Hin. apply (H k). now right.
Qed.

(** The outcome of the parse of a fetched feed. *)
Lemma parseIcalDecoded_clean fetch url pid nm events :
  fetch url = Normal events ->
  (forall key e, In (key, e) events -> faulty e = false) ->
  exists rs,
    parseIcalDecoded fetch url pid nm =
      {| returned := Some rs; errors := [] |} /\
    Forall2 (fun e r => producesDecoded pid e r /\ madeFrom pid e r)
      (pushedOf events) rs.
Proof.
  intros Hf H. unfold parseIcalDecoded. rewrite Hf. cbn [bind].
  destruct (decodedLoop_clean pid events [] H) as (rs & L & Fa).
  rewrite L. cbn [app]. now exists rs.
Qed.

Lemma parseIcalDecoded_faulty fetch url pid nm events :
  fetch url = Normal events ->
  (exists key e, In (key, e) events /\ faulty e = true) ->
  exists m,
    parseIcalDecoded fetch url pid nm =
      {| returned := None; errors := [errorCall pid m] |}.
Proof.
  intros Hf H. unfold parseIcalDecoded. rewrite Hf. cbn [bind].
  destruct (decodedLoop_faulty pid events [] H) as [m L].
  rewrite L. now exists m.
Qed.

Lemma Forall2_weaken {A B} (P Q : A -> B -> Prop) l1 l2 :
  (forall x y, P x y -> Q x y) -> Forall2 P l1 l2 -> Forall2 Q l1 l2.
Proof. intros H. induction 1; constructor; auto. Qed.

End DecodedFacts.

(* ------------------------------------------------------------------ *)
(** ** The guest name *)



(** X13. A VEVENT without summary (absent or empty) is never taken for a
    blackout. With two valid dates and a description that is absent or a
    string it is pushed: its summary field is the empty string, and its
    guest name is the trimmed trailing text at the first "guest:" or
    "name:" label of the description, or else the fallback. With a
    description that is an object (a DESCRIPTION line with parameters)
    the turn throws, so the parse returns null. *)
Theorem event_without_summary pid e a b :
  Decoded.type e = lit "VEVENT" ->
  Decoded.summary e = Absent \/ Decoded.summary e = Plain [] ->
  Decoded.start e = Some (Instant a) ->
  Decoded.end_ e = Some (Instant b) ->
  (isObject (Decoded.description e) = false ->
   exists r,
     producesDecoded pid e r /\
     Reservation.summary r = [] /\
     Reservation.guestName r =
       match Decoded.description e with
       | Plain d =>
           match labelCapture d with
           | Some t => trim t
           | None => fallbackGuest
           end
       | _ => fallbackGuest
       end) /\
  (isObject (Decoded.description e) = true ->
   processDecoded pid e =
     Throw (lit "event.description.match is not a function") /\
   forall fetch url nm key,
     fetch url = Normal [(key, e)] ->
     returned (parseIcalDecoded fetch url pid nm) = None).
Proof.
  intros Ht Hs Ha Hb.
  assert (S0 : plainText (Decoded.summary e) = [] /\
               isObject (Decoded.summary e) = false)
    by (destruct Hs as [-> | ->]; split; reflexivity).
  destruct S0 as [S0 S1].
  assert (R : reachesGuest e = true).
  { unfold reachesGuest. rewrite Ht, S0, S1, Ha, Hb. reflexivity. }
  assert (F : faulty e = isObject (Decoded.description e)).
  { unfold faulty. rewrite R, Ht, S0, S1, Ha, Hb.
    change (reservedCapture []) with (@None jsstring).
    cbn [andb orb invalidDate]. rewrite andb_false_r. cbn [orb].
    now rewrite !orb_false_r. }
  split.
  - intros O.
    assert (Pu : pushed e = true).
    { unfold pushed. now rewrite R, F, O. }
    destruct (processDecoded_pushed pid e Pu) as (a' & b' & _ & _ & E).
    eexists. split; [exact E|]. split; [exact S0|].
    cbn [Reservation.guestName]. rewrite S0. reflexivity.
  - intros O.
    assert (E : processDecoded pid e =
                Throw (lit "event.description.match is not a function")).
    { rewrite (processDecoded_reaches pid e _ _ R Ha Hb).
      rewrite extractGuestNameDecoded_spec, S0.
      change (reservedCapture []) with (@None jsstring).
      destruct (Decoded.description e); try discriminate. reflexivity. }
    split; [exact E|].
    intros fetch url nm key Hf. unfold parseIcalDecoded.
    rewrite Hf. cbn [bind decodedLoop]. rewrite E. reflexivity.
Qed.

Lemma event_without_summary_witness :
  exists r,
    producesDecoded (lit "1") Sample3.annDecoded r /\
    Reservation.summary r = [] /\
    Reservation.guestName r = lit "Ann Lee".
Proof.
  exact (proj1 (event_without_summary (lit "1") Sample3.annDecoded
                  Sample.mar2 Sample.mar3
                  eq_refl (or_introl eq_refl) eq_refl eq_refl) eq_refl).
Defined.

(* ------------------------------------------------------------------ *)
(** ** The outcome of the parse *)

(** C7, amended. The parser returns and never raises past its boundary.
    A rejected fetch gives null, and the cause goes to the error log
    only, as the second argument of the one call of [console.error]. On
    a fetched feed the parse gives null exactly when the loop throws on
    an entry ([faulty]: a VEVENT whose SUMMARY is an object, or one that
    gets as far as the guest name and has to read a DESCRIPTION that is
    an object, or has an invalid date); null always comes with exactly
    one logged call. A list comes with no logged call; a feed without
    any VEVENT gives the empty list, and a feed without a faulty entry
    gives the list of the reservations of its pushed entries, in feed
    order. *)
Theorem parse_outcome fetch icalUrl pid nm :
  let outcome := parseIcalDecoded fetch icalUrl pid nm in
  (forall message,
     fetch icalUrl = Throw message ->
     outcome = {| returned := None; errors := [errorCall pid message] |}) /\
  (forall events,
     fetch icalUrl = Normal events ->
     (returned outcome = None <->
      exists key e, In (key, e) events /\ faulty e = true)) /\
  (returned outcome = None ->
   exists message, errors outcome = [errorCall pid message]) /\
  (forall rs, returned outcome = Some rs -> errors outcome = []) /\
  (forall events,
     fetch icalUrl = Normal events ->
     (forall key e, In (key, e) events -> Decoded.type e <> lit "VEVENT") ->
     outcome = {| returned := Some []; errors := [] |}) /\
  (forall events,
     fetch icalUrl = Normal events ->
     (forall key e, In (key, e) events -> faulty e = false) ->
     exists rs,
       outcome = {| returned := Some rs; errors := [] |} /\
       Forall2 (producesDecoded pid) (pushedOf events) rs).
Proof.
  intros outcome.
  assert (Ho : outcome = parseIcalDecoded fetch icalUrl pid nm)
    by reflexivity.
  clearbody outcome.
  split; [|split; [|split; [|split; [|split]]]].
  - intros message Hf. rewrite Ho. unfold parseIcalDecoded.
    now rewrite Hf.
  - intros events Hf. split.
    + intros Hn. destruct (faulty_decidable events) as [Hx | Hc];
        [exact Hx|].
      destruct (parseIcalDecoded_clean fetch icalUrl pid nm events Hf Hc)
        as (rs & E & _).
      rewrite Ho, E in Hn. discriminate.
    + intros Hx.
      destruct (parseIcalDecoded_faulty fetch icalUrl pid nm events Hf Hx)
        as (m & E).
      now rewrite Ho, E.
  - rewrite Ho. unfold parseIcalDecoded.
    destruct (fetch icalUrl) as [events|m]; cbn [bind].
    + destruct (decodedLoop pid events []) as [rs|m];
        cbn [returned errors]; [discriminate|]. intros _. now exists m.
    + cbn [returned errors]. intros _. now exists m.
  - intros rs. rewrite Ho. unfold parseIcalDecoded.
    destruct (fetch icalUrl) as [events|m]; cbn [bind].
    + destruct (decodedLoop pid events []) as [rs0|m];
        cbn [returned errors]; [reflexivity | discriminate].
    + cbn [returned]. discriminate.
  - intros events Hf Hv.
    assert (Hc : forall key e, In (key, e) events -> faulty e = false)
      by (intros key e Hin; apply not_event_clean; now apply (Hv key)).
    destruct (parseIcalDecoded_clean fetch icalUrl pid nm events Hf Hc)
      as (rs & E & Fa).
    rewrite pushedOf_none in Fa
      by (intros key e Hin; apply not_event_clean; now apply (Hv key)).
    inversion Fa. subst rs. now rewrite Ho.
  - intros events Hf Hc.
    destruct (parseIcalDecoded_clean fetch icalUrl pid nm events Hf Hc)
      as (rs & E & Fa).
    exists rs. split; [now rewrite Ho|].
    apply (Forall2_weaken _ _ _ _ (fun x y H => proj1 H) Fa).
Qed.

Lemma parse_outcome_witness :
  parseIcalDecoded (Sample3.failing (lit "ETIMEDOUT")) Sample.url
    (lit "1") None =
    {| returned := None;
       errors := [[lit "Error parsing iCal for property 1:";
                   lit "ETIMEDOUT"]] |} /\
  returned (parseIcalDecoded
              (Sample3.serving [(lit "u9", Sample3.withLanguage)])
              Sample.url (lit "1") None) = None /\
  exists rs,
    parseIcalDecoded (Sample3.serving Sample3.feed) Sample.url
      (lit "1") None = {| returned := Some rs; errors := [] |} /\
    Forall2 (producesDecoded (lit "1")) (pushedOf Sample3.feed) rs.
Proof.
  split; [|split].
  - exact (proj1 (parse_outcome (Sample3.failing (lit "ETIMEDOUT"))
                    Sample.url (lit "1") None)
             (lit "ETIMEDOUT") eq_refl).
  - apply (proj1 (proj2 (parse_outcome
                           (Sample3.serving [(lit "u9", Sample3.withLanguage)])
                           Sample.url (lit "1") None))
             [(lit "u9", Sample3.withLanguage)] eq_refl).
    exists (lit "u9"), Sample3.withLanguage.
    split; [now left | reflexivity].
  - apply (proj2 (proj2 (proj2 (proj2 (proj2
             (parse_outcome (Sample3.serving Sample3.feed) Sample.url
                (lit "1") None)))))
             Sample3.feed eq_refl).
    intros key e Hin. cbn [Sample3.feed In] in Hin.
    destruct Hin as [H | [H | [H | [H | []]]]];
      apply (f_equal snd) in H; cbn [snd] in H; subst e;
      vm_compute; reflexivity.
Defined.

(* ------------------------------------------------------------------ *)
(** ** Two parses of one feed *)

(** C9. Two parses of the same decoded feed for the same property give
    the same outcome, whatever the url, the name and the moment. When
    the loop throws on no entry of the feed, that outcome is a list (not
    null): in feed order, one reservation for each pushed entry, whose
    id is the uid of the entry when it has one that is not empty, and
    else the property id, a hyphen and the ISO text of the check-in
    instant, and whose other fields are fixed by the entry as well.
    When the loop throws on an entry, both parses give null. *)
Theorem parse_deterministic
  (fetch1 fetch2 : jsstring -> completion DecodedFeed)
  url1 url2 pid nm1 nm2 events :
  fetch1 url1 = Normal events ->
  fetch2 url2 = Normal events ->
  parseIcalDecoded fetch1 url1 pid nm1 =
    parseIcalDecoded fetch2 url2 pid nm2 /\
  ((forall key e, In (key, e) events -> faulty e = false) ->
   exists rs,
     returned (parseIcalDecoded fetch1 url1 pid nm1) = Some rs /\
     returned (parseIcalDecoded fetch2 url2 pid nm2) = Some rs /\
     Forall2 (madeFrom pid) (pushedOf events) rs) /\
  ((exists key e, In (key, e) events /\ faulty e = true) ->
   returned (parseIcalDecoded fetch1 url1 pid nm1) = None /\
   returned (parseIcalDecoded fetch2 url2 pid nm2) = None).
Proof.
  intros H1 H2.
  assert (E : parseIcalDecoded fetch1 url1 pid nm1 =
              parseIcalDecoded fetch2 url2 pid nm2).
  { unfold parseIcalDecoded. now rewrite H1, H2. }
  split; [exact E|]. rewrite <- E. split.
  - intros Hc.
    destruct (parseIcalDecoded_clean fetch1 url1 pid nm1 events H1 Hc)
      as (rs & Er & Fa).
    exists rs. rewrite Er. split; [reflexivity|]. split; [reflexivity|].
    apply (Forall2_weaken _ _ _ _ (fun x y H => proj2 H) Fa).
  - intros Hx.
    destruct (parseIcalDecoded_faulty fetch1 url1 pid nm1 events H1 Hx)
      as (m & Em).
    rewrite Em. split; reflexivity.
Qed.

Lemma parse_deterministic_witness :
  returned (parseIcalDecoded (Sample3.serving Sample3.feed) Sample.url
              (lit "1") None) =
    Some [Sample3.jane; Sample3.ann] /\
  map Reservation.id [Sample3.jane; Sample3.ann] =
    [lit "u1"; lit "1-2024-03-02T00:00:00.000Z"] /\
  parseIcalDecoded (Sample3.serving Sample3.feed) Sample.url (lit "1") None =
    parseIcalDecoded (Sample3.serving Sample3.feed)
      (lit "https://example.com/other.ics") (lit "1") (Some (lit "Loft")) /\
  exists rs,
    returned (parseIcalDecoded (Sample3.serving Sample3.feed) Sample.url
                (lit "1") None) = Some rs /\
    returned (parseIcalDecoded (Sample3.serving Sample3.feed)
                (lit "https://example.com/other.ics") (lit "1")
                (Some (lit "Loft"))) = Some rs /\
    Forall2 (madeFrom (lit "1")) (pushedOf Sample3.feed) rs.
Proof.
  split; [vm_compute; reflexivity|]. split; [reflexivity|].
  pose proof (parse_deterministic
                (Sample3.serving Sample3.feed) (Sample3.serving Sample3.feed)
                Sample.url (lit "https://example.com/other.ics")
                (lit "1") None (Some (lit "Loft")) Sample3.feed
                eq_refl eq_refl) as [E [C _]].
  split; [exact E|]. apply C.
  intros key e Hin. cbn [Sample3.feed In] in Hin.
  destruct Hin as [H | [H | [H | [H | []]]]];
    apply (f_equal snd) in H; cbn [snd] in H; subst e;
    vm_compute; reflexivity.
Defined.

(* ------------------------------------------------------------------ *)
(** ** POST /properties on any body *)

Section GuardFacts.

Lemma httpsUrl_startsWith u :
  startsWith (lit "https://") u = true <-> httpsUrl u.
Proof. apply startsWith_spec. Qed.



(** On a body whose fields are strings or absent, the route with lines
    113 to 136 behind the guards is [postProperties]. *)
Lemma postPropertiesWith_text w registration req cache :
  registersAs w registration ->
  postPropertiesWith registration (Some (bodyOf req)) cache =
    (fst (postProperties w req cache),
     Normal (snd (postProperties w req cache))).
Proof.
  intros Hr. unfold postPropertiesWith, registrationGuards, postProperties,
    bodyOf.
  cbn [rawPropertyId rawName rawIcalUrl].
  destruct (reqPropertyId req) as [[|c pid]|];
    cbn [rawText truthyVal truthy falsy negb orb fst snd]; try reflexivity.
  destruct (reqIcalUrl req) as [[|c' url]|];
    cbn [rawText truthyVal truthy falsy negb orb fst snd]; try reflexivity.
  change (orElse (Some (c :: pid)) []) with (c :: pid).
  change (orElse (Some (c' :: url)) []) with (c' :: url).
  cbv zeta.
  destruct (startsWith (lit "https://") (c' :: url)); cbn [negb fst snd];
    [|reflexivity].
  rewrite (Hr (c :: pid) (reqName req) (c' :: url) cache).
  unfold registerAndSync. cbv zeta.
  destruct (returned (parseIcal w (c' :: url) (c :: pid) (reqName req)));
    reflexivity.
Qed.

End GuardFacts.

(** C6, on the code as it is. The two guards of the route answer 400 and
    leave the store as it was when propertyId or icalUrl is missing
    (absent, empty, or another falsy value) and when icalUrl is a string
    that does not begin with "https://". They miss an icalUrl that is
    truthy and not a string (a number, an array, an object): there
    [icalUrl.startsWith] is not a function and the handler throws a
    TypeError instead of answering 400; the store is left as it was. The
    handler also throws when the request has no parsed body. This holds
    whatever lines 113 to 136 do; on a body whose fields are strings or
    absent the route is [postProperties]. *)
Theorem register_validation
  (registration : jsval -> jsval -> jsstring -> Cache -> Cache * Response)
  (cache : Cache) :
  (forall b,
     truthyVal (rawPropertyId b) = false \/ truthyVal (rawIcalUrl b) = false ->
     postPropertiesWith registration (Some b) cache =
       (cache,
        Normal {| status := 400;
                  body := ErrorBody (lit "propertyId and icalUrl are required") |})) /\
  (forall b u,
     truthyVal (rawPropertyId b) = true ->
     rawIcalUrl b = Text u -> u <> [] -> ~ httpsUrl u ->
     postPropertiesWith registration (Some b) cache =
       (cache,
        Normal {| status := 400;
                  body := ErrorBody (lit "icalUrl must be a valid https:// URL") |})) /\
  (forall b,
     truthyVal (rawPropertyId b) = true ->
     rawIcalUrl b = NotText true ->
     postPropertiesWith registration (Some b) cache =
       (cache, Throw (lit "icalUrl.startsWith is not a function"))) /\
  postPropertiesWith registration None cache =
    (cache,
     Throw (lit "Cannot destructure property 'propertyId' of 'req.body' as it is undefined.")) /\
  (forall w req,
     registersAs w registration ->
     postPropertiesWith registration (Some (bodyOf req)) cache =
       (fst (postProperties w req cache),
        Normal (snd (postProperties w req cache)))).
Proof.
  split; [|split; [|split; [|split]]].
  - intros b H. unfold postPropertiesWith, registrationGuards.
    assert (G : negb (truthyVal (rawPropertyId b)) ||
                negb (truthyVal (rawIcalUrl b)) = true)
      by (destruct H as [-> | ->]; [reflexivity | apply orb_true_r]).
    now rewrite G.
  - intros b u P U Hne Hn. unfold postPropertiesWith, registrationGuards.
    rewrite P, U. destruct u as [|c u]; [contradiction|].
    cbn [truthyVal truthy negb orb].
    destruct (startsWith (lit "https://") (c :: u)) eqn:S; [|reflexivity].
    apply httpsUrl_startsWith in S. contradiction.
  - intros b P U. unfold postPropertiesWith, registrationGuards.
    now rewrite P, U.
  - reflexivity.
  - intros w req Hr. now apply postPropertiesWith_text.
Qed.

Lemma register_validation_witness :
  postPropertiesWith (Sample3.registration Sample2.world2)
    (Some Sample3.numericUrl) Sample.cache1 =
    (Sample.cache1, Throw (lit "icalUrl.startsWith is not a function")) /\
  postPropertiesWith (Sample3.registration Sample2.world2)
    (Some (bodyOf Sample.insecure)) Sample.cache1 =
    (Sample.cache1,
     Normal {| status := 400;
               body := ErrorBody (lit "icalUrl must be a valid https:// URL") |}).
Proof.
  destruct (register_validation (Sample3.registration Sample2.world2)
              Sample.cache1) as (_ & G2 & G3 & _ & _).
  split.
  - exact (G3 Sample3.numericUrl eq_refl eq_refl).
  - apply (G2 (bodyOf Sample.insecure) (lit "http://example.com/calendar.ics")
             eq_refl eq_refl).
    + discriminate.
    + intros [rest H]. discriminate H.
Defined.

Section StatusFacts.





End StatusFacts.


